(** * Category reconciliation and record transformation (V1 -> Vyco)

    A shallow embedding of the conversion core of the repository:
    - [modulos/mapeador_categorias.py] (class [MapeadorCategorias]),
    - [modulos/processador_dados.py]   (class [ProcessadorDados]),
    - [modulos/gerador_excel.py]       (methods [_garantir_colunas] and
      [_calcular_codigo_pai]).
    The module [Decompose] states the decomposition of a category label in
    the words of the specification; the properties follow the definitions.

    Python strings are sequences of Unicode code points, cell values are a
    small tagged union of the Python objects a spreadsheet column holds, and
    a pandas DataFrame is an index length with an ordered list of named
    columns.  Code that can raise runs in an error monad; [st.error] calls
    are collected in a log. *)

From Stdlib Require Import List NArith ZArith Bool Lia Ascii String Arith.
From Stdlib Require Import DecimalString Permutation Sorted.
Import ListNotations.

Set Implicit Arguments.

(* ===================================================================== *)
(** ** Python strings *)
(* ===================================================================== *)

Module PyStr.

(** A code point. *)
Definition char := N.

(** A Python [str]. *)
Definition str := list char.

Local Open Scope N_scope.

(** Decoding of a UTF-8 byte sequence; used only to write literals. *)
Fixpoint utf8_decode (bs : list N) : str :=
  match bs with
  | [] => []
  | b :: r =>
    if b <? 128 then b :: utf8_decode r
    else if b <? 224 then
      match r with
      | b1 :: r1 => ((b - 192) * 64 + (b1 - 128)) :: utf8_decode r1
      | [] => []
      end
    else if b <? 240 then
      match r with
      | b1 :: b2 :: r2 =>
        ((b - 224) * 4096 + (b1 - 128) * 64 + (b2 - 128)) :: utf8_decode r2
      | _ => []
      end
    else
      match r with
      | b1 :: b2 :: b3 :: r3 =>
        ((b - 240) * 262144 + (b1 - 128) * 4096 + (b2 - 128) * 64 + (b3 - 128))
          :: utf8_decode r3
      | _ => []
      end
  end.

(** [py "..."] is the Python string written between the quotes. *)
Definition py (s : string) : str :=
  utf8_decode (List.map N_of_ascii (list_ascii_of_string s)).

Definition eqb (a b : str) : bool :=
  if list_eq_dec N.eq_dec a b then true else false.

(** [x in l] for a list of strings. *)
Definition mem (x : str) (l : list str) : bool := existsb (eqb x) l.

(** [str.isspace] on one code point: the white-space table of CPython
    ([_PyUnicode_IsWhitespace]); [str.strip] and the pattern [\s] use it. *)
Definition isspace (c : char) : bool :=
  ((9 <=? c) && (c <=? 13)) || ((28 <=? c) && (c <=? 32))
  || (c =? 133) || (c =? 160) || (c =? 5760)
  || ((8192 <=? c) && (c <=? 8202))
  || (c =? 8232) || (c =? 8233) || (c =? 8239) || (c =? 8287)
  || (c =? 12288).

Fixpoint lstrip (s : str) : str :=
  match s with
  | [] => []
  | c :: s' => if isspace c then lstrip s' else s
  end.

Definition rstrip (s : str) : str := rev (lstrip (rev s)).

(** [s.strip()] *)
Definition strip (s : str) : str := rstrip (lstrip s).

(** [s.startswith(p)] *)
Fixpoint startswith (p s : str) : bool :=
  match p, s with
  | [], _ => true
  | _ :: _, [] => false
  | a :: p', b :: s' => (a =? b) && startswith p' s'
  end.

(** [sub in s] *)
Fixpoint contains (sub s : str) : bool :=
  startswith sub s ||
  match s with
  | [] => false
  | _ :: s' => contains sub s'
  end.

(** [s.split(sep, 1)] for a non-empty [sep]: the text before and after the
    first occurrence of [sep], or the text alone when [sep] does not occur. *)
Fixpoint split1 (sep s : str) : list str :=
  if startswith sep s then [[]; skipn (List.length sep) s]
  else
    match s with
    | [] => [[]]
    | c :: s' =>
      match split1 sep s' with
      | h :: t => (c :: h) :: t
      | [] => []
      end
    end.

(** [s.lower()].  Basic Latin and the Latin-1 Supplement follow the Unicode
    tables (they hold every header and keyword the program names); other
    code points are left as they are. *)
Definition lower_char (c : char) : char :=
  if ((65 <=? c) && (c <=? 90))
     || ((192 <=? c) && (c <=? 222) && negb (c =? 215))
  then c + 32 else c.

Definition lower (s : str) : str := List.map lower_char s.

(** [str(z)] for an [int]. *)
Definition of_Z (z : Z) : str :=
  List.map N_of_ascii
    (list_ascii_of_string (NilZero.string_of_int (Z.to_int z))).

End PyStr.

Import PyStr.


(* ===================================================================== *)
(** ** The fragment of [re] the program uses *)
(* ===================================================================== *)

Module Regex.

Local Open Scope N_scope.

(** Patterns: one code point of a class, concatenation, greedy repetition. *)
Inductive re : Type :=
| Chr (p : char -> bool)
| Seq (a b : re)
| Star (a : re).

(** [a+] *)
Definition Plus (a : re) : re := Seq a (Star a).

(** [run fuel r s]: what is left of [s] after each way a prefix of [s]
    matches [r], in the order in which a backtracking matcher tries them
    (a greedy repetition tries one more iteration before it stops). *)
Fixpoint run (fuel : nat) : re -> str -> list str :=
  fix go (r : re) (s : str) {struct r} : list str :=
    match r with
    | Chr p =>
      match s with
      | c :: s' => if p c then [s'] else []
      | [] => []
      end
    | Seq a b => flat_map (go b) (go a s)
    | Star a =>
      match fuel with
      | O => [s]
      | S f =>
        flat_map
          (fun s' =>
             if (List.length s' <? List.length s)%nat
             then run f (Star a) s' else [])
          (go a s)
        ++ [s]
      end
    end.

Definition exec (r : re) (s : str) : list str := run (S (List.length s)) r s.

(** The decimal digits of Unicode (general category Nd, Unicode 14 as in
    CPython 3.11), by the first and the last code point of each run: the
    ASCII digits first, then those of the other scripts. *)
Definition decimal_digits : list (N * N) :=
  [(48, 57); (1632, 1641); (1776, 1785); (1984, 1993); (2406, 2415);
   (2534, 2543); (2662, 2671); (2790, 2799); (2918, 2927); (3046, 3055);
   (3174, 3183); (3302, 3311); (3430, 3439); (3558, 3567); (3664, 3673);
   (3792, 3801); (3872, 3881); (4160, 4169); (4240, 4249); (6112, 6121);
   (6160, 6169); (6470, 6479); (6608, 6617); (6784, 6793); (6800, 6809);
   (6992, 7001); (7088, 7097); (7232, 7241); (7248, 7257); (42528, 42537);
   (43216, 43225); (43264, 43273); (43472, 43481); (43504, 43513);
   (43600, 43609); (44016, 44025); (65296, 65305); (66720, 66729);
   (68912, 68921); (69734, 69743); (69872, 69881); (69942, 69951);
   (70096, 70105); (70384, 70393); (70736, 70745); (70864, 70873);
   (71248, 71257); (71360, 71369); (71472, 71481); (71904, 71913);
   (72016, 72025); (72784, 72793); (73040, 73049); (73120, 73129);
   (92768, 92777); (92864, 92873); (93008, 93017); (120782, 120831);
   (123200, 123209); (123632, 123641); (125264, 125273); (130032, 130041)].

(** [\d] in a pattern that is a [str]: any decimal digit of Unicode. *)
Definition digit (c : char) : bool :=
  existsb (fun r : N * N => (fst r <=? c) && (c <=? snd r)) decimal_digits.
(** [[A-Za-z]] *)
Definition letter (c : char) : bool :=
  ((65 <=? c) && (c <=? 90)) || ((97 <=? c) && (c <=? 122)).
(** [\.] *)
Definition dot (c : char) : bool := c =? 46.
(** [.] without DOTALL: anything but a line feed. *)
Definition any (c : char) : bool := negb (c =? 10).

(** [$] without MULTILINE: at the end, or before a final line feed. *)
Definition at_end (s : str) : bool :=
  match s with
  | [] => true
  | [c] => c =? 10
  | _ => false
  end.

(** The text consumed between [s] and its suffix [rest]. *)
Definition consumed (s rest : str) : str :=
  firstn (List.length s - List.length rest) s.

(** [re.match(r'^(CODE)\s+(.+)$', s)]: groups 1 and 2 of the first
    successful path, [None] when there is none. *)
Definition match_code_name (code : re) (s : str) : option (str * str) :=
  hd_error
    (flat_map
       (fun r1 =>
          flat_map
            (fun r2 =>
               flat_map
                 (fun r3 =>
                    if at_end r3
                    then [(consumed s r1, consumed r2 r3)] else [])
                 (exec (Plus (Chr any)) r2))
            (exec (Plus (Chr isspace)) r1))
       (exec code s)).

(** [\d+(?:\.\d+)*] *)
Definition numeric_code : re :=
  Seq (Plus (Chr digit)) (Star (Seq (Chr dot) (Plus (Chr digit)))).

(** [[A-Za-z]\d+(?:\.\d+)*] *)
Definition letter_code : re := Seq (Chr letter) numeric_code.

End Regex.

(* ===================================================================== *)
(** ** Calendar dates as day numbers *)
(* ===================================================================== *)

Module Date.

Local Open Scope Z_scope.

(** Days since 1970-01-01 of a proleptic Gregorian date. *)
Definition days_from_civil (y m d : Z) : Z :=
  let y' := if m <=? 2 then y - 1 else y in
  let era := y' / 400 in
  let yoe := y' - era * 400 in
  let mp := if 2 <? m then m - 3 else m + 9 in
  let doy := (153 * mp + 2) / 5 + d - 1 in
  let doe := yoe * 365 + yoe / 4 - yoe / 100 + doy in
  era * 146097 + doe - 719468.

(** The (year, month, day) of a day number. *)
Definition civil_from_days (z : Z) : Z * Z * Z :=
  let z' := z + 719468 in
  let era := z' / 146097 in
  let doe := z' - era * 146097 in
  let yoe := (doe - doe / 1460 + doe / 36524 - doe / 146096) / 365 in
  let y := yoe + era * 400 in
  let doy := doe - (365 * yoe + yoe / 4 - yoe / 100) in
  let mp := (5 * doy + 2) / 153 in
  let d := doy - (153 * mp + 2) / 5 + 1 in
  let m := if mp <? 10 then mp + 3 else mp - 9 in
  (if m <=? 2 then y + 1 else y, m, d).

Definition is_leap (y : Z) : bool :=
  ((y mod 4 =? 0) && negb (y mod 100 =? 0)) || (y mod 400 =? 0).

Definition days_in_month (y m : Z) : Z :=
  if m =? 2 then (if is_leap y then 29 else 28)
  else if (m =? 4) || (m =? 6) || (m =? 9) || (m =? 11) then 30
  else 31.

Definition valid_date (y m d : Z) : bool :=
  (1 <=? m) && (m <=? 12) && (1 <=? d) && (d <=? days_in_month y m).

(** A non-negative number in at least [width] decimal digits. *)
Definition pad (width : nat) (z : Z) : str :=
  let ds := of_Z z in
  repeat 48%N (width - List.length ds) ++ ds.

(** [ts.strftime('%d/%m/%Y')] *)
Definition strftime_dmy (day : Z) : str :=
  let '(y, m, d) := civil_from_days day in
  pad 2 d ++ py "/" ++ pad 2 m ++ py "/" ++ pad 4 y.

(** [str(ts)] for a timestamp at midnight. *)
Definition isoformat (day : Z) : str :=
  let '(y, m, d) := civil_from_days day in
  pad 4 y ++ py "-" ++ pad 2 m ++ py "-" ++ pad 2 d ++ py " 00:00:00".

(** The value of a run of ASCII digits. *)
Definition digits_value (ds : str) : Z :=
  fold_left (fun acc c => acc * 10 + (Z.of_N c - 48)) ds 0.

Definition is_digit (c : char) : bool := ((48 <=? c) && (c <=? 57))%N.

(** The day directive of pandas's [strptime]:
    [3[0-1]|[1-2]\d|0[1-9]|[1-9]| [1-9]], alternatives in that order. *)
Definition field_day (s : str) : list (Z * str) :=
  let two :=
    match s with
    | a :: b :: r =>
      if ((a =? 51) && ((b =? 48) || (b =? 49)))%N
         || (((a =? 49) || (a =? 50)) && is_digit b)%N
         || ((a =? 48) && is_digit b && negb (b =? 48))%N
      then [(digits_value [a; b], r)] else []
    | _ => []
    end in
  let one :=
    match s with
    | a :: r =>
      if (is_digit a && negb (a =? 48))%N then [(digits_value [a], r)] else []
    | _ => []
    end in
  let blank :=
    match s with
    | a :: b :: r =>
      if ((a =? 32) && is_digit b && negb (b =? 48))%N
      then [(digits_value [b], r)] else []
    | _ => []
    end in
  two ++ one ++ blank.

(** The month directive: [1[0-2]|0[1-9]|[1-9]]. *)
Definition field_month (s : str) : list (Z * str) :=
  let two :=
    match s with
    | a :: b :: r =>
      if ((a =? 49) && ((b =? 48) || (b =? 49) || (b =? 50)))%N
         || ((a =? 48) && is_digit b && negb (b =? 48))%N
      then [(digits_value [a; b], r)] else []
    | _ => []
    end in
  let one :=
    match s with
    | a :: r =>
      if (is_digit a && negb (a =? 48))%N then [(digits_value [a], r)] else []
    | _ => []
    end in
  two ++ one.

(** The year directive: [\d\d\d\d]. *)
Definition field_year (s : str) : list (Z * str) :=
  match s with
  | a :: b :: c :: d :: r =>
    if is_digit a && is_digit b && is_digit c && is_digit d
    then [(digits_value [a; b; c; d], r)] else []
  | _ => []
  end.

Definition slash (s : str) : list str :=
  match s with
  | c :: r => if (c =? 47)%N then [r] else []
  | [] => []
  end.

Inductive format : Type := DMY | MDY.

(** The first match of the format's pattern at the start of [s]: the three
    fields and the text left over. *)
Definition scan (f : format) (s : str) : option (Z * Z * Z * str) :=
  let first := match f with DMY => field_day | MDY => field_month end in
  let second := match f with DMY => field_month | MDY => field_day end in
  hd_error
    (flat_map
       (fun '(a, r1) =>
          flat_map
            (fun r2 =>
               flat_map
                 (fun '(b, r3) =>
                    flat_map
                      (fun r4 =>
                         List.map (fun '(y, r5) => (a, b, y, r5))
                                  (field_year r4))
                      (slash r3))
                 (second r2))
            (slash r1))
       (first s)).

(** [strptime] with ['%d/%m/%Y'] or ['%m/%d/%Y'] under [errors='coerce']:
    the day number, or [None] (NaT) when the text does not match, text is
    left over, or the date does not exist.  The nanosecond range of pandas
    timestamps (years 1677 to 2262) is not modelled. *)
Definition strptime (f : format) (s : str) : option Z :=
  match scan f s with
  | Some (a, b, y, []) =>
    let '(d, m) := match f with DMY => (a, b) | MDY => (b, a) end in
    if valid_date y m d then Some (days_from_civil y m d) else None
  | _ => None
  end.

End Date.

(* ===================================================================== *)
(** ** Python values, exceptions *)
(* ===================================================================== *)

Module Py.

(** What a cell of a table may hold.  [VFloat z] is the float [float(z)]
    (such as the literal [0.0]); floats with a fractional part are copied
    around by the program but never inspected, and are not modelled.
    [VTimestamp day] is a pandas timestamp at midnight of day [day]. *)
Inductive value : Type :=
| VNone
| VNaN
| VNaT
| VStr (s : str)
| VInt (z : Z)
| VFloat (z : Z)
| VTimestamp (day : Z).

(** [pd.isna(v)] *)
Definition isna (v : value) : bool :=
  match v with
  | VNone | VNaN | VNaT => true
  | _ => false
  end.

(** [isinstance(v, str)] *)
Definition is_str (v : value) : bool :=
  match v with
  | VStr _ => true
  | _ => false
  end.

(** [str(v)] *)
Definition py_str (v : value) : str :=
  match v with
  | VNone => py "None"
  | VNaN => py "nan"
  | VNaT => py "NaT"
  | VStr s => s
  | VInt z => of_Z z
  | VFloat z => of_Z z ++ py ".0"
  | VTimestamp d => Date.isoformat d
  end.

(** The values whose [str()] is the text that [py_str] gives.  A float
    that is a whole number prints as its digits and ".0" below 1e16 (from
    there on Python writes an exponent), and a whole number above 2^53 is
    a float only if it is even; CPython 3.11 prints an integer of at most
    4300 digits; a timestamp of pandas lies within 2^63 nanoseconds of
    1970-01-01. *)
Definition str_exact (v : value) : bool :=
  match v with
  | VInt z => (Z.abs z <? 10 ^ 4300)%Z
  | VFloat z =>
    ((Z.abs z <=? 2 ^ 53) || ((Z.abs z <? 10 ^ 16) && Z.even z))%Z
  | VTimestamp day => (Z.abs day <=? 106751)%Z
  | _ => true
  end.

(** [a == b] *)
Definition value_eqb (a b : value) : bool :=
  match a, b with
  | VNone, VNone => true
  | VStr s, VStr t => PyStr.eqb s t
  | VInt x, VInt y | VInt x, VFloat y | VFloat x, VInt y | VFloat x, VFloat y =>
    Z.eqb x y
  | VTimestamp x, VTimestamp y => Z.eqb x y
  | _, _ => false
  end.

Fixpoint str_ltb (a b : str) : bool :=
  match a, b with
  | _, [] => false
  | [], _ :: _ => true
  | x :: a', y :: b' => (x <? y)%N || ((x =? y)%N && str_ltb a' b')
  end.

(** [a < b] where it is defined. *)
Definition value_ltb (a b : value) : bool :=
  match a, b with
  | VStr s, VStr t => str_ltb s t
  | VInt x, VInt y | VInt x, VFloat y | VFloat x, VInt y | VFloat x, VFloat y =>
    Z.ltb x y
  | VTimestamp x, VTimestamp y => Z.ltb x y
  | _, _ => false
  end.

(** Whether [a < b] is defined (it raises [TypeError] otherwise). *)
Definition comparable (a b : value) : bool :=
  match a, b with
  | VStr _, VStr _ => true
  | (VInt _ | VFloat _ | VNaN), (VInt _ | VFloat _ | VNaN) => true
  | (VTimestamp _ | VNaT), (VTimestamp _ | VNaT) => true
  | _, _ => false
  end.

Inductive exn : Type :=
| KeyError (key : str)
| TypeError
| ValueError
| Exception (causa : exn).

Inductive result (A : Type) : Type :=
| Ok (a : A)
| Raise (e : exn).

Arguments Ok {A} a.
Arguments Raise {A} e.

Definition bind {A B : Type} (c : result A) (k : A -> result B) : result B :=
  match c with
  | Ok a => k a
  | Raise e => Raise e
  end.

Fixpoint insert_sorted (x : value) (l : list value) : list value :=
  match l with
  | [] => [x]
  | y :: l' => if value_ltb x y then x :: l else y :: insert_sorted x l'
  end.

(** [sorted(l)]: a stable sort by [<]; any comparison sort has to compare
    two elements that [<] does not relate at some point, and [TypeError]
    comes out of it. *)
Definition sorted (l : list value) : result (list value) :=
  match l with
  | [] | [_] => Ok l
  | _ =>
    if forallb (fun a => forallb (comparable a) l) l
    then Ok (fold_left (fun acc x => insert_sorted x acc) l [])
    else Raise TypeError
  end.

(** [x in l] under [==]. *)
Definition value_mem (x : value) (l : list value) : bool :=
  existsb (value_eqb x) l.

(** The distinct elements of [l], first occurrences kept, as [unique()]
    and [set()] keep them. *)
Fixpoint unique_acc (seen l : list value) : list value :=
  match l with
  | [] => []
  | x :: l' =>
    if value_mem x seen then unique_acc seen l'
    else x :: unique_acc (x :: seen) l'
  end.

Definition unique (l : list value) : list value := unique_acc [] l.

(** [dropna()] *)
Definition dropna (l : list value) : list value :=
  filter (fun v => negb (isna v)) l.

(** [set(a) - set(b)] *)
Definition set_difference (a b : list value) : list value :=
  filter (fun x => negb (value_mem x b)) (unique a).

(** [range(1, n + 1)] *)
Definition range1 (n : nat) : list value :=
  List.map (fun i => VInt (Z.of_nat i)) (seq 1 n).

End Py.

Import Py.

Declare Scope py_scope.
Delimit Scope py_scope with py.
Notation "x <- c ;; k" := (bind c (fun x => k))
  (at level 61, c at next level, right associativity) : py_scope.
Local Open Scope py_scope.

(* ===================================================================== *)
(** ** pandas DataFrames *)
(* ===================================================================== *)

Module Pandas.

(** A frame: the length of its (default) index and its columns in order. *)
Record DataFrame : Type := mkDF {
  index_len : nat;
  cols : list (str * list value)
}.

(** The tables the program reads: column labels are distinct and every
    column is as long as the index. *)
Definition wf (df : DataFrame) : Prop :=
  NoDup (List.map fst (cols df)) /\
  Forall (fun c => List.length (snd c) = index_len df) (cols df).

(** [df.columns] *)
Definition columns (df : DataFrame) : list str := List.map fst (cols df).

(** [c in df.columns] *)
Definition has_col (c : str) (df : DataFrame) : bool := mem c (columns df).

Fixpoint assoc (c : str) (l : list (str * list value)) : option (list value) :=
  match l with
  | [] => None
  | (n, v) :: l' => if PyStr.eqb n c then Some v else assoc c l'
  end.

(** [df[c]] *)
Definition getitem (c : str) (df : DataFrame) : result (list value) :=
  match assoc c (cols df) with
  | Some v => Ok v
  | None => Raise (KeyError c)
  end.

Definition put (c : str) (vals : list value) (l : list (str * list value))
  : list (str * list value) :=
  if mem c (List.map fst l)
  then List.map (fun p => if PyStr.eqb (fst p) c then (fst p, vals) else p) l
  else l ++ [(c, vals)].

(** [df[c] = v] for a scalar [v]. *)
Definition setitem_scalar (c : str) (v : value) (df : DataFrame) : DataFrame :=
  mkDF (index_len df) (put c (repeat v (index_len df)) (cols df)).

(** A frame without rows takes its index from the first non-empty column it
    is given; the columns it had are filled with NaN. *)
Definition ensure_valid_index (n : nat) (df : DataFrame) : DataFrame :=
  if (index_len df =? 0)%nat && negb (n =? 0)%nat
  then mkDF n (List.map (fun p => (fst p, repeat VNaN n)) (cols df))
  else df.

(** [df[c] = vals] for a list: its length has to be that of the index. *)
Definition setitem_list (c : str) (vals : list value) (df : DataFrame)
  : result DataFrame :=
  let df' := ensure_valid_index (List.length vals) df in
  if (List.length vals =? index_len df')%nat
  then Ok (mkDF (index_len df') (put c vals (cols df')))
  else Raise ValueError.

(** [df[c] = s] for a Series over a default index: aligned on the index of
    the frame, NaN where the Series has no row. *)
Definition setitem_series (c : str) (vals : list value) (df : DataFrame)
  : DataFrame :=
  let df' := ensure_valid_index (List.length vals) df in
  let n := index_len df' in
  mkDF n (put c (firstn n (vals ++ repeat VNaN (n - List.length vals)))
              (cols df')).

(** [df[cs]] for a list of labels: every label has to exist; a repeated
    label repeats its column. *)
Definition select (cs : list str) (df : DataFrame) : result DataFrame :=
  match find (fun c => negb (has_col c df)) cs with
  | Some c => Raise (KeyError c)
  | None =>
    Ok (mkDF (index_len df)
             (flat_map
                (fun c => filter (fun p => PyStr.eqb (fst p) c) (cols df))
                cs))
  end.

(** [df.drop(c, axis=1)] for a label that exists. *)
Definition drop (c : str) (df : DataFrame) : DataFrame :=
  mkDF (index_len df) (filter (fun p => negb (PyStr.eqb (fst p) c)) (cols df)).

(** [df.empty] *)
Definition empty (df : DataFrame) : bool :=
  (index_len df =? 0)%nat ||
  match cols df with
  | [] => true
  | _ => false
  end.

(** [pd.DataFrame(columns=cs)] *)
Definition empty_frame (cs : list str) : DataFrame :=
  mkDF 0 (List.map (fun c => (c, [])) cs).

(** [df.loc[mask, c] = v] *)
Definition loc_set (mask : list bool) (c : str) (v : value) (df : DataFrame)
  : DataFrame :=
  mkDF (index_len df)
       (List.map
          (fun p : str * list value =>
             if PyStr.eqb (fst p) c
             then (fst p,
                   List.map (fun mx : bool * value => if fst mx then v else snd mx)
                            (combine mask (snd p)))
             else p)
          (cols df)).

(** [df[mask]]: the rows where the mask holds. *)
Definition filter_rows (mask : list bool) (df : DataFrame) : DataFrame :=
  let keep (l : list value) :=
    List.map snd (filter fst (combine mask l)) in
  mkDF (List.length (filter (fun b : bool => b) (firstn (index_len df) mask)))
       (List.map (fun p => (fst p, keep (snd p))) (cols df)).

(** The dtype of a column is [object] unless it holds only numbers (with
    NaN) or only timestamps (with NaT). *)
Definition is_object_dtype (l : list value) : bool :=
  negb (forallb (fun v => match v with
                          | VInt _ | VFloat _ | VNaN => true
                          | _ => false
                          end) l)
  && negb (forallb (fun v => match v with
                             | VTimestamp _ | VNaT => true
                             | _ => false
                             end) l).

End Pandas.

Import Pandas.

(* ===================================================================== *)
(** ** modulos/mapeador_categorias.py *)
(* ===================================================================== *)

Module MapeadorCategorias.

Definition separadores : list str :=
  [py " - "; py " – "; py " — "; py " | "; py ": "; py " :: "].

(** The loop over [separadores] of [_limpar_categoria]. *)
Fixpoint tentar_separadores (seps : list str) (categoria_texto : str)
  : option (str * str) :=
  match seps with
  | [] => None
  | separador :: resto =>
    if contains separador categoria_texto then
      match split1 separador categoria_texto with
      | [parte0; parte1] => Some (strip parte0, strip parte1)
      | _ => tentar_separadores resto categoria_texto
      end
    else tentar_separadores resto categoria_texto
  end.

(** [_limpar_categoria]: (codigo, nome_categoria). *)
Definition _limpar_categoria (categoria_texto : value) : str * str :=
  let categoria_texto :=
    match categoria_texto with
    | VStr s => s
    | VNone => []
    | v => py_str v
    end in
  let categoria_texto := strip categoria_texto in
  match tentar_separadores separadores categoria_texto with
  | Some par => par
  | None =>
    match Regex.match_code_name Regex.numeric_code categoria_texto with
    | Some (codigo, nome) => (codigo, nome)
    | None =>
      match Regex.match_code_name Regex.letter_code categoria_texto with
      | Some (codigo, nome) => (codigo, nome)
      | None => ([], categoria_texto)
      end
    end
  end.

(** [_processar_categorias_com_codigo] *)
Definition _processar_categorias_com_codigo (df : DataFrame) (coluna : str)
  : result DataFrame :=
  categorias <- getitem coluna df ;;
  let pares := List.map _limpar_categoria categorias in
  let codigos := List.map (fun p => VStr (fst p)) pares in
  let nomes_limpos := List.map (fun p => VStr (snd p)) pares in
  df1 <- setitem_list (coluna ++ py "_Codigo") codigos df ;;
  setitem_list (coluna ++ py "_Nome_Limpo") nomes_limpos df1.

Definition palavras_chave : list str :=
  [py "categoria"; py "plano"; py "conta"; py "classificacao";
   py "classificação"; py "nome"; py "descricao"; py "descrição";
   py "grupo"; py "tipo"; py "receita"; py "despesa"; py "centro";
   py "custo"].

(** The test of the second loop of [_encontrar_coluna_categoria]: a column
    of text whose first value present is longer than two characters. *)
Definition coluna_de_texto (vals : list value) : bool :=
  is_object_dtype vals && negb (forallb isna vals) &&
  match dropna vals with
  | VStr amostra :: _ => (2 <? List.length amostra)%nat
  | _ => false
  end.

(** [_encontrar_coluna_categoria] *)
Definition _encontrar_coluna_categoria (df : DataFrame) : list str :=
  let colunas_encontradas :=
    filter
      (fun coluna =>
         let coluna_lower := strip (lower coluna) in
         existsb (fun palavra => contains palavra coluna_lower) palavras_chave)
      (columns df) in
  match colunas_encontradas with
  | [] =>
    match find (fun p => coluna_de_texto (snd p)) (cols df) with
    | Some p => [fst p]
    | None => []
    end
  | _ => colunas_encontradas
  end.

(** What [st.error] was called with. *)
Inductive mensagem : Type :=
| ColunaNaoEncontrada
| ErroAoAnalisar (e : exn).

(** A manual column name counts when it is given and not empty. *)
Definition informada (coluna : option str) : option str :=
  match coluna with
  | Some (c :: s) => Some (c :: s)
  | _ => None
  end.

(** The body of the [try] of [encontrar_categorias_inconsistentes]. *)
Definition analisar (dados_lancamentos dados_categorias : DataFrame)
    (coluna_lancamentos_manual coluna_plano_manual : option str)
  : result (list mensagem * list value) :=
  let coluna_categoria_lancamentos :=
    match informada coluna_lancamentos_manual with
    | Some c => c
    | None => py "Categoria"
    end in
  let coluna_plano :=
    match informada coluna_plano_manual with
    | Some c => Some c
    | None => hd_error (_encontrar_coluna_categoria dados_categorias)
    end in
  match coluna_plano with
  | None => Ok ([ColunaNaoEncontrada], [])
  | Some coluna_categoria_plano =>
    dados_categorias_processados <-
      _processar_categorias_com_codigo dados_categorias coluna_categoria_plano ;;
    lancamentos <- getitem coluna_categoria_lancamentos dados_lancamentos ;;
    let categorias_antigas := unique (dropna lancamentos) in
    let coluna_nomes_limpos := coluna_categoria_plano ++ py "_Nome_Limpo" in
    nomes <- getitem coluna_nomes_limpos dados_categorias_processados ;;
    let categorias_novas := unique (dropna nomes) in
    let categorias_inconsistentes :=
      set_difference categorias_antigas categorias_novas in
    ordenadas <- sorted categorias_inconsistentes ;;
    Ok ([], ordenadas)
  end.

(** [encontrar_categorias_inconsistentes]: the messages shown with
    [st.error] and what the caller gets.  [except Exception] catches
    whatever the body raises, so the caller always gets a list. *)
Definition encontrar_categorias_inconsistentes
    (dados_lancamentos dados_categorias : DataFrame)
    (coluna_lancamentos_manual coluna_plano_manual : option str)
  : list mensagem * result (list value) :=
  match analisar dados_lancamentos dados_categorias
                 coluna_lancamentos_manual coluna_plano_manual with
  | Ok (msgs, l) => (msgs, Ok l)
  | Raise e => ([ErroAoAnalisar e], Ok [])
  end.

End MapeadorCategorias.

(* ===================================================================== *)
(** ** The decomposition of a label, in the words of the specification *)
(* ===================================================================== *)

Module Decompose.

Import MapeadorCategorias.

(** A value that is not a text is turned into one, and null into "". *)
Definition coerce (v : value) : str :=
  match v with
  | VNone => []
  | VStr s => s
  | _ => py_str v
  end.

(** The first separator of the ordered list that occurs in the text. *)
Definition first_separator (t : str) : option str :=
  find (fun sep => contains sep t) separadores.

(** The text before and the text after the first occurrence of [sep]. *)
Fixpoint cut (sep t : str) : option (str * str) :=
  if startswith sep t then Some ([], skipn (List.length sep) t)
  else
    match t with
    | [] => None
    | c :: t' =>
      match cut sep t' with
      | Some (a, b) => Some (c :: a, b)
      | None => None
      end
    end.

(** The longest run of [p] at the start of [s], and the rest. *)
Fixpoint span (p : char -> bool) (s : str) : str * str :=
  match s with
  | c :: s' =>
    if p c then let (a, b) := span p s' in (c :: a, b) else ([], s)
  | [] => ([], [])
  end.

(** After a digit of a dotted number: more digits, or a dot that a digit
    follows; the number read and the rest. *)
Fixpoint numeric_tail (s : str) : str * str :=
  match s with
  | [] => ([], [])
  | c :: s' =>
    if Regex.digit c then
      let (a, r) := numeric_tail s' in (c :: a, r)
    else if Regex.dot c then
      match s' with
      | d :: _ =>
        if Regex.digit d then let (a, r) := numeric_tail s' in (c :: a, r)
        else ([], s)
      | [] => ([], s)
      end
    else ([], s)
  end.

(** A leading dotted number such as 2.2.1, and the rest. *)
Definition numeric_prefix (s : str) : option (str * str) :=
  match s with
  | c :: s' =>
    if Regex.digit c then
      let (a, r) := numeric_tail s' in Some (c :: a, r)
    else None
  | [] => None
  end.

(** A leading letter and dotted number such as A1.2, and the rest. *)
Definition letter_prefix (s : str) : option (str * str) :=
  match s with
  | c :: s' =>
    if Regex.letter c then
      match numeric_prefix s' with
      | Some (a, r) => Some (c :: a, r)
      | None => None
      end
    else None
  | [] => None
  end.

(** A leading code, then white space, then a text without a line feed up
    to the end: the code and the text. *)
Definition leading_code (prefix : str -> option (str * str)) (s : str)
  : option (str * str) :=
  match prefix s with
  | Some (codigo, rest) =>
    match span isspace rest with
    | (_ :: _, (_ :: _) as text) =>
      if forallb Regex.any text then Some (codigo, text) else None
    | _ => None
    end
  | None => None
  end.

(** The same without the condition on line feeds: a leading code, then
    white space, then any text. *)
Definition leading_code_stated (prefix : str -> option (str * str)) (s : str)
  : option (str * str) :=
  match prefix s with
  | Some (codigo, rest) =>
    match span isspace rest with
    | (_ :: _, (_ :: _) as text) => Some (codigo, text)
    | _ => None
    end
  | None => None
  end.

(** The four cases, tried in order. *)
Definition decompose (label : value) : str * str :=
  let t := strip (coerce label) in
  match first_separator t with
  | Some sep =>
    match cut sep t with
    | Some (a, b) => (strip a, strip b)
    | None => ([], t)
    end
  | None =>
    match leading_code numeric_prefix t with
    | Some par => par
    | None =>
      match leading_code letter_prefix t with
      | Some par => par
      | None => ([], t)
      end
    end
  end.

(** The four cases as the specification states them, where any text may
    follow a leading code. *)
Definition decompose_stated (label : value) : str * str :=
  let t := strip (coerce label) in
  match first_separator t with
  | Some sep =>
    match cut sep t with
    | Some (a, b) => (strip a, strip b)
    | None => ([], t)
    end
  | None =>
    match leading_code_stated numeric_prefix t with
    | Some par => par
    | None =>
      match leading_code_stated letter_prefix t with
      | Some par => par
      | None => ([], t)
      end
    end
  end.

End Decompose.

Import Decompose.

(* ===================================================================== *)
(** ** modulos/gerador_excel.py *)
(* ===================================================================== *)

Module GeradorExcel.

(** [_garantir_colunas] *)
Definition _garantir_colunas (dados : DataFrame) (colunas_esperadas : list str)
  : result DataFrame :=
  let dados_final :=
    fold_left
      (fun df coluna =>
         if has_col coluna df then df else setitem_scalar coluna (VStr []) df)
      colunas_esperadas dados in
  let colunas_existentes :=
    filter (fun col => has_col col dados_final) colunas_esperadas in
  select colunas_existentes dados_final.

End GeradorExcel.

(* ===================================================================== *)
(** ** modulos/processador_dados.py *)
(* ===================================================================== *)

Module ProcessadorDados.

(** The test that selects [colunas_categoria]. *)
Definition e_coluna_categoria (col : str) : bool :=
  PyStr.eqb col (py "Categoria")
  || (contains (py "categoria") (lower col)
      && negb (contains (py "codigo") (lower col)))
  || contains (py "plano") (lower col).

(** The loop over [mapeamento.items()], in the order of the dictionary. *)
Fixpoint aplicar_mapeamento (coluna_categoria : str)
    (mapeamento : list (str * str)) (dados_processados : DataFrame)
  : result DataFrame :=
  match mapeamento with
  | [] => Ok dados_processados
  | (categoria_antiga, categoria_nova) :: resto =>
    valores <- getitem coluna_categoria dados_processados ;;
    let mask := List.map (fun v => value_eqb v (VStr categoria_antiga)) valores in
    aplicar_mapeamento coluna_categoria resto
      (loc_set mask coluna_categoria (VStr categoria_nova) dados_processados)
  end.

(** [_aplicar_mapeamento_categorias] *)
Definition _aplicar_mapeamento_categorias (dados_lancamentos : DataFrame)
    (mapeamento : list (str * str)) : result DataFrame :=
  match filter e_coluna_categoria (columns dados_lancamentos) with
  | coluna_categoria :: _ =>
    aplicar_mapeamento coluna_categoria mapeamento dados_lancamentos
  | [] => Ok dados_lancamentos
  end.

Definition colunas_possiveis_codigo : list str :=
  [py "Código"; py "Code"; py "ID"; py "Código Pai"].

(** One item of the column [Nome] in [_processar_categorias]. *)
Definition separar_nome (item : value) : value * value :=
  match item with
  | VStr s =>
    if contains (py " - ") s then
      match split1 (py " - ") s with
      | [parte0; parte1] => (VStr (strip parte0), VStr (strip parte1))
      | _ => (VStr [], VStr s)
      end
    else (VStr [], VStr s)
  | VNone => (VStr [], VStr [])
  | v => (VStr [], VStr (py_str v))
  end.

(** The first part of [_processar_categorias]: a column [Codigo]. *)
Definition garantir_codigo (cp : DataFrame) : result DataFrame :=
  if has_col (py "Codigo") cp then Ok cp
  else
    match find (fun col => has_col col cp) colunas_possiveis_codigo with
    | Some coluna_codigo_encontrada =>
      v <- getitem coluna_codigo_encontrada cp ;;
      Ok (setitem_series (py "Codigo") v cp)
    | None =>
      if has_col (py "Nome") cp then
        nomes <- getitem (py "Nome") cp ;;
        let pares := List.map separar_nome nomes in
        cp1 <- setitem_list (py "Codigo") (List.map fst pares) cp ;;
        setitem_list (py "Nome") (List.map snd pares) cp1
      else setitem_list (py "Codigo") (range1 (index_len cp)) cp
    end.

(** The second part: a column [Nome]. *)
Definition garantir_nome (cp : DataFrame) : result DataFrame :=
  if has_col (py "Nome") cp then Ok cp
  else
    match find (fun col => contains (py "nome") (lower col)) (columns cp) with
    | Some nome_col =>
      v <- getitem nome_col cp ;;
      Ok (setitem_series (py "Nome") v cp)
    | None =>
      codigos <- getitem (py "Codigo") cp ;;
      Ok (setitem_series (py "Nome")
            (List.map (fun v => VStr (py "Categoria " ++ py_str v)) codigos) cp)
    end.

(** [_processar_categorias] *)
Definition _processar_categorias (dados_categorias : DataFrame)
  : result DataFrame :=
  cp1 <- garantir_codigo dados_categorias ;;
  cp2 <- garantir_nome cp1 ;;
  let colunas_finais :=
    fold_left
      (fun acc col =>
         if negb (mem col acc)
            && mem (lower col) [py "tipo"; py "ativo"; py "descricao"]
         then acc ++ [col] else acc)
      (columns cp2) [py "Codigo"; py "Nome"] in
  select colunas_finais cp2.

(** [_processar_centros_custo] *)
Definition _processar_centros_custo (dados_lancamentos : DataFrame)
  : result DataFrame :=
  match filter (fun col => contains (py "centro") (lower col)
                           && contains (py "custo") (lower col))
               (columns dados_lancamentos) with
  | [] => Ok (empty_frame [py "Codigo"; py "Nome"; py "Ativo"])
  | coluna_centro_custo :: _ =>
    v <- getitem coluna_centro_custo dados_lancamentos ;;
    let centros_unicos := unique (dropna v) in
    let n := List.length centros_unicos in
    Ok (mkDF n [(py "Codigo", range1 n);
                (py "Nome", centros_unicos);
                (py "Ativo", repeat (VStr (py "Sim")) n)])
  end.

(** One cell under [pd.to_datetime(..., format=f, errors='coerce')]. *)
Definition to_datetime_cell (f : Date.format) (v : value) : value :=
  match v with
  | VTimestamp d => VTimestamp d
  | VNone | VNaN | VNaT => VNaT
  | v =>
    match Date.strptime f (py_str v) with
    | Some d => VTimestamp d
    | None => VNaT
    end
  end.

(** [pd.to_datetime(col, format=f, errors='coerce')] for a column as read
    from a sheet; the result is a datetime64 column. *)
Definition to_datetime_format (f : Date.format) (col : list value)
  : list value :=
  List.map (to_datetime_cell f) col.

(** [pd.to_datetime] of a column that is datetime64 already gives the
    column back, whatever format is asked for. *)
Definition to_datetime_datetime64 (formato : option Date.format)
    (col : list value) : list value := col.

(** [.isna().all()] *)
Definition isna_all (col : list value) : bool := forallb isna col.

(** [.min()] of a datetime64 column: NaT when no date is present. *)
Definition min_datetime (col : list value) : value :=
  fold_left
    (fun acc v =>
       match acc, v with
       | VNaT, VTimestamp d => VTimestamp d
       | VTimestamp a, VTimestamp d => if (d <? a)%Z then VTimestamp d else acc
       | _, _ => acc
       end)
    col VNaT.

(** The body of the loop over the accounts of [_processar_contas_correntes]:
    the cell [DataInicial] of one account. *)
Definition data_inicial_da_conta (dados_com_data : DataFrame)
    (coluna_conta coluna_data : str) (conta : value) : result value :=
  contas <- getitem coluna_conta dados_com_data ;;
  let mask := List.map (fun v => value_eqb v conta) contas in
  let movimentacoes_conta := filter_rows mask dados_com_data in
  datas <- getitem coluna_data movimentacoes_conta ;;
  match min_datetime datas with
  | VTimestamp primeira_data =>
    Ok (VStr (Date.strftime_dmy (primeira_data - 1)))
  | _ => Ok (VStr [])
  end.

Fixpoint mapM {A B : Type} (f : A -> result B) (l : list A) : result (list B) :=
  match l with
  | [] => Ok []
  | x :: l' => y <- f x ;; ys <- mapM f l' ;; Ok (y :: ys)
  end.

(** [_processar_contas_correntes] *)
Definition _processar_contas_correntes (dados_lancamentos : DataFrame)
  : result DataFrame :=
  match filter (fun col => contains (py "conta") (lower col)
                           || contains (py "banco") (lower col))
               (columns dados_lancamentos) with
  | [] =>
    Ok (empty_frame [py "Codigo"; py "Nome"; py "Tipo"; py "Ativo";
                     py "DataInicial"])
  | coluna_conta :: _ =>
    match filter (fun col => contains (py "data") (lower col)
                             && negb (PyStr.eqb (lower col)
                                                (py "datacompetencia")))
                 (columns dados_lancamentos) with
    | [] =>
      v <- getitem coluna_conta dados_lancamentos ;;
      let contas_unicas := unique (dropna v) in
      let n := List.length contas_unicas in
      Ok (mkDF n [(py "Codigo", range1 n);
                  (py "Nome", contas_unicas);
                  (py "Tipo", repeat (VInt 1) n);
                  (py "Ativo", repeat (VStr (py "Sim")) n);
                  (py "DataInicial", repeat (VStr []) n)])
    | coluna_data :: _ =>
      datas <- getitem coluna_data dados_lancamentos ;;
      let d1 := to_datetime_format Date.DMY datas in
      let d2 :=
        if isna_all d1 then to_datetime_datetime64 (Some Date.MDY) d1 else d1 in
      let d3 :=
        if isna_all d2 then to_datetime_datetime64 None d2 else d2 in
      let dados_com_data := setitem_series coluna_data d3 dados_lancamentos in
      contas <- getitem coluna_conta dados_com_data ;;
      let contas_unicas := unique (dropna contas) in
      datas_iniciais <-
        mapM (data_inicial_da_conta dados_com_data coluna_conta coluna_data)
             contas_unicas ;;
      let n := List.length contas_unicas in
      match contas_unicas with
      | [] => Ok (mkDF 0 [(py "Codigo", [])])
      | _ =>
        Ok (mkDF n [(py "Nome", contas_unicas);
                    (py "Tipo", repeat (VInt 1) n);
                    (py "Ativo", repeat (VStr (py "Sim")) n);
                    (py "DataInicial", datas_iniciais);
                    (py "Codigo", range1 n)])
      end
    end
  end.

Definition colunas_contatos : list str :=
  [py "Nome"; py "Tipo"; py "Documento"; py "E-mail"; py "Enviar e-mail?";
   py "Telefone Residencial"; py "Telefone Comercial"; py "Telefone Celular";
   py "Contribuinte ICMS?"; py "Inscrição Estadual"; py "Inscrição Municipal"].

(** [_processar_contatos] *)
Definition _processar_contatos (dados_lancamentos : DataFrame)
  : result DataFrame :=
  let por_nome :=
    filter
      (fun col =>
         existsb (fun palavra => contains palavra (lower col))
                 [py "contato"; py "cliente"; py "fornecedor"; py "pessoa";
                  py "empresa"])
      (columns dados_lancamentos) in
  let colunas_contato :=
    match por_nome with
    | [] => if has_col (py "Contato") dados_lancamentos
            then [py "Contato"] else []
    | _ => por_nome
    end in
  match colunas_contato with
  | [] => Ok (empty_frame colunas_contatos)
  | coluna_contato :: _ =>
    v <- getitem coluna_contato dados_lancamentos ;;
    let contatos_series :=
      filter (fun x => negb (value_eqb x (VStr []))) (dropna v) in
    let contatos_unicos := unique contatos_series in
    let nomes :=
      List.map (fun c => VStr (strip (py_str c)))
        (filter (fun c => negb (isna c)
                          && negb (PyStr.eqb (strip (py_str c)) []))
                contatos_unicos) in
    let n := List.length nomes in
    match nomes with
    | [] => Ok (mkDF 0 [])
    | _ =>
      Ok (mkDF n
            ((py "Nome", nomes) :: (py "Tipo", repeat (VInt 0) n)
             :: List.map (fun c => (c, repeat (VStr []) n))
                         (skipn 2 colunas_contatos)))
    end
  end.

(** [vyco[destino] = dados[origem] if origem in dados.columns else padrao] *)
Definition copiar_ou_padrao (dados : DataFrame) (origem : str)
    (padrao : value) (destino : str) (vyco : DataFrame) : result DataFrame :=
  if has_col origem dados then
    v <- getitem origem dados ;;
    Ok (setitem_series destino v vyco)
  else Ok (setitem_scalar destino padrao vyco).

(** [vyco[c] = vyco[c].fillna(v)] *)
Definition fillna (c : str) (v : value) (vyco : DataFrame) : result DataFrame :=
  col <- getitem c vyco ;;
  Ok (setitem_series c (List.map (fun x => if isna x then v else x) col) vyco).

(** [_processar_lancamentos] *)
Definition _processar_lancamentos (dados_lancamentos : DataFrame)
  : result DataFrame :=
  let d := dados_lancamentos in
  l <- copiar_ou_padrao d (py "Confirmado") (VStr (py "Sim"))
         (py "Confirmado") (mkDF 0 []) ;;
  l <- copiar_ou_padrao d (py "Data") (VStr []) (py "Data") l ;;
  l <- copiar_ou_padrao d (py "Valor") (VInt 0) (py "Valor") l ;;
  l <- copiar_ou_padrao d (py "Categoria") (VStr []) (py "Categoria") l ;;
  let l := setitem_scalar (py "Data Emissão") VNone l in
  let l := setitem_scalar (py "Valor Emissão") VNone l in
  let l := setitem_scalar (py "Repetição") (VInt 0) l in
  l <- copiar_ou_padrao d (py "Parcela") (VInt 1) (py "Total Parcelas") l ;;
  l <- copiar_ou_padrao d (py "Descricao") (VStr []) (py "Descrição") l ;;
  l <- copiar_ou_padrao d (py "CentroDeCusto") VNone (py "Centro de Custo") l ;;
  l <- copiar_ou_padrao d (py "Conta") VNone (py "Conta Corrente") l ;;
  l <- copiar_ou_padrao d (py "Contato") VNone (py "Contato") l ;;
  l <- fillna (py "Confirmado") (VStr (py "Sim")) l ;;
  l <- fillna (py "Valor") (VInt 0) l ;;
  fillna (py "Categoria") (VStr []) l.

Definition colunas_obrigatorias : list str :=
  [py "Data"; py "Valor"; py "Descrição"; py "Conta Débito";
   py "Conta Crédito"].

(** One item of the column [Movimentação]: (conta débito, conta crédito). *)
Definition separar_movimentacao (movimentacao : value) : value * value :=
  if isna movimentacao || negb (contains (py " para ") (py_str movimentacao))
  then (VStr [], VStr [])
  else
    match split1 (py " para ") (py_str movimentacao) with
    | [parte0; parte1] => (VStr (strip parte0), VStr (strip parte1))
    | _ => (VStr [], VStr [])
    end.

(** The loop that adds the required columns a transfers table lacks;
    [hoje] is the day [datetime.now()] falls on. *)
Definition preencher_obrigatorias (hoje : Z) (t : DataFrame) : DataFrame :=
  fold_left
    (fun df coluna =>
       if has_col coluna df then df
       else if PyStr.eqb coluna (py "Data")
       then setitem_scalar coluna (VStr (Date.strftime_dmy hoje)) df
       else if PyStr.eqb coluna (py "Valor")
       then setitem_scalar coluna (VFloat 0) df
       else setitem_scalar coluna (VStr []) df)
    colunas_obrigatorias t.

(** [_processar_transferencias], run on day [hoje]. *)
Definition _processar_transferencias (hoje : Z) (dados_transferencias : DataFrame)
  : result DataFrame :=
  if empty dados_transferencias then Ok (empty_frame colunas_obrigatorias)
  else
    t <- (if has_col (py "Movimentação") dados_transferencias then
            movs <- getitem (py "Movimentação") dados_transferencias ;;
            let pares := List.map separar_movimentacao movs in
            t1 <- setitem_list (py "Conta Débito") (List.map fst pares)
                               dados_transferencias ;;
            t2 <- setitem_list (py "Conta Crédito") (List.map snd pares) t1 ;;
            Ok (drop (py "Movimentação") t2)
          else Ok dados_transferencias) ;;
    select colunas_obrigatorias (preencher_obrigatorias hoje t).

(** The six tables of [dados_processados]. *)
Record DadosProcessados : Type := mkDados {
  categorias : DataFrame;
  centros_custo : DataFrame;
  contas_correntes : DataFrame;
  contatos : DataFrame;
  lancamentos : DataFrame;
  transferencias : DataFrame
}.

(** [processar_todos_os_dados], run on day [hoje]. *)
Definition processar_todos_os_dados (hoje : Z)
    (dados_lancamentos dados_transferencias dados_categorias : DataFrame)
    (mapeamento_categorias : list (str * str)) : result DadosProcessados :=
  let corpo :=
    dados_lancamentos_processados <-
      match mapeamento_categorias with
      | [] => Ok dados_lancamentos
      | _ => _aplicar_mapeamento_categorias dados_lancamentos
                                            mapeamento_categorias
      end ;;
    c <- _processar_categorias dados_categorias ;;
    cc <- _processar_centros_custo dados_lancamentos_processados ;;
    co <- _processar_contas_correntes dados_lancamentos_processados ;;
    ct <- _processar_contatos dados_lancamentos_processados ;;
    l <- _processar_lancamentos dados_lancamentos_processados ;;
    t <- _processar_transferencias hoje dados_transferencias ;;
    Ok (mkDados c cc co ct l t) in
  match corpo with
  | Ok d => Ok d
  | Raise e => Raise (Exception e)
  end.

End ProcessadorDados.

(* ===================================================================== *)
(** ** modulos/mapeador_categorias.py: valid categories, suggestions,
       validation *)
(* ===================================================================== *)

Module MapeadorValidacao.

Import MapeadorCategorias.

(** What [st.error] is called with in [obter_categorias_validas]; the
    second is the [AttributeError] of [cat.strip()] on a value that is not
    a text. *)
Inductive erro : Type :=
| ErroAoObter (e : exn)
| ErroAoObterAtributo.

(** [[cat for cat in categorias_validas if cat.strip()]]; [None] when an
    element has no [strip]. *)
Fixpoint nao_vazias (categorias_validas : list value) : option (list value) :=
  match categorias_validas with
  | [] => Some []
  | VStr cat :: resto =>
    match nao_vazias resto with
    | Some l => Some (if PyStr.eqb (strip cat) [] then l else VStr cat :: l)
    | None => None
    end
  | _ :: _ => None
  end.

(** [obter_categorias_validas]: the messages shown with [st.error] and the
    list returned. *)
Definition obter_categorias_validas (dados_categorias : DataFrame)
    (coluna_categoria : option str) : list erro * list value :=
  let coluna :=
    match informada coluna_categoria with
    | Some c => Some c
    | None => hd_error (_encontrar_coluna_categoria dados_categorias)
    end in
  match coluna with
  | None => ([], [])
  | Some coluna_categoria =>
    match (dados_processados <-
             _processar_categorias_com_codigo dados_categorias coluna_categoria ;;
           getitem (coluna_categoria ++ py "_Nome_Limpo") dados_processados)
    with
    | Raise e => ([ErroAoObter e], [])
    | Ok nomes =>
      match nao_vazias (unique (dropna nomes)) with
      | None => ([ErroAoObterAtributo], [])
      | Some categorias_validas =>
        match sorted categorias_validas with
        | Ok l => ([], l)
        | Raise e => ([ErroAoObter e], [])
        end
      end
    end
  end.

(** [s.split()]: the words of [s], the runs of code points that are not
    white space; [palavra] is the word being read, backwards. *)
Fixpoint split_acc (palavra s : str) : list str :=
  match s with
  | [] =>
    match palavra with
    | [] => []
    | _ => [rev palavra]
    end
  | c :: s' =>
    if isspace c then
      match palavra with
      | [] => split_acc [] s'
      | _ => rev palavra :: split_acc [] s'
      end
    else split_acc (c :: palavra) s'
  end.

Definition split (s : str) : list str := split_acc [] s.

(** The test of the second loop of [_sugerir_categoria_similar]: a word of
    the old label, longer than three, is part of a word of the category or
    has one as a part. *)
Definition palavra_em_comum (categoria_antiga_lower categoria : str) : bool :=
  let categoria_lower := lower categoria in
  let palavras_antigas := split categoria_antiga_lower in
  let palavras_novas := split categoria_lower in
  existsb
    (fun palavra_antiga =>
       (3 <? List.length palavra_antiga)%nat
       && existsb
            (fun palavra_nova =>
               contains palavra_antiga palavra_nova
               || contains palavra_nova palavra_antiga)
            palavras_novas)
    palavras_antigas.

(** [_sugerir_categoria_similar] *)
Definition _sugerir_categoria_similar (categoria_antiga : str)
    (categorias_validas : list str) : str :=
  let categoria_antiga_lower := lower categoria_antiga in
  match find (fun categoria => PyStr.eqb (lower categoria) categoria_antiga_lower)
             categorias_validas with
  | Some categoria => categoria
  | None =>
    match find (palavra_em_comum categoria_antiga_lower) categorias_validas with
    | Some categoria => categoria
    | None => []
    end
  end.

(** What [validar_mapeamento_completo] shows; the order in which a set is
    printed is not modelled. *)
Inductive aviso : Type :=
| CategoriasNaoMapeadas (categorias_faltantes : list value)
| CategoriasSemValor (categorias_sem_valor : list str)
| MapeamentoCompleto.

(** [validar_mapeamento_completo]; the mapping is the list of the items of
    the dictionary.  [', '.join] raises [TypeError] on a label that is not
    a text. *)
Definition validar_mapeamento_completo (mapeamento : list (str * str))
    (categorias_inconsistentes : list value) : result (aviso * bool) :=
  let categorias_mapeadas := List.map (fun p => VStr (fst p)) mapeamento in
  let categorias_faltantes :=
    set_difference categorias_inconsistentes categorias_mapeadas in
  match categorias_faltantes with
  | _ :: _ =>
    if forallb is_str categorias_faltantes
    then Ok (CategoriasNaoMapeadas categorias_faltantes, false)
    else Raise TypeError
  | [] =>
    let categorias_sem_valor :=
      List.map fst (filter (fun p => PyStr.eqb (snd p) []) mapeamento) in
    match categorias_sem_valor with
    | _ :: _ => Ok (CategoriasSemValor categorias_sem_valor, false)
    | [] => Ok (MapeamentoCompleto, true)
    end
  end.

End MapeadorValidacao.

(* ===================================================================== *)
(** ** modulos/gerador_excel.py: parent codes *)
(* ===================================================================== *)

Module GeradorExcelCodigoPai.

(** [s.split(sep)] for a separator of one code point. *)
Fixpoint split_on (sep : char) (s : str) : list str :=
  match s with
  | [] => [[]]
  | c :: s' =>
    if (c =? sep)%N then [] :: split_on sep s'
    else
      match split_on sep s' with
      | parte :: resto => (c :: parte) :: resto
      | [] => [[c]]
      end
  end.

(** [sep.join(partes)] *)
Fixpoint join (sep : str) (partes : list str) : str :=
  match partes with
  | [] => []
  | parte :: resto =>
    match resto with
    | [] => parte
    | _ :: _ => parte ++ sep ++ join sep resto
    end
  end.

(** [_calcular_codigo_pai] *)
Definition _calcular_codigo_pai (codigo : value) : str :=
  let codigo :=
    match codigo with
    | VStr s => s
    | v => py_str v
    end in
  let codigo := strip codigo in
  if negb (contains (py ".") codigo) then []
  else
    let partes := split_on 46%N codigo in
    if (1 <? List.length partes)%nat
    then join (py ".") (removelast partes)
    else [].

End GeradorExcelCodigoPai.

(* ===================================================================== *)
(** * Properties *)
(* ===================================================================== *)


Unset Implicit Arguments.

(** ** Strings *)

Module PyStrFacts.

Lemma eqb_eq (a b : str) : PyStr.eqb a b = true <-> a = b.
Proof.
  unfold PyStr.eqb; destruct (list_eq_dec N.eq_dec a b); split; congruence.
Qed.

Lemma eqb_refl (a : str) : PyStr.eqb a a = true.
Proof. now apply eqb_eq. Qed.

Lemma eqb_neq (a b : str) : PyStr.eqb a b = false <-> a <> b.
Proof.
  unfold PyStr.eqb; destruct (list_eq_dec N.eq_dec a b); split; congruence.
Qed.

Lemma eqb_sym (a b : str) : PyStr.eqb a b = PyStr.eqb b a.
Proof.
  destruct (PyStr.eqb a b) eqn:E.
  - apply eqb_eq in E; subst; symmetry; apply eqb_refl.
  - apply eqb_neq in E; symmetry; apply eqb_neq; congruence.
Qed.

Lemma mem_In (x : str) (l : list str) : mem x l = true <-> In x l.
Proof.
  unfold mem; rewrite existsb_exists; split.
  - intros [y [Hy He]]; apply eqb_eq in He; now subst.
  - intros H; exists x; split; [assumption | apply eqb_refl].
Qed.

Lemma mem_false (x : str) (l : list str) : mem x l = false <-> ~ In x l.
Proof.
  rewrite <- mem_In; destruct (mem x l); split; congruence.
Qed.

Lemma startswith_app (p s : str) : startswith p (p ++ s) = true.
Proof.
  induction p as [|a p IH]; simpl; [reflexivity|].
  now rewrite N.eqb_refl, IH.
Qed.

Lemma skipn_app_exact (p s : str) : skipn (List.length p) (p ++ s) = s.
Proof. induction p; simpl; auto. Qed.

(** [sep] starts at no index of [s] before [n]. *)
Definition no_occurrence_before (sep s : str) (n : nat) : Prop :=
  forall k, (k < n)%nat -> startswith sep (skipn k s) = false.

Lemma contains_startswith (sep s : str) :
  startswith sep s = true -> contains sep s = true.
Proof. destruct s; simpl; intros ->; reflexivity. Qed.

Lemma contains_app (sep a b : str) : contains sep (a ++ sep ++ b) = true.
Proof.
  induction a as [|c a IH].
  - simpl app; apply contains_startswith, startswith_app.
  - simpl; rewrite IH; apply orb_true_r.
Qed.

Lemma split1_startswith (sep s : str) :
  startswith sep s = true -> split1 sep s = [[]; skipn (List.length sep) s].
Proof. destruct s; simpl; intros ->; reflexivity. Qed.

Lemma startswith_skipn (sep s : str) :
  startswith sep s = true -> s = sep ++ skipn (List.length sep) s.
Proof.
  revert s; induction sep as [|x sep IH]; intros s E; [reflexivity|].
  destruct s as [|y s]; [discriminate|]. simpl in E.
  apply andb_true_iff in E as [E1 E2]; apply N.eqb_eq in E1; subst.
  simpl; f_equal; now apply IH.
Qed.

(** [split1] cuts at the first occurrence of the separator. *)
Lemma split1_first (sep a b : str) :
  no_occurrence_before sep (a ++ sep ++ b) (List.length a) ->
  split1 sep (a ++ sep ++ b) = [a; b].
Proof.
  induction a as [|c a IH]; intros H.
  - simpl app. rewrite split1_startswith by apply startswith_app.
    now rewrite skipn_app_exact.
  - simpl app. simpl split1.
    assert (H0 : startswith sep (c :: a ++ sep ++ b) = false)
      by (apply (H 0%nat); simpl; lia).
    rewrite H0, IH; [reflexivity|].
    intros k Hk; apply (H (S k)); simpl; lia.
Qed.

(** Without an occurrence, [split1] returns the text alone. *)
Lemma split1_none (sep s : str) :
  contains sep s = false -> split1 sep s = [s].
Proof.
  induction s as [|c s IH]; simpl; intros H.
  - apply orb_false_iff in H as [H _]; now rewrite H.
  - apply orb_false_iff in H as [H1 H2]; rewrite H1, (IH H2); reflexivity.
Qed.

(** When the separator occurs, [split1] gives two parts that rebuild the
    text, and the first part is the shortest possible. *)
Lemma split1_some (sep s : str) :
  contains sep s = true ->
  exists a b, split1 sep s = [a; b] /\ s = a ++ sep ++ b /\
              no_occurrence_before sep s (List.length a).
Proof.
  induction s as [|c s IH]; intros H.
  - simpl in H; rewrite orb_false_r in H.
    exists [], (skipn (List.length sep) []); repeat split.
    + now apply split1_startswith.
    + now apply startswith_skipn.
    + intros k Hk; simpl in Hk; lia.
  - destruct (startswith sep (c :: s)) eqn:E.
    + exists [], (skipn (List.length sep) (c :: s)); repeat split.
      * now apply split1_startswith.
      * now apply startswith_skipn.
      * intros k Hk; simpl in Hk; lia.
    + simpl in H. rewrite E in H. simpl in H.
      destruct (IH H) as [a [b [Hs [Hr Hn]]]].
      exists (c :: a), b; repeat split.
      * simpl split1. simpl in E. rewrite E. now rewrite Hs.
      * simpl; now rewrite <- Hr.
      * intros [|k] Hk; [exact E|]. apply Hn; simpl in Hk; lia.
Qed.

End PyStrFacts.

Import PyStrFacts.

(** ** DataFrames *)

Module PandasFacts.

Lemma has_col_In (c : str) (df : DataFrame) :
  has_col c df = true <-> In c (columns df).
Proof. apply mem_In. Qed.

Lemma assoc_None (c : str) (l : list (str * list value)) :
  assoc c l = None <-> ~ In c (List.map fst l).
Proof.
  induction l as [|[n v] l IH]; simpl; [tauto|].
  destruct (PyStr.eqb n c) eqn:E.
  - apply eqb_eq in E; subst; split; [discriminate | tauto].
  - apply eqb_neq in E; rewrite IH; tauto.
Qed.

Lemma assoc_Some_In (c : str) (l : list (str * list value)) (v : list value) :
  assoc c l = Some v -> In (c, v) l.
Proof.
  induction l as [|[n w] l IH]; simpl; [discriminate|].
  destruct (PyStr.eqb n c) eqn:E.
  - apply eqb_eq in E; subst; intros [= ->]; now left.
  - intros H; right; auto.
Qed.

Lemma In_names_assoc (c : str) (l : list (str * list value)) :
  In c (List.map fst l) -> exists v, assoc c l = Some v.
Proof.
  intros H; destruct (assoc c l) eqn:E; [eauto|].
  apply assoc_None in E; contradiction.
Qed.

Lemma assoc_NoDup_In (c : str) (v : list value) (l : list (str * list value)) :
  NoDup (List.map fst l) -> In (c, v) l -> assoc c l = Some v.
Proof.
  induction l as [|[n w] l IH]; simpl; [tauto|].
  intros Hnd [H|H].
  - injection H as -> ->; now rewrite eqb_refl.
  - inversion Hnd as [|? ? Hn Hnd']; subst.
    destruct (PyStr.eqb n c) eqn:E; [|auto].
    apply eqb_eq in E; subst; exfalso; apply Hn.
    now apply (in_map fst) in H.
Qed.

Lemma names_put (c : str) (v : list value) (l : list (str * list value)) :
  List.map fst (put c v l) =
  if mem c (List.map fst l) then List.map fst l else List.map fst l ++ [c].
Proof.
  unfold put; destruct (mem c (List.map fst l)).
  - rewrite map_map; apply map_ext; intros [n w]; simpl.
    now destruct (PyStr.eqb n c).
  - now rewrite map_app.
Qed.

Lemma assoc_put_same (c : str) (v : list value) (l : list (str * list value)) :
  assoc c (put c v l) = Some v.
Proof.
  unfold put; destruct (mem c (List.map fst l)) eqn:E.
  - apply mem_In in E. induction l as [|[n w] l IH]; simpl in *; [tauto|].
    destruct (PyStr.eqb n c) eqn:En; simpl; rewrite En; [reflexivity|].
    apply IH; destruct E as [E|E]; [|exact E].
    apply eqb_neq in En; congruence.
  - apply mem_false in E. induction l as [|[n w] l IH]; simpl in *.
    + now rewrite eqb_refl.
    + destruct (PyStr.eqb n c) eqn:En.
      * apply eqb_eq in En; tauto.
      * apply IH; tauto.
Qed.

Lemma assoc_put_other (c c' : str) (v : list value)
    (l : list (str * list value)) :
  c <> c' -> assoc c' (put c v l) = assoc c' l.
Proof.
  intros Hne; unfold put; destruct (mem c (List.map fst l)).
  - induction l as [|[n w] l IH]; simpl; [reflexivity|].
    destruct (PyStr.eqb n c) eqn:En; simpl.
    + apply eqb_eq in En; subst.
      assert (E : PyStr.eqb c c' = false) by now apply eqb_neq.
      now rewrite E.
    + destruct (PyStr.eqb n c'); auto.
  - induction l as [|[n w] l IH]; simpl.
    + assert (E : PyStr.eqb c c' = false) by now apply eqb_neq.
      now rewrite E.
    + destruct (PyStr.eqb n c'); auto.
Qed.

Lemma NoDup_put (c : str) (v : list value) (l : list (str * list value)) :
  NoDup (List.map fst l) -> NoDup (List.map fst (put c v l)).
Proof.
  intros H; rewrite names_put; destruct (mem c (List.map fst l)) eqn:E;
    [assumption|].
  apply mem_false in E.
  apply Permutation_NoDup with (l := c :: List.map fst l).
  - apply Permutation_cons_append.
  - now constructor.
Qed.

Lemma Forall_put (P : str * list value -> Prop) (c : str) (v : list value)
    (l : list (str * list value)) :
  (forall n, P (n, v)) -> Forall P l -> Forall P (put c v l).
Proof.
  intros Hv H; unfold put; destruct (mem c (List.map fst l)).
  - induction H as [|[n w] l Hp H IH]; simpl; constructor; auto.
    simpl; destruct (PyStr.eqb n c); auto.
  - apply Forall_app; split; auto.
Qed.

(** In a frame with distinct labels, the columns labelled [c] are the one
    [assoc] finds. *)
Lemma filter_label (c : str) (l : list (str * list value)) :
  NoDup (List.map fst l) ->
  filter (fun p => PyStr.eqb (fst p) c) l =
  match assoc c l with
  | Some v => [(c, v)]
  | None => []
  end.
Proof.
  induction l as [|[n w] l IH]; simpl; [reflexivity|].
  intros Hnd; inversion Hnd as [|? ? Hn Hnd']; subst.
  destruct (PyStr.eqb n c) eqn:E.
  - apply eqb_eq in E; subst. f_equal.
    rewrite (IH Hnd'). apply assoc_None in Hn; now rewrite Hn.
  - auto.
Qed.

End PandasFacts.

Import PandasFacts.

(** ** Selecting and adding columns *)

Module FrameFacts.

(** The column labelled [c], or no cells when there is none. *)
Definition column_or_nil (c : str) (df : DataFrame) : list value :=
  match assoc c (cols df) with
  | Some v => v
  | None => []
  end.

Lemma select_present (cs : list str) (df : DataFrame) :
  NoDup (columns df) ->
  (forall c, In c cs -> In c (columns df)) ->
  select cs df =
  Ok (mkDF (index_len df) (List.map (fun c => (c, column_or_nil c df)) cs)).
Proof.
  intros Hnd Hin; unfold select.
  destruct (find (fun c => negb (has_col c df)) cs) eqn:F.
  - apply find_some in F as [F1 F2]. apply Hin, has_col_In in F1.
    now rewrite F1 in F2.
  - do 2 f_equal. clear F. induction cs as [|c cs IH]; [reflexivity|].
    simpl. rewrite IH by (intros; apply Hin; now right).
    rewrite filter_label by exact Hnd. unfold column_or_nil.
    destruct (In_names_assoc c (cols df)) as [v Hv];
      [apply Hin; now left|].
    now rewrite Hv.
Qed.

Lemma assoc_map_label (f : str -> list value) (c : str) (cs : list str) :
  In c cs -> assoc c (List.map (fun c => (c, f c)) cs) = Some (f c).
Proof.
  induction cs as [|x cs IH]; simpl; [tauto|].
  intros H; destruct (PyStr.eqb x c) eqn:E.
  - apply eqb_eq in E; now subst.
  - apply IH; destruct H as [H|H]; [|exact H].
    apply eqb_neq in E; congruence.
Qed.

Lemma names_map_label (f : str -> list value) (cs : list str) :
  List.map fst (List.map (fun c => (c, f c)) cs) = cs.
Proof. rewrite map_map; simpl; apply map_id. Qed.

Lemma wf_put (c : str) (v : list value) (df : DataFrame) :
  wf df -> List.length v = index_len df ->
  wf (mkDF (index_len df) (put c v (cols df))).
Proof.
  intros [Hnd Hlen] Hv; split; simpl.
  - now apply NoDup_put.
  - apply Forall_put; auto.
Qed.

Lemma setitem_scalar_wf (c : str) (x : value) (df : DataFrame) :
  wf df -> wf (setitem_scalar c x df).
Proof. intros H; apply wf_put; [exact H | apply repeat_length]. Qed.

Lemma ensure_valid_index_same (n : nat) (df : DataFrame) :
  n = index_len df -> ensure_valid_index n df = df.
Proof.
  intros ->; unfold ensure_valid_index.
  destruct (index_len df); simpl; [reflexivity|].
  reflexivity.
Qed.

Lemma setitem_list_wf (c : str) (v : list value) (df : DataFrame) :
  List.length v = index_len df ->
  setitem_list c v df = Ok (mkDF (index_len df) (put c v (cols df))).
Proof.
  intros H; unfold setitem_list.
  rewrite ensure_valid_index_same by exact H.
  now rewrite H, Nat.eqb_refl.
Qed.

Lemma setitem_series_wf (c : str) (v : list value) (df : DataFrame) :
  List.length v = index_len df ->
  setitem_series c v df = mkDF (index_len df) (put c v (cols df)).
Proof.
  intros H; unfold setitem_series.
  rewrite ensure_valid_index_same by exact H.
  rewrite H, Nat.sub_diag; simpl. rewrite app_nil_r.
  now rewrite <- H, firstn_all.
Qed.

Lemma getitem_length (c : str) (v : list value) (df : DataFrame) :
  wf df -> getitem c df = Ok v -> List.length v = index_len df.
Proof.
  intros [_ Hlen]; unfold getitem.
  destruct (assoc c (cols df)) eqn:E; [|discriminate].
  intros [= ->]. apply assoc_Some_In in E.
  rewrite Forall_forall in Hlen. apply (Hlen _ E).
Qed.

Lemma getitem_present (c : str) (df : DataFrame) :
  has_col c df = true -> exists v, getitem c df = Ok v.
Proof.
  intros H; apply has_col_In, In_names_assoc in H as [v Hv].
  exists v; unfold getitem; now rewrite Hv.
Qed.

Lemma getitem_absent (c : str) (df : DataFrame) :
  has_col c df = false -> getitem c df = Raise (KeyError c).
Proof.
  intros H; apply mem_false, assoc_None in H.
  unfold getitem; now rewrite H.
Qed.

(** The cell in row [i] of the column labelled [c]. *)
Definition cell (c : str) (i : nat) (df : DataFrame) : option value :=
  match assoc c (cols df) with
  | Some l => nth_error l i
  | None => None
  end.

Lemma getitem_cell (c : str) (v : list value) (i : nat) (df : DataFrame) :
  getitem c df = Ok v -> cell c i df = nth_error v i.
Proof.
  unfold getitem, cell; destruct (assoc c (cols df)); [|discriminate].
  now intros [= ->].
Qed.

Lemma getitem_has_col (c : str) (v : list value) (df : DataFrame) :
  getitem c df = Ok v -> has_col c df = true.
Proof.
  intros H; destruct (has_col c df) eqn:E; [reflexivity|].
  rewrite (getitem_absent c df E) in H; discriminate.
Qed.

(** One turn of a loop that adds the column [coluna] with the default
    [padrao coluna] when the frame lacks it. *)
Definition adicionar_com (padrao : str -> value) (df : DataFrame)
    (coluna : str) : DataFrame :=
  if has_col coluna df then df else setitem_scalar coluna (padrao coluna) df.

Lemma adicionar_com_assoc (padrao : str -> value) (df : DataFrame)
    (x c : str) :
  assoc c (cols (adicionar_com padrao df x)) =
  match assoc c (cols df) with
  | Some v => Some v
  | None => if PyStr.eqb x c
            then Some (repeat (padrao c) (index_len df)) else None
  end.
Proof.
  unfold adicionar_com; destruct (has_col x df) eqn:H.
  - destruct (assoc c (cols df)) eqn:E; [reflexivity|].
    destruct (PyStr.eqb x c) eqn:Ex; [|reflexivity].
    apply eqb_eq in Ex; subst. apply has_col_In in H.
    apply assoc_None in E; contradiction.
  - simpl. destruct (PyStr.eqb x c) eqn:Ex.
    + apply eqb_eq in Ex; subst. rewrite assoc_put_same.
      apply mem_false, assoc_None in H. now rewrite H.
    + apply eqb_neq in Ex. rewrite assoc_put_other by exact Ex.
      now destruct (assoc c (cols df)).
Qed.

Lemma adicionar_com_index (padrao : str -> value) (df : DataFrame) (x : str) :
  index_len (adicionar_com padrao df x) = index_len df.
Proof. unfold adicionar_com; now destruct (has_col x df). Qed.

Lemma adicionar_com_wf (padrao : str -> value) (df : DataFrame) (x : str) :
  wf df -> wf (adicionar_com padrao df x).
Proof.
  unfold adicionar_com; destruct (has_col x df); [auto|].
  apply setitem_scalar_wf.
Qed.

(** After the loop: the frame is still well formed, has as many rows, keeps
    the columns it had and has gained the missing ones with their default. *)
Lemma completar_com_spec (padrao : str -> value) (cs : list str)
    (df : DataFrame) :
  wf df ->
  let r := fold_left (adicionar_com padrao) cs df in
  wf r /\ index_len r = index_len df /\
  forall c, assoc c (cols r) =
            match assoc c (cols df) with
            | Some v => Some v
            | None => if mem c cs
                      then Some (repeat (padrao c) (index_len df)) else None
            end.
Proof.
  revert df; induction cs as [|x cs IH]; intros df Hwf; simpl.
  - split; [exact Hwf | split; [reflexivity|]].
    intros c; now destruct (assoc c (cols df)).
  - destruct (IH (adicionar_com padrao df x) (adicionar_com_wf padrao df x Hwf))
      as [W [I A]].
    split; [exact W | split; [now rewrite I, adicionar_com_index |]].
    intros c; rewrite A, adicionar_com_assoc, adicionar_com_index.
    destruct (assoc c (cols df)); [reflexivity|].
    rewrite (eqb_sym c x). now destruct (PyStr.eqb x c).
Qed.

Lemma completar_com_id (padrao : str -> value) (cs : list str)
    (df : DataFrame) :
  (forall c, In c cs -> In c (columns df)) ->
  fold_left (adicionar_com padrao) cs df = df.
Proof.
  induction cs as [|x cs IH]; intros H; simpl; [reflexivity|].
  assert (Hx : has_col x df = true) by (apply has_col_In, H; now left).
  unfold adicionar_com at 2; rewrite Hx. apply IH; intros; apply H; now right.
Qed.

Lemma assoc_drop (c c' : str) (l : list (str * list value)) :
  assoc c' (filter (fun p => negb (PyStr.eqb (fst p) c)) l) =
  if PyStr.eqb c c' then None else assoc c' l.
Proof.
  induction l as [|[n w] l IH]; simpl.
  - now destruct (PyStr.eqb c c').
  - destruct (PyStr.eqb n c) eqn:E; simpl.
    + rewrite IH. apply eqb_eq in E; subst.
      now destruct (PyStr.eqb c c').
    + destruct (PyStr.eqb n c') eqn:E'; [|exact IH].
      apply eqb_eq in E'; subst. now rewrite (eqb_sym c c'), E.
Qed.

Lemma drop_wf (c : str) (df : DataFrame) : wf df -> wf (drop c df).
Proof.
  intros [Hnd Hlen]; split; simpl.
  - clear Hlen. induction (cols df) as [|[n w] l IH]; simpl; [constructor|].
    inversion Hnd as [|? ? Hn Hnd']; subst.
    destruct (PyStr.eqb n c); simpl; [now apply IH|].
    constructor; [|now apply IH].
    intros H; apply Hn. apply in_map_iff in H as [p [Hp1 Hp2]].
    apply filter_In in Hp2 as [Hp2 _]. apply in_map_iff; eauto.
  - apply Forall_forall; intros p Hp. apply filter_In in Hp as [Hp _].
    rewrite Forall_forall in Hlen; auto.
Qed.

(** Two different string literals. *)
Ltac str_neq :=
  let H := fresh in intro H; vm_compute in H; discriminate H.

End FrameFacts.

Import FrameFacts.

(** ** [_garantir_colunas] *)

Module GeradorExcelFacts.

Import GeradorExcel.

(** One turn of the loop that adds the missing columns. *)
Definition adicionar : DataFrame -> str -> DataFrame :=
  adicionar_com (fun _ => VStr []).

Lemma _garantir_colunas_unfold (dados : DataFrame) (cs : list str) :
  _garantir_colunas dados cs =
  select (filter (fun col => has_col col (fold_left adicionar cs dados)) cs)
         (fold_left adicionar cs dados).
Proof. reflexivity. Qed.

(** C7.  For every table with distinct column labels and every list of
    distinct required labels, [_garantir_colunas] returns (it never raises)
    a table with the same number of rows whose columns are exactly the
    required list, in that order; a required column the input had keeps its
    cells, one it lacked holds the blank string in every row, and the other
    columns are gone; applying the function again with the same list gives
    the same table back. *)
Theorem garantir_colunas_exact_idempotent
    (dados : DataFrame) (colunas_esperadas : list str) :
  wf dados -> NoDup colunas_esperadas ->
  exists out,
    _garantir_colunas dados colunas_esperadas = Ok out /\
    columns out = colunas_esperadas /\
    index_len out = index_len dados /\
    (forall c, In c colunas_esperadas ->
       getitem c out =
       Ok (match assoc c (cols dados) with
           | Some v => v
           | None => repeat (VStr []) (index_len dados)
           end)) /\
    _garantir_colunas out colunas_esperadas = Ok out.
Proof.
  intros Hwf Hnd. set (cs := colunas_esperadas) in *.
  destruct (completar_com_spec (fun _ => VStr []) cs dados Hwf) as [W [I A]].
  fold adicionar in W, I, A.
  set (r := fold_left adicionar cs dados) in *.
  assert (Hall : forall c, In c cs -> In c (columns r)).
  { intros c Hc. destruct (assoc c (cols r)) eqn:E.
    - apply assoc_Some_In in E. now apply (in_map fst) in E.
    - rewrite A in E. apply mem_In in Hc. rewrite Hc in E.
      destruct (assoc c (cols dados)); discriminate. }
  assert (Hf : filter (fun col => has_col col r) cs = cs).
  { apply forallb_filter_id, forallb_forall.
    intros c Hc; now apply has_col_In, Hall. }
  set (out := mkDF (index_len r) (List.map (fun c => (c, column_or_nil c r)) cs)).
  assert (Hout : _garantir_colunas dados cs = Ok out).
  { rewrite _garantir_colunas_unfold. fold r. rewrite Hf.
    apply select_present; [apply W | exact Hall]. }
  exists out; split; [exact Hout|].
  assert (Hcols : columns out = cs) by apply names_map_label.
  split; [exact Hcols|]. split; [exact I|]. split.
  - intros c Hc. unfold getitem, out; simpl.
    rewrite assoc_map_label by exact Hc. unfold column_or_nil.
    rewrite A. apply mem_In in Hc. rewrite Hc.
    now destruct (assoc c (cols dados)).
  - rewrite _garantir_colunas_unfold.
    assert (Hid : fold_left adicionar cs out = out).
    { apply completar_com_id. intros c Hc. now rewrite Hcols. }
    rewrite Hid.
    assert (Hf' : filter (fun col => has_col col out) cs = cs).
    { apply forallb_filter_id, forallb_forall.
      intros c Hc; apply has_col_In. now rewrite Hcols. }
    rewrite Hf'. rewrite select_present.
    + f_equal. unfold out at 3. simpl index_len. f_equal.
      apply map_ext_in. intros c Hc. f_equal.
      unfold column_or_nil at 1. unfold out; simpl.
      now rewrite assoc_map_label.
    + now rewrite Hcols.
    + intros c Hc; now rewrite Hcols.
Qed.

Definition tabela_exemplo : DataFrame :=
  mkDF 2 [(py "Valor", [VInt 10; VInt 20]);
          (py "Extra", [VStr (py "x"); VStr (py "y")]);
          (py "Data", [VStr (py "01/01/2024"); VStr (py "02/01/2024")])].

Lemma tabela_exemplo_wf : wf tabela_exemplo.
Proof.
  split; simpl.
  - repeat constructor; simpl; intuition discriminate.
  - repeat constructor.
Defined.

Lemma garantir_colunas_exact_idempotent_witness :
  exists out,
    _garantir_colunas tabela_exemplo [py "Data"; py "Valor"; py "Descrição"]
      = Ok out /\
    columns out = [py "Data"; py "Valor"; py "Descrição"] /\
    index_len out = index_len tabela_exemplo /\
    (forall c, In c [py "Data"; py "Valor"; py "Descrição"] ->
       getitem c out =
       Ok (match assoc c (cols tabela_exemplo) with
           | Some v => v
           | None => repeat (VStr []) (index_len tabela_exemplo)
           end)) /\
    _garantir_colunas out [py "Data"; py "Valor"; py "Descrição"] = Ok out.
Proof.
  apply (garantir_colunas_exact_idempotent tabela_exemplo
           [py "Data"; py "Valor"; py "Descrição"]).
  - exact tabela_exemplo_wf.
  - repeat constructor; simpl; intuition discriminate.
Defined.

(** Outside the hypotheses: a required list that repeats a label repeats
    the column, and a second application repeats it again. *)
Example garantir_colunas_rotulo_repetido :
  exists once twice,
    _garantir_colunas (mkDF 1 [(py "a", [VInt 1])]) [py "a"; py "a"] = Ok once /\
    _garantir_colunas once [py "a"; py "a"] = Ok twice /\
    columns once = [py "a"; py "a"] /\
    columns twice = [py "a"; py "a"; py "a"; py "a"].
Proof. do 2 eexists; repeat split; vm_compute; reflexivity. Qed.

End GeradorExcelFacts.

(** ** [_aplicar_mapeamento_categorias] *)

Module MapeamentoFacts.

Import ProcessadorDados.

(** What the loop over the mapping does to one cell: the entries are tried
    one after the other on the current content of the cell. *)
Definition substituir (mapeamento : list (str * str)) (v : value) : value :=
  fold_left
    (fun atual p => if value_eqb atual (VStr (fst p)) then VStr (snd p) else atual)
    mapeamento v.

(** The column the mapping is applied to, when there is one. *)
Definition coluna_categoria (df : DataFrame) : option str :=
  hd_error (filter e_coluna_categoria (columns df)).

Lemma value_eqb_str (v : value) (k : str) :
  value_eqb v (VStr k) = true <-> v = VStr k.
Proof.
  destruct v; simpl; try (split; [discriminate | intros [=]]).
  rewrite eqb_eq; split; [now intros -> | now intros [= ->]].
Qed.

Lemma substituir_not_key (mapeamento : list (str * str)) (v : value) :
  (forall k, In k (List.map fst mapeamento) -> v <> VStr k) ->
  substituir mapeamento v = v.
Proof.
  induction mapeamento as [|[a n] m IH]; intros H; [reflexivity|].
  unfold substituir; simpl.
  destruct (value_eqb v (VStr a)) eqn:E.
  - apply value_eqb_str in E. exfalso; apply (H a); [now left | exact E].
  - apply IH; intros k Hk; apply H; now right.
Qed.

Lemma combine_mask (f : value -> bool) (x : value) (v : list value) :
  List.map (fun mx : bool * value => if fst mx then x else snd mx)
           (combine (List.map f v) v)
  = List.map (fun y => if f y then x else y) v.
Proof. induction v as [|y v IH]; simpl; [reflexivity | now rewrite IH]. Qed.

Lemma loc_set_column (f : value -> bool) (x : value) (c : str)
    (v : list value) (df : DataFrame) :
  NoDup (columns df) -> getitem c df = Ok v ->
  loc_set (List.map f v) c x df =
  mkDF (index_len df)
       (List.map
          (fun p => if PyStr.eqb (fst p) c
                    then (fst p, List.map (fun y => if f y then x else y) (snd p))
                    else p)
          (cols df)).
Proof.
  intros Hnd Hg; unfold loc_set; f_equal.
  apply map_ext_in; intros [n w] Hp; simpl.
  destruct (PyStr.eqb n c) eqn:E; [|reflexivity].
  apply eqb_eq in E; subst.
  apply (assoc_NoDup_In _ _ _ Hnd) in Hp.
  unfold getitem in Hg; rewrite Hp in Hg; injection Hg as <-.
  now rewrite combine_mask.
Qed.

Lemma aplicar_mapeamento_closed (c : str) (mapeamento : list (str * str))
    (df : DataFrame) :
  NoDup (columns df) -> In c (columns df) ->
  aplicar_mapeamento c mapeamento df =
  Ok (mkDF (index_len df)
        (List.map
           (fun p => if PyStr.eqb (fst p) c
                     then (fst p, List.map (substituir mapeamento) (snd p))
                     else p)
           (cols df))).
Proof.
  revert df; induction mapeamento as [|[a n] m IH]; intros df Hnd Hin.
  - simpl. destruct df as [k l]; simpl. do 2 f_equal.
    rewrite <- (map_id l) at 1. apply map_ext; intros [x w]; simpl.
    destruct (PyStr.eqb x c); [|reflexivity].
    f_equal. now rewrite map_id.
  - simpl. destruct (getitem_present c df) as [v Hv];
      [now apply has_col_In|].
    rewrite Hv; simpl.
    rewrite (loc_set_column _ _ _ _ _ Hnd Hv).
    rewrite IH; simpl.
    + do 2 f_equal. rewrite map_map. apply map_ext; intros [x w]; simpl.
      destruct (PyStr.eqb x c) eqn:E; simpl; rewrite ?E; [|reflexivity].
      f_equal. rewrite map_map. reflexivity.
    + unfold columns; simpl. rewrite map_map.
      erewrite map_ext; [exact Hnd|].
      intros [x w]; simpl; now destruct (PyStr.eqb x c).
    + unfold columns; simpl. rewrite map_map.
      erewrite map_ext; [exact Hin|].
      intros [x w]; simpl; now destruct (PyStr.eqb x c).
Qed.

Lemma assoc_map_column (g : list value -> list value) (c c' : str)
    (l : list (str * list value)) :
  assoc c' (List.map (fun p => if PyStr.eqb (fst p) c
                               then (fst p, g (snd p)) else p) l)
  = if PyStr.eqb c c' then option_map g (assoc c' l) else assoc c' l.
Proof.
  induction l as [|[n w] l IH]; simpl.
  - now destruct (PyStr.eqb c c').
  - destruct (PyStr.eqb n c) eqn:E; simpl.
    + apply eqb_eq in E; subst.
      destruct (PyStr.eqb c c') eqn:E'; [reflexivity | exact IH].
    + destruct (PyStr.eqb n c') eqn:E'; [|exact IH].
      apply eqb_eq in E'; subst. rewrite (eqb_sym c c'), E. reflexivity.
Qed.

(** The frame [_aplicar_mapeamento_categorias] returns, in one piece. *)
Lemma _aplicar_mapeamento_categorias_closed (dados : DataFrame)
    (mapeamento : list (str * str)) :
  wf dados ->
  exists out,
    _aplicar_mapeamento_categorias dados mapeamento = Ok out /\
    index_len out = index_len dados /\
    columns out = columns dados /\
    forall c i,
      cell c i out =
      if match coluna_categoria dados with
         | Some cat => PyStr.eqb cat c
         | None => false
         end
      then option_map (substituir mapeamento) (cell c i dados)
      else cell c i dados.
Proof.
  intros [Hnd _]. unfold _aplicar_mapeamento_categorias, coluna_categoria.
  destruct (filter e_coluna_categoria (columns dados)) as [|cat rest] eqn:F.
  - exists dados; simpl; auto.
  - assert (Hin : In cat (columns dados)).
    { assert (H : In cat (filter e_coluna_categoria (columns dados)))
        by (rewrite F; now left).
      now apply filter_In in H. }
    rewrite (aplicar_mapeamento_closed _ _ _ Hnd Hin).
    eexists; split; [reflexivity|]. simpl. split; [reflexivity|]. split.
    + unfold columns; simpl. rewrite map_map. apply map_ext.
      intros [x w]; simpl; now destruct (PyStr.eqb x cat).
    + intros c i. unfold cell; simpl. rewrite assoc_map_column.
      destruct (PyStr.eqb cat c); [|reflexivity].
      destruct (assoc c (cols dados)); simpl; [|reflexivity].
      apply nth_error_map.
Qed.

(** C4.  For every transactions table (distinct column labels) and every
    mapping, [_aplicar_mapeamento_categorias] returns a table with the same
    number of rows and the same columns in which every cell outside the
    category column it found is the cell of the input at the same row, and
    a cell of the category column differs from the input cell of its row
    only if that input cell is a key of the mapping. *)
Theorem aplicar_mapeamento_frame (dados : DataFrame)
    (mapeamento : list (str * str)) :
  wf dados ->
  exists out,
    _aplicar_mapeamento_categorias dados mapeamento = Ok out /\
    index_len out = index_len dados /\
    columns out = columns dados /\
    (forall c i, coluna_categoria dados <> Some c ->
       cell c i out = cell c i dados) /\
    (forall c i, (cell c i out = None <-> cell c i dados = None)) /\
    (forall c i v v',
       cell c i dados = Some v -> cell c i out = Some v' -> v' <> v ->
       coluna_categoria dados = Some c /\
       exists k, v = VStr k /\ In k (List.map fst mapeamento)).
Proof.
  intros Hwf.
  destruct (_aplicar_mapeamento_categorias_closed dados mapeamento Hwf)
    as [out [Ho [Hi [Hc Hcell]]]].
  exists out. repeat (split; [assumption|]).
  assert (Hother : forall c i, coluna_categoria dados <> Some c ->
                               cell c i out = cell c i dados).
  { intros c i Hne. rewrite Hcell.
    destruct (coluna_categoria dados) as [cat|]; [|reflexivity].
    destruct (PyStr.eqb cat c) eqn:E; [|reflexivity].
    apply eqb_eq in E; subst; congruence. }
  split; [exact Hother|]. split.
  - intros c i. rewrite Hcell.
    destruct (match coluna_categoria dados with
              | Some cat => PyStr.eqb cat c | None => false end);
      [|tauto].
    destruct (cell c i dados); simpl; split; congruence.
  - intros c i v v' Hv Hv' Hne.
    destruct (coluna_categoria dados) as [cat|] eqn:Hcat.
    + destruct (PyStr.eqb cat c) eqn:E.
      * apply eqb_eq in E; subst cat. split; [reflexivity|].
        rewrite Hcell, eqb_refl, Hv in Hv'. simpl in Hv'.
        injection Hv' as <-.
        destruct v as [| | |k| | |];
          try (exfalso; apply Hne; apply substituir_not_key;
               intros; discriminate).
        exists k; split; [reflexivity|].
        destruct (in_dec (list_eq_dec N.eq_dec) k (List.map fst mapeamento))
          as [Hin|Hnin]; [exact Hin|].
        exfalso; apply Hne; apply substituir_not_key.
        intros k' Hk' [= ->]; contradiction.
      * exfalso. apply eqb_neq in E.
        rewrite Hother, Hv in Hv' by congruence. congruence.
    + exfalso. rewrite Hother, Hv in Hv' by congruence. congruence.
Qed.

Definition lancamentos_exemplo : DataFrame :=
  mkDF 3 [(py "Data", [VStr (py "01/01/2024"); VStr (py "02/01/2024"); VNaN]);
          (py "Categoria", [VStr (py "A"); VStr (py "B"); VStr (py "D")]);
          (py "Valor", [VInt 10; VInt 20; VInt 30])].

Lemma lancamentos_exemplo_wf : wf lancamentos_exemplo.
Proof.
  split; simpl.
  - repeat constructor; simpl; intuition discriminate.
  - repeat constructor.
Defined.

Lemma aplicar_mapeamento_frame_witness :
  exists out,
    _aplicar_mapeamento_categorias lancamentos_exemplo [(py "A", py "X")]
      = Ok out /\
    index_len out = index_len lancamentos_exemplo /\
    columns out = columns lancamentos_exemplo /\
    (forall c i, coluna_categoria lancamentos_exemplo <> Some c ->
       cell c i out = cell c i lancamentos_exemplo) /\
    (forall c i, (cell c i out = None <->
                  cell c i lancamentos_exemplo = None)) /\
    (forall c i v v',
       cell c i lancamentos_exemplo = Some v -> cell c i out = Some v' ->
       v' <> v ->
       coluna_categoria lancamentos_exemplo = Some c /\
       exists k, v = VStr k /\ In k (List.map fst [(py "A", py "X")])).
Proof.
  apply (aplicar_mapeamento_frame lancamentos_exemplo [(py "A", py "X")]).
  exact lancamentos_exemplo_wf.
Defined.

(** C10.  The entries of the mapping are applied one after the other, in
    the order of the dictionary, to the current content of the table: every
    cell of the category column ends as the fold of the entries over what
    the cell held.  So with the mapping {"A": "B", "B": "C"} a row whose
    category is "A" ends with "C", which is not mapping["A"] = "B". *)
Theorem aplicar_mapeamento_encadeado (dados : DataFrame) (c : str) :
  wf dados -> coluna_categoria dados = Some c ->
  (forall mapeamento, exists out,
     _aplicar_mapeamento_categorias dados mapeamento = Ok out /\
     forall i, cell c i out =
               option_map (substituir mapeamento) (cell c i dados)) /\
  (exists out,
     _aplicar_mapeamento_categorias dados [(py "A", py "B"); (py "B", py "C")]
       = Ok out /\
     forall i, cell c i dados = Some (VStr (py "A")) ->
               cell c i out = Some (VStr (py "C")) /\
               cell c i out <> Some (VStr (py "B"))).
Proof.
  intros Hwf Hcat.
  assert (Hall : forall mapeamento, exists out,
     _aplicar_mapeamento_categorias dados mapeamento = Ok out /\
     forall i, cell c i out =
               option_map (substituir mapeamento) (cell c i dados)).
  { intros m.
    destruct (_aplicar_mapeamento_categorias_closed dados m Hwf)
      as [out [Ho [_ [_ Hcell]]]].
    exists out; split; [exact Ho|]. intros i.
    now rewrite Hcell, Hcat, eqb_refl. }
  split; [exact Hall|].
  destruct (Hall [(py "A", py "B"); (py "B", py "C")]) as [out [Ho Hcell]].
  exists out; split; [exact Ho|]. intros i Hi.
  rewrite Hcell, Hi. split; [reflexivity | discriminate].
Qed.

Lemma aplicar_mapeamento_encadeado_witness :
  (forall mapeamento, exists out,
     _aplicar_mapeamento_categorias lancamentos_exemplo mapeamento = Ok out /\
     forall i, cell (py "Categoria") i out =
               option_map (substituir mapeamento)
                          (cell (py "Categoria") i lancamentos_exemplo)) /\
  (exists out,
     _aplicar_mapeamento_categorias lancamentos_exemplo
       [(py "A", py "B"); (py "B", py "C")] = Ok out /\
     forall i, cell (py "Categoria") i lancamentos_exemplo
               = Some (VStr (py "A")) ->
               cell (py "Categoria") i out = Some (VStr (py "C")) /\
               cell (py "Categoria") i out <> Some (VStr (py "B"))).
Proof.
  apply (aplicar_mapeamento_encadeado lancamentos_exemplo (py "Categoria")).
  - exact lancamentos_exemplo_wf.
  - reflexivity.
Defined.

End MapeamentoFacts.

(** ** [_processar_transferencias] *)

Module TransferenciasFacts.

Import ProcessadorDados.

(** The default the loop over [colunas_obrigatorias] gives a column. *)
Definition padrao_obrigatoria (hoje : Z) (coluna : str) : value :=
  if PyStr.eqb coluna (py "Data") then VStr (Date.strftime_dmy hoje)
  else if PyStr.eqb coluna (py "Valor") then VFloat 0
  else VStr [].

Lemma fold_left_pointwise {A B : Type} (f g : A -> B -> A) (l : list B) (a : A) :
  (forall x y, f x y = g x y) -> fold_left f l a = fold_left g l a.
Proof.
  intros H; revert a; induction l as [|y l IH]; intros a; simpl;
    [reflexivity | now rewrite H, IH].
Qed.

Lemma preencher_obrigatorias_fold (hoje : Z) (t : DataFrame) :
  preencher_obrigatorias hoje t =
  fold_left (adicionar_com (padrao_obrigatoria hoje)) colunas_obrigatorias t.
Proof.
  unfold preencher_obrigatorias. apply fold_left_pointwise.
  intros df c; unfold adicionar_com, padrao_obrigatoria.
  destruct (has_col c df); [reflexivity|].
  destruct (PyStr.eqb c (py "Data")); [reflexivity|].
  now destruct (PyStr.eqb c (py "Valor")).
Qed.

(** The end of [_processar_transferencias]: the required columns, and only
    they, each with the cells it had or with its default. *)
Lemma finalizar_transferencias (hoje : Z) (t : DataFrame) :
  wf t ->
  exists out,
    select colunas_obrigatorias (preencher_obrigatorias hoje t) = Ok out /\
    index_len out = index_len t /\
    columns out = colunas_obrigatorias /\
    forall c, In c colunas_obrigatorias ->
      getitem c out =
      Ok (match assoc c (cols t) with
          | Some v => v
          | None => repeat (padrao_obrigatoria hoje c) (index_len t)
          end).
Proof.
  intros Hwf. rewrite preencher_obrigatorias_fold.
  destruct (completar_com_spec (padrao_obrigatoria hoje) colunas_obrigatorias
              t Hwf) as [W [I A]].
  set (r := fold_left (adicionar_com (padrao_obrigatoria hoje))
                      colunas_obrigatorias t) in *.
  assert (Hall : forall c, In c colunas_obrigatorias -> In c (columns r)).
  { intros c Hc. destruct (assoc c (cols r)) eqn:E.
    - apply assoc_Some_In in E. apply (in_map fst) in E. exact E.
    - rewrite A in E. apply mem_In in Hc. rewrite Hc in E.
      destruct (assoc c (cols t)); inversion E. }
  rewrite (select_present colunas_obrigatorias r (proj1 W) Hall).
  eexists; split; [reflexivity|].
  split; [exact I|].
  split; [apply (names_map_label (fun c => column_or_nil c r))|].
  intros c Hc. unfold getitem; cbn [cols].
  rewrite (assoc_map_label (fun c => column_or_nil c r)) by exact Hc.
  unfold column_or_nil.
  rewrite A. apply mem_In in Hc. rewrite Hc.
  now destruct (assoc c (cols t)).
Qed.

Lemma separar_movimentacao_blank (m : value) :
  isna m = true \/ contains (py " para ") (py_str m) = false ->
  separar_movimentacao m = (VStr [], VStr []).
Proof.
  unfold separar_movimentacao; intros [H|H]; rewrite H; simpl;
    [reflexivity | now rewrite orb_true_r].
Qed.

Lemma separar_movimentacao_para (origem destino : str) :
  no_occurrence_before (py " para ") (origem ++ py " para " ++ destino)
                       (List.length origem) ->
  separar_movimentacao (VStr (origem ++ py " para " ++ destino)) =
  (VStr (strip origem), VStr (strip destino)).
Proof.
  intros H; unfold separar_movimentacao. cbn [isna py_str].
  rewrite contains_app. cbn [orb negb].
  now rewrite (split1_first _ _ _ H).
Qed.

(** C8.  For every non-empty transfers table (distinct column labels) with
    a column [Movimentação], the output has, row by row: both account
    columns blank when the movement is missing or holds no " para "; and
    [Conta Débito] = the trimmed text before, [Conta Crédito] = the trimmed
    text after the first " para " when the movement is a text that holds
    one.  So "Banco A para Banco B" gives "Banco A" and "Banco B".  An
    empty table gives the empty table with the five columns. *)
Theorem transferencias_movimentacao_split (hoje : Z) (dados : DataFrame)
    (movs : list value) :
  wf dados -> getitem (py "Movimentação") dados = Ok movs ->
  exists out,
    _processar_transferencias hoje dados = Ok out /\
    columns out = colunas_obrigatorias /\
    (empty dados = true -> index_len out = 0%nat) /\
    (empty dados = false ->
     index_len out = index_len dados /\
     forall i m, nth_error movs i = Some m ->
       (isna m = true \/ contains (py " para ") (py_str m) = false ->
        cell (py "Conta Débito") i out = Some (VStr []) /\
        cell (py "Conta Crédito") i out = Some (VStr [])) /\
       (forall origem destino,
          m = VStr (origem ++ py " para " ++ destino) ->
          no_occurrence_before (py " para ")
            (origem ++ py " para " ++ destino) (List.length origem) ->
          cell (py "Conta Débito") i out = Some (VStr (strip origem)) /\
          cell (py "Conta Crédito") i out = Some (VStr (strip destino))) /\
       (m = VStr (py "Banco A para Banco B") ->
        cell (py "Conta Débito") i out = Some (VStr (py "Banco A")) /\
        cell (py "Conta Crédito") i out = Some (VStr (py "Banco B")))).
Proof.
  intros Hwf Hm. unfold _processar_transferencias.
  destruct (empty dados) eqn:He.
  - eexists; split; [reflexivity|]. split; [reflexivity|].
    split; [reflexivity | discriminate].
  - rewrite (getitem_has_col _ _ _ Hm), Hm. simpl bind.
    set (pares := List.map separar_movimentacao movs).
    assert (Hlen : List.length movs = index_len dados)
      by (apply (getitem_length _ _ _ Hwf Hm)).
    rewrite setitem_list_wf by (unfold pares; now rewrite !length_map).
    simpl bind.
    rewrite setitem_list_wf by (unfold pares; now rewrite !length_map).
    simpl bind. simpl index_len. simpl cols.
    set (t1 := mkDF (index_len dados)
                 (put (py "Conta Débito") (List.map fst pares) (cols dados))).
    assert (W1 : wf t1)
      by (apply wf_put; [exact Hwf | unfold pares; now rewrite !length_map]).
    set (t2 := mkDF (index_len dados)
                 (put (py "Conta Crédito") (List.map snd pares) (cols t1))).
    assert (W2 : wf t2)
      by (apply (wf_put _ _ t1);
          [exact W1 | unfold pares; now rewrite !length_map]).
    change (mkDF (index_len dados)
              (put (py "Conta Crédito") (List.map snd pares)
                 (put (py "Conta Débito") (List.map fst pares) (cols dados))))
      with t2.
    assert (W3 : wf (drop (py "Movimentação") t2)) by now apply drop_wf.
    destruct (finalizar_transferencias hoje _ W3) as [out [Ho [Hi [Hc Hg]]]].
    exists out. split; [exact Ho|]. split; [exact Hc|].
    split; [discriminate|]. intros _. split; [exact Hi|].
    assert (Hd : getitem (py "Conta Débito") out = Ok (List.map fst pares)).
    { rewrite Hg by (simpl; tauto). simpl cols. rewrite assoc_drop.
      replace (PyStr.eqb (py "Movimentação") (py "Conta Débito")) with false
        by reflexivity.
      unfold t2; simpl cols. rewrite assoc_put_other by str_neq.
      unfold t1; simpl cols. now rewrite assoc_put_same. }
    assert (Hcr : getitem (py "Conta Crédito") out = Ok (List.map snd pares)).
    { rewrite Hg by (simpl; tauto). simpl cols. rewrite assoc_drop.
      replace (PyStr.eqb (py "Movimentação") (py "Conta Crédito")) with false
        by reflexivity.
      unfold t2; simpl cols. now rewrite assoc_put_same. }
    intros i m Hi_m.
    assert (Hcd : cell (py "Conta Débito") i out
                  = Some (fst (separar_movimentacao m))).
    { rewrite (getitem_cell _ _ i _ Hd). unfold pares.
      rewrite map_map, nth_error_map, Hi_m. reflexivity. }
    assert (Hcc : cell (py "Conta Crédito") i out
                  = Some (snd (separar_movimentacao m))).
    { rewrite (getitem_cell _ _ i _ Hcr). unfold pares.
      rewrite map_map, nth_error_map, Hi_m. reflexivity. }
    rewrite Hcd, Hcc. split; [|split].
    + intros H; now rewrite (separar_movimentacao_blank m H).
    + intros origem destino -> H.
      now rewrite (separar_movimentacao_para _ _ H).
    + intros ->. split; reflexivity.
Qed.

Definition transferencias_exemplo : DataFrame :=
  mkDF 3 [(py "Movimentação",
           [VStr (py "Banco A para Banco B"); VStr (py "Saque"); VNaN]);
          (py "Valor", [VInt 500; VInt 1000; VInt 750])].

Lemma transferencias_exemplo_wf : wf transferencias_exemplo.
Proof.
  split; simpl.
  - repeat constructor; simpl; intuition discriminate.
  - repeat constructor.
Defined.

Lemma transferencias_movimentacao_split_witness :
  exists out,
    _processar_transferencias 19723 transferencias_exemplo = Ok out /\
    cell (py "Conta Débito") 0 out = Some (VStr (py "Banco A")) /\
    cell (py "Conta Crédito") 0 out = Some (VStr (py "Banco B")) /\
    cell (py "Conta Débito") 1 out = Some (VStr []) /\
    cell (py "Conta Crédito") 2 out = Some (VStr []).
Proof.
  destruct (transferencias_movimentacao_split 19723 transferencias_exemplo
              [VStr (py "Banco A para Banco B"); VStr (py "Saque"); VNaN]
              transferencias_exemplo_wf eq_refl)
    as [out [Ho [_ [_ H]]]].
  destruct (H eq_refl) as [_ Hrows].
  exists out. split; [exact Ho|].
  destruct (Hrows 0%nat _ eq_refl) as [_ [_ H0]].
  destruct (Hrows 1%nat _ eq_refl) as [H1 _].
  destruct (Hrows 2%nat _ eq_refl) as [H2 _].
  repeat split.
  - apply (H0 eq_refl).
  - apply (H0 eq_refl).
  - apply H1; right; reflexivity.
  - apply H2; left; reflexivity.
Defined.

End TransferenciasFacts.

(** ** [_processar_categorias] *)

Module CategoriasFacts.

Import ProcessadorDados.

(** One turn of the loop that collects [colunas_finais]. *)
Definition juntar_coluna (acc : list str) (col : str) : list str :=
  if negb (mem col acc)
     && mem (lower col) [py "tipo"; py "ativo"; py "descricao"]
  then acc ++ [col] else acc.

Lemma colunas_finais_shape (cs acc : list str) :
  exists extras,
    fold_left juntar_coluna cs acc = acc ++ extras /\
    forall c, In c extras -> In c cs.
Proof.
  revert acc; induction cs as [|x cs IH]; intros acc; simpl.
  - exists []; split; [now rewrite app_nil_r | tauto].
  - destruct (IH (juntar_coluna acc x)) as [extras [He Hin]].
    rewrite He. unfold juntar_coluna.
    destruct (negb (mem x acc) && mem (lower x) _).
    + exists (x :: extras); split.
      * now rewrite <- app_assoc.
      * intros c [->|Hc]; auto.
    + exists extras; split; auto.
Qed.

Lemma garantir_codigo_spec (cp : DataFrame) :
  wf cp ->
  exists cp1,
    garantir_codigo cp = Ok cp1 /\ wf cp1 /\
    index_len cp1 = index_len cp /\
    assoc (py "Codigo") (cols cp1) =
    Some (match assoc (py "Codigo") (cols cp) with
          | Some v => v
          | None =>
            match find (fun col => has_col col cp) colunas_possiveis_codigo with
            | Some alias => column_or_nil alias cp
            | None =>
              match assoc (py "Nome") (cols cp) with
              | Some nomes =>
                List.map (fun item => fst (separar_nome item)) nomes
              | None => range1 (index_len cp)
              end
            end
          end) /\
    assoc (py "Nome") (cols cp1) =
    match assoc (py "Codigo") (cols cp),
          find (fun col => has_col col cp) colunas_possiveis_codigo,
          assoc (py "Nome") (cols cp) with
    | None, None, Some nomes =>
      Some (List.map (fun item => snd (separar_nome item)) nomes)
    | _, _, o => o
    end.
Proof.
  intros Hwf. unfold garantir_codigo.
  destruct (has_col (py "Codigo") cp) eqn:Hc.
  - destruct (getitem_present _ _ Hc) as [v Hv]. unfold getitem in Hv.
    destruct (assoc (py "Codigo") (cols cp)) eqn:E; [|discriminate].
    exists cp; repeat split; try apply Hwf. now rewrite E.
  - pose proof Hc as Hn. apply mem_false, assoc_None in Hn. rewrite Hn.
    destruct (find (fun col => has_col col cp) colunas_possiveis_codigo)
      as [alias|] eqn:F.
    + apply find_some in F as [F1 F2].
      destruct (getitem_present _ _ F2) as [v Hv]. rewrite Hv; cbn [bind].
      pose proof (getitem_length _ _ _ Hwf Hv) as Hl.
      rewrite setitem_series_wf by exact Hl.
      eexists; split; [reflexivity|]. split; [now apply wf_put|].
      split; [reflexivity|]. cbn [cols]. split.
      * rewrite assoc_put_same. unfold column_or_nil. unfold getitem in Hv.
        destruct (assoc alias (cols cp)); [now injection Hv as -> | discriminate].
      * now rewrite assoc_put_other by str_neq.
    + destruct (has_col (py "Nome") cp) eqn:Hnome.
      * destruct (getitem_present _ _ Hnome) as [nomes Hv].
        rewrite Hv; cbn [bind].
        pose proof (getitem_length _ _ _ Hwf Hv) as Hl.
        rewrite setitem_list_wf by (now rewrite !length_map).
        cbn [bind].
        rewrite setitem_list_wf by (cbn [index_len]; now rewrite !length_map).
        cbn [index_len cols].
        assert (W1 : wf (mkDF (index_len cp)
                           (put (py "Codigo")
                                (List.map fst (List.map separar_nome nomes))
                                (cols cp))))
          by (apply wf_put; [exact Hwf | now rewrite !length_map]).
        eexists; split; [reflexivity|]. split.
        { apply (wf_put _ _ _ W1). cbn [index_len]. now rewrite !length_map. }
        split; [reflexivity|]. cbn [cols].
        unfold getitem in Hv.
        destruct (assoc (py "Nome") (cols cp)) as [n0|]; [|discriminate].
        injection Hv as ->. split.
        -- rewrite assoc_put_other by str_neq. rewrite assoc_put_same.
           now rewrite map_map.
        -- rewrite assoc_put_same. now rewrite map_map.
      * pose proof Hnome as Hn'. apply mem_false, assoc_None in Hn'.
        rewrite Hn'.
        assert (Hr : List.length (range1 (index_len cp)) = index_len cp)
          by (unfold range1; now rewrite length_map, length_seq).
        rewrite setitem_list_wf by exact Hr.
        eexists; split; [reflexivity|]. split; [now apply wf_put|].
        split; [reflexivity|]. cbn [cols]. split.
        -- now rewrite assoc_put_same.
        -- rewrite assoc_put_other by str_neq. exact Hn'.
Qed.

Lemma garantir_nome_spec (cp : DataFrame) :
  wf cp -> has_col (py "Codigo") cp = true ->
  exists cp2,
    garantir_nome cp = Ok cp2 /\ wf cp2 /\
    index_len cp2 = index_len cp /\
    has_col (py "Nome") cp2 = true /\
    assoc (py "Codigo") (cols cp2) = assoc (py "Codigo") (cols cp) /\
    (has_col (py "Nome") cp = true -> cp2 = cp).
Proof.
  intros Hwf Hcod. unfold garantir_nome.
  destruct (has_col (py "Nome") cp) eqn:Hn.
  - exists cp; repeat split; try apply Hwf; auto.
  - assert (Hput : forall v, List.length v = index_len cp ->
      exists cp2, Ok (setitem_series (py "Nome") v cp) = Ok cp2 /\ wf cp2 /\
        index_len cp2 = index_len cp /\ has_col (py "Nome") cp2 = true /\
        assoc (py "Codigo") (cols cp2) = assoc (py "Codigo") (cols cp) /\
        (false = true -> cp2 = cp)).
    { intros v Hl. rewrite setitem_series_wf by exact Hl.
      eexists; split; [reflexivity|]. split; [now apply wf_put|].
      split; [reflexivity|]. split; [|split; [|discriminate]].
      - apply has_col_In. unfold columns; cbn [cols].
        rewrite names_put. fold (columns cp). fold (has_col (py "Nome") cp).
        rewrite Hn. apply in_or_app; right; now left.
      - cbn [cols]. now rewrite assoc_put_other by str_neq. }
    destruct (find (fun col => contains (py "nome") (lower col)) (columns cp))
      as [nome_col|] eqn:F.
    + apply find_some in F as [F1 _]. apply has_col_In in F1.
      destruct (getitem_present _ _ F1) as [v Hv]. rewrite Hv; cbn [bind].
      apply Hput, (getitem_length _ _ _ Hwf Hv).
    + destruct (getitem_present _ _ Hcod) as [v Hv]. rewrite Hv; cbn [bind].
      apply Hput. rewrite length_map. apply (getitem_length _ _ _ Hwf Hv).
Qed.

Lemma separar_nome_sem_separador (item : value) :
  (forall s, item = VStr s -> contains (py " - ") s = false) ->
  fst (separar_nome item) = VStr [].
Proof.
  intros H; destruct item; try reflexivity. simpl.
  now rewrite (H s eq_refl).
Qed.

(** C6, as the code has it.  For every chart of accounts with distinct
    column labels, also one without rows, [_processar_categorias] returns
    a table with one row per input row whose first two columns are [Codigo]
    and [Nome].  The codes are the column [Codigo] when there is one; else
    the first of the columns [Código], [Code], [ID], [Código Pai] that
    exists; else, when there is a column [Nome], the trimmed text before
    the first " - " of each name (and the name becomes the trimmed text
    after it), which is the blank string for a name without " - "; else
    the integers 1..n. *)
Theorem processar_categorias_codigo_nome (dados_categorias : DataFrame) :
  wf dados_categorias ->
  exists out extras,
    _processar_categorias dados_categorias = Ok out /\
    index_len out = index_len dados_categorias /\
    columns out = py "Codigo" :: py "Nome" :: extras /\
    (forall v, getitem (py "Codigo") dados_categorias = Ok v ->
       getitem (py "Codigo") out = Ok v) /\
    (has_col (py "Codigo") dados_categorias = false ->
     (forall alias,
        find (fun col => has_col col dados_categorias)
             colunas_possiveis_codigo = Some alias ->
        getitem (py "Codigo") out = getitem alias dados_categorias) /\
     (find (fun col => has_col col dados_categorias)
           colunas_possiveis_codigo = None ->
      (forall nomes, getitem (py "Nome") dados_categorias = Ok nomes ->
         getitem (py "Codigo") out =
           Ok (List.map (fun item => fst (separar_nome item)) nomes) /\
         getitem (py "Nome") out =
           Ok (List.map (fun item => snd (separar_nome item)) nomes) /\
         forall i item, nth_error nomes i = Some item ->
           (forall s, item = VStr s -> contains (py " - ") s = false) ->
           cell (py "Codigo") i out = Some (VStr [])) /\
      (has_col (py "Nome") dados_categorias = false ->
         getitem (py "Codigo") out =
           Ok (range1 (index_len dados_categorias))))).
Proof.
  intros Hwf. unfold _processar_categorias.
  destruct (garantir_codigo_spec dados_categorias Hwf)
    as [cp1 [H1 [W1 [I1 [C1 N1]]]]].
  rewrite H1; cbn [bind].
  assert (Hc1 : has_col (py "Codigo") cp1 = true).
  { apply has_col_In. apply assoc_Some_In in C1.
    now apply (in_map fst) in C1. }
  destruct (garantir_nome_spec cp1 W1 Hc1) as [cp2 [H2 [W2 [I2 [HN [C2 K2]]]]]].
  rewrite H2; cbn [bind].
  change (fun acc col => if negb (mem col acc)
                            && mem (lower col) [py "tipo"; py "ativo"; py "descricao"]
                         then acc ++ [col] else acc) with juntar_coluna.
  destruct (colunas_finais_shape (columns cp2) [py "Codigo"; py "Nome"])
    as [extras [Hf Hin]].
  rewrite Hf.
  assert (Hc2 : has_col (py "Codigo") cp2 = true).
  { apply has_col_In. rewrite <- C2 in C1. apply assoc_Some_In in C1.
    now apply (in_map fst) in C1. }
  rewrite select_present; [| apply W2 |].
  2:{ intros c [<-|[<-|Hc]]; [now apply has_col_In | now apply has_col_In |].
      now apply Hin. }
  eexists; exists extras; split; [reflexivity|].
  split; [cbn [index_len]; congruence|].
  split; [apply (names_map_label (fun c => column_or_nil c cp2))|].
  assert (Hcod : getitem (py "Codigo")
                   (mkDF (index_len cp2)
                      (List.map (fun c => (c, column_or_nil c cp2))
                                ([py "Codigo"; py "Nome"] ++ extras)))
                 = Ok (column_or_nil (py "Codigo") cp2)).
  { unfold getitem; cbn [cols].
    now rewrite (assoc_map_label (fun c => column_or_nil c cp2))
      by (simpl; tauto). }
  assert (Hnom : getitem (py "Nome")
                   (mkDF (index_len cp2)
                      (List.map (fun c => (c, column_or_nil c cp2))
                                ([py "Codigo"; py "Nome"] ++ extras)))
                 = Ok (column_or_nil (py "Nome") cp2)).
  { unfold getitem; cbn [cols].
    now rewrite (assoc_map_label (fun c => column_or_nil c cp2))
      by (simpl; tauto). }
  assert (Ecod : column_or_nil (py "Codigo") cp2 =
                 match assoc (py "Codigo") (cols dados_categorias) with
                 | Some v => v
                 | None =>
                   match find (fun col => has_col col dados_categorias)
                              colunas_possiveis_codigo with
                   | Some alias => column_or_nil alias dados_categorias
                   | None =>
                     match assoc (py "Nome") (cols dados_categorias) with
                     | Some nomes =>
                       List.map (fun item => fst (separar_nome item)) nomes
                     | None => range1 (index_len dados_categorias)
                     end
                   end
                 end)
    by (unfold column_or_nil; now rewrite C2, C1).
  rewrite Hcod, Hnom, Ecod.
  split.
  - intros v Hv. unfold getitem in Hv.
    destruct (assoc (py "Codigo") (cols dados_categorias));
      [now injection Hv as -> | discriminate].
  - intros Hno. pose proof Hno as Hn. apply mem_false, assoc_None in Hn.
    rewrite Hn in *. split.
    + intros alias Ha. rewrite Ha.
      apply find_some in Ha as [_ Ha].
      destruct (getitem_present _ _ Ha) as [v Hv]. rewrite Hv.
      unfold column_or_nil. unfold getitem in Hv.
      destruct (assoc alias (cols dados_categorias));
        [now injection Hv as -> | discriminate].
    + intros Hnone. rewrite Hnone in *. split.
      * intros nomes Hv. unfold getitem in Hv.
        destruct (assoc (py "Nome") (cols dados_categorias)) as [n0|] eqn:E;
          [|discriminate].
        injection Hv as ->. split; [reflexivity|].
        assert (Hcp2 : cp2 = cp1).
        { apply K2. apply has_col_In. apply assoc_Some_In in N1.
          now apply (in_map fst) in N1. }
        split.
        -- unfold column_or_nil. now rewrite Hcp2, N1.
        -- intros i item Hi Hs. unfold cell; cbn [cols].
           rewrite (assoc_map_label (fun c => column_or_nil c cp2))
             by (simpl; tauto).
           rewrite Ecod.
           rewrite nth_error_map, Hi. simpl.
           now rewrite (separar_nome_sem_separador item Hs).
      * intros Hnn. apply mem_false, assoc_None in Hnn. now rewrite Hnn.
Qed.

Definition plano_exemplo : DataFrame :=
  mkDF 2 [(py "Nome", [VStr (py "2.2.1 - ÁGUA"); VStr (py "ÁGUA")])].

Lemma plano_exemplo_wf : wf plano_exemplo.
Proof.
  split; simpl.
  - repeat constructor; simpl; intuition discriminate.
  - repeat constructor.
Defined.

Lemma processar_categorias_codigo_nome_witness :
  exists out,
    _processar_categorias plano_exemplo = Ok out /\
    getitem (py "Codigo") out = Ok [VStr (py "2.2.1"); VStr []] /\
    getitem (py "Nome") out = Ok [VStr (py "ÁGUA"); VStr (py "ÁGUA")].
Proof.
  destruct (processar_categorias_codigo_nome plano_exemplo plano_exemplo_wf)
    as [out [extras [Ho [_ [_ [_ H]]]]]].
  destruct (H eq_refl) as [_ H'].
  destruct (H' eq_refl) as [Hn _].
  destruct (Hn _ eq_refl) as [Hc [Hnm _]].
  exists out. split; [exact Ho|]. split; [exact Hc | exact Hnm].
Defined.

(** C6 as stated fails: a chart whose only column is [Nome] and whose one
    name, "ÁGUA", has no code part gets the blank code. *)
Lemma processar_categorias_blank_code :
  exists out,
    _processar_categorias (mkDF 1 [(py "Nome", [VStr (py "ÁGUA")])]) = Ok out /\
    cell (py "Codigo") 0 out = Some (VStr []) /\
    ~ (forall i v, cell (py "Codigo") i out = Some v -> v <> VStr []).
Proof.
  eexists; split; [vm_compute; reflexivity|].
  split; [reflexivity|].
  intros H; apply (H 0%nat (VStr [])); reflexivity.
Qed.

End CategoriasFacts.

(** ** The day of the run in the transfers table *)

Module RelogioFacts.

Import ProcessadorDados TransferenciasFacts.

(** A transfers table with rows and without a column [Data] gets the day
    of the run in every row of [Data]. *)
Lemma transferencias_sem_data (hoje : Z) (dados : DataFrame) :
  wf dados -> empty dados = false -> has_col (py "Data") dados = false ->
  exists out,
    _processar_transferencias hoje dados = Ok out /\
    getitem (py "Data") out =
    Ok (repeat (VStr (Date.strftime_dmy hoje)) (index_len dados)).
Proof.
  intros Hwf He Hd. unfold _processar_transferencias. rewrite He.
  pose proof Hd as Hn. apply mem_false, assoc_None in Hn.
  assert (Hfin : forall t, wf t -> index_len t = index_len dados ->
            assoc (py "Data") (cols t) = None ->
            exists out,
              select colunas_obrigatorias (preencher_obrigatorias hoje t)
                = Ok out /\
              getitem (py "Data") out =
              Ok (repeat (VStr (Date.strftime_dmy hoje)) (index_len dados))).
  { intros t Wt It At.
    destruct (finalizar_transferencias hoje t Wt) as [out [Ho [_ [_ Hg]]]].
    exists out; split; [exact Ho|].
    rewrite Hg by (simpl; tauto). now rewrite At, It. }
  destruct (has_col (py "Movimentação") dados) eqn:Hm.
  - destruct (getitem_present _ _ Hm) as [movs Hv]. rewrite Hv; cbn [bind].
    pose proof (getitem_length _ _ _ Hwf Hv) as Hl.
    rewrite setitem_list_wf by (now rewrite !length_map). cbn [bind].
    rewrite setitem_list_wf by (cbn [index_len]; now rewrite !length_map).
    cbn [bind index_len cols].
    set (pares := List.map separar_movimentacao movs).
    assert (W1 : wf (mkDF (index_len dados)
                       (put (py "Conta Débito") (List.map fst pares)
                            (cols dados))))
      by (apply wf_put; [exact Hwf | unfold pares; now rewrite !length_map]).
    assert (W2 : wf (mkDF (index_len dados)
                       (put (py "Conta Crédito") (List.map snd pares)
                          (put (py "Conta Débito") (List.map fst pares)
                               (cols dados)))))
      by (apply (wf_put _ _ _ W1); cbn [index_len]; unfold pares;
          now rewrite !length_map).
    apply Hfin.
    + now apply drop_wf.
    + reflexivity.
    + cbn [drop cols]. rewrite assoc_drop.
      replace (PyStr.eqb (py "Movimentação") (py "Data")) with false
        by reflexivity.
      rewrite assoc_put_other by str_neq.
      now rewrite assoc_put_other by str_neq.
  - cbn [bind]. now apply Hfin.
Qed.

Lemma repeat_neq {A : Type} (x y : A) (n : nat) :
  x <> y -> n <> 0%nat -> repeat x n <> repeat y n.
Proof.
  intros Hxy Hn; destruct n; [contradiction|]. simpl; congruence.
Qed.

Lemma empty_false_rows (df : DataFrame) :
  empty df = false -> index_len df <> 0%nat.
Proof.
  unfold empty; intros H. apply orb_false_iff in H as [H _].
  now apply Nat.eqb_neq in H.
Qed.

(** C5 fails on the code.  Two runs of [processar_todos_os_dados] on the
    same tables and the same mapping agree on five of the six outputs, but
    when the transfers table has rows and no column [Data], the transfers
    output holds the day of each run, so two runs on days that print
    differently give different transfers tables. *)
Theorem processar_todos_depende_do_dia
    (hoje1 hoje2 : Z) (lanc transf cat : DataFrame) (mapeamento : list (str * str))
    (r1 r2 : DadosProcessados) :
  wf transf -> empty transf = false -> has_col (py "Data") transf = false ->
  processar_todos_os_dados hoje1 lanc transf cat mapeamento = Ok r1 ->
  processar_todos_os_dados hoje2 lanc transf cat mapeamento = Ok r2 ->
  Date.strftime_dmy hoje1 <> Date.strftime_dmy hoje2 ->
  categorias r1 = categorias r2 /\
  centros_custo r1 = centros_custo r2 /\
  contas_correntes r1 = contas_correntes r2 /\
  contatos r1 = contatos r2 /\
  lancamentos r1 = lancamentos r2 /\
  transferencias r1 <> transferencias r2.
Proof.
  intros Hwf He Hd H1 H2 Hne.
  destruct (transferencias_sem_data hoje1 transf Hwf He Hd) as [o1 [T1 D1]].
  destruct (transferencias_sem_data hoje2 transf Hwf He Hd) as [o2 [T2 D2]].
  unfold processar_todos_os_dados in H1, H2. rewrite T1 in H1. rewrite T2 in H2.
  destruct (match mapeamento with
            | [] => Ok lanc
            | _ :: _ => _aplicar_mapeamento_categorias lanc mapeamento
            end) as [lp|]; cbn [bind] in H1, H2; [|discriminate].
  destruct (_processar_categorias cat); cbn [bind] in H1, H2; [|discriminate].
  destruct (_processar_centros_custo lp); cbn [bind] in H1, H2; [|discriminate].
  destruct (_processar_contas_correntes lp); cbn [bind] in H1, H2;
    [|discriminate].
  destruct (_processar_contatos lp); cbn [bind] in H1, H2; [|discriminate].
  destruct (_processar_lancamentos lp); cbn [bind] in H1, H2; [|discriminate].
  injection H1 as <-. injection H2 as <-. cbn.
  repeat (split; [reflexivity|]).
  intros E. rewrite E in D1. rewrite D1 in D2. injection D2 as D2.
  revert D2. apply repeat_neq; [congruence | now apply empty_false_rows].
Qed.

Definition transferencias_sem_coluna_data : DataFrame :=
  mkDF 1 [(py "Movimentação", [VStr (py "Banco A para Banco B")]);
          (py "Valor", [VInt 500])].

Lemma transferencias_sem_coluna_data_wf : wf transferencias_sem_coluna_data.
Proof.
  split; simpl.
  - repeat constructor; simpl; intuition discriminate.
  - repeat constructor.
Defined.

Lemma processar_todos_depende_do_dia_witness :
  exists r1 r2,
    processar_todos_os_dados 19723 MapeamentoFacts.lancamentos_exemplo
      transferencias_sem_coluna_data CategoriasFacts.plano_exemplo
      [(py "A", py "X")] = Ok r1 /\
    processar_todos_os_dados 19724 MapeamentoFacts.lancamentos_exemplo
      transferencias_sem_coluna_data CategoriasFacts.plano_exemplo
      [(py "A", py "X")] = Ok r2 /\
    getitem (py "Data") (transferencias r1) = Ok [VStr (py "01/01/2024")] /\
    getitem (py "Data") (transferencias r2) = Ok [VStr (py "02/01/2024")] /\
    transferencias r1 <> transferencias r2.
Proof.
  assert (E1 : exists r1,
             processar_todos_os_dados 19723 MapeamentoFacts.lancamentos_exemplo
               transferencias_sem_coluna_data CategoriasFacts.plano_exemplo
               [(py "A", py "X")] = Ok r1 /\
             getitem (py "Data") (transferencias r1)
             = Ok [VStr (py "01/01/2024")])
    by (eexists; split; vm_compute; reflexivity).
  assert (E2 : exists r2,
             processar_todos_os_dados 19724 MapeamentoFacts.lancamentos_exemplo
               transferencias_sem_coluna_data CategoriasFacts.plano_exemplo
               [(py "A", py "X")] = Ok r2 /\
             getitem (py "Data") (transferencias r2)
             = Ok [VStr (py "02/01/2024")])
    by (eexists; split; vm_compute; reflexivity).
  destruct E1 as [r1 [H1 D1]]. destruct E2 as [r2 [H2 D2]].
  exists r1, r2. repeat (split; [assumption|]).
  assert (He : empty transferencias_sem_coluna_data = false)
    by (vm_compute; reflexivity).
  assert (Hd : has_col (py "Data") transferencias_sem_coluna_data = false)
    by (vm_compute; reflexivity).
  assert (Hn : Date.strftime_dmy 19723 <> Date.strftime_dmy 19724)
    by (vm_compute; discriminate).
  exact (proj2 (proj2 (proj2 (proj2 (proj2
           (processar_todos_depende_do_dia 19723 19724 _ _ _ _ r1 r2
              transferencias_sem_coluna_data_wf He Hd H1 H2 Hn)))))).
Defined.

End RelogioFacts.

(** ** Opening dates of the accounts *)

Module ContasFacts.

Import ProcessadorDados.

(** Transactions of one account, dated month/day/year. *)
Definition lancamentos_formato_americano : DataFrame :=
  mkDF 2 [(py "Conta", [VStr (py "Banco A"); VStr (py "Banco A")]);
          (py "Data", [VStr (py "12/26/2023"); VStr (py "12/25/2023")])].

(** C9 fails on the code.  The dates of [lancamentos_formato_americano] do
    not parse as day/month/year and do parse as month/day/year: the
    earliest is 25 December 2023, so the opening date the specification
    describes is 24/12/2023.  The function leaves [DataInicial] blank: the second and
    third calls of [pd.to_datetime] are given the column the first call
    already turned into NaT, and not the texts. *)
Theorem contas_correntes_formato_americano :
  (exists out,
     _processar_contas_correntes lancamentos_formato_americano = Ok out /\
     getitem (py "Nome") out = Ok [VStr (py "Banco A")] /\
     getitem (py "DataInicial") out = Ok [VStr []]) /\
  to_datetime_format Date.DMY [VStr (py "12/26/2023"); VStr (py "12/25/2023")]
    = [VNaT; VNaT] /\
  to_datetime_format Date.MDY [VStr (py "12/26/2023"); VStr (py "12/25/2023")]
    = [VTimestamp 19717; VTimestamp 19716] /\
  min_datetime [VTimestamp 19717; VTimestamp 19716] = VTimestamp 19716 /\
  Date.strftime_dmy (19716 - 1) = py "24/12/2023".
Proof.
  split; [eexists; split; [vm_compute; reflexivity | split; reflexivity]|].
  repeat split.
Qed.

(** With day/month/year texts the opening date is the earliest date of the
    account less one day. *)
Example contas_correntes_formato_brasileiro :
  exists out,
    _processar_contas_correntes
      (mkDF 3 [(py "Conta", [VStr (py "Banco A"); VStr (py "Banco B");
                             VStr (py "Banco A")]);
               (py "Data", [VStr (py "05/01/2024"); VStr (py "xx");
                            VStr (py "01/01/2024")])]) = Ok out /\
    getitem (py "Nome") out = Ok [VStr (py "Banco A"); VStr (py "Banco B")] /\
    getitem (py "DataInicial") out = Ok [VStr (py "31/12/2023"); VStr []].
Proof.
  eexists; split; [vm_compute; reflexivity | split; reflexivity].
Qed.

End ContasFacts.

(** ** Values, [unique], [sorted] *)

Module PyFacts.

Lemma value_eq_dec (a b : value) : {a = b} + {a <> b}.
Proof.
  decide equality; try apply Z.eq_dec. apply (list_eq_dec N.eq_dec).
Qed.

Lemma value_eqb_str_l (s : str) (y : value) :
  value_eqb (VStr s) y = true <-> y = VStr s.
Proof.
  destruct y; simpl; try (split; [discriminate | intros [=]]).
  rewrite eqb_eq; split; [now intros -> | now intros [= ->]].
Qed.

Lemma value_mem_str (s : str) (l : list value) :
  value_mem (VStr s) l = true <-> In (VStr s) l.
Proof.
  unfold value_mem; rewrite existsb_exists; split.
  - intros [y [Hy E]]; apply value_eqb_str_l in E; now subst.
  - intros H; exists (VStr s); split; [exact H|]. now apply value_eqb_str_l.
Qed.

Lemma value_mem_str_false (s : str) (l : list value) :
  value_mem (VStr s) l = false <-> ~ In (VStr s) l.
Proof.
  rewrite <- value_mem_str; destruct (value_mem (VStr s) l); split; congruence.
Qed.

Lemma is_str_inv (v : value) : is_str v = true -> exists s, v = VStr s.
Proof. destruct v; try discriminate; eauto. Qed.

(** On texts, [unique] keeps exactly the elements of the list, once each. *)
Lemma unique_acc_str (l seen : list value) :
  Forall (fun v => is_str v = true) l ->
  (forall x, In x (unique_acc seen l) <-> In x l /\ ~ In x seen) /\
  NoDup (unique_acc seen l).
Proof.
  revert seen; induction l as [|a l IH]; intros seen Hs; simpl.
  - split; [tauto | constructor].
  - inversion Hs as [|? ? Ha Hl]; subst.
    destruct (is_str_inv a Ha) as [s ->].
    destruct (value_mem (VStr s) seen) eqn:E.
    + apply value_mem_str in E. destruct (IH seen Hl) as [I N].
      split; [|exact N]. intros x; rewrite I. split.
      * tauto.
      * intros [[<-|H] Hn]; tauto.
    + apply value_mem_str_false in E.
      destruct (IH (VStr s :: seen) Hl) as [I N]. split.
      * intros x; simpl; rewrite I; simpl.
        destruct (value_eq_dec (VStr s) x) as [<-|Hne]; tauto.
      * constructor; [|exact N]. rewrite I; simpl; tauto.
Qed.

Lemma unique_str (l : list value) :
  Forall (fun v => is_str v = true) l ->
  (forall x, In x (unique l) <-> In x l) /\ NoDup (unique l).
Proof.
  intros H; destruct (unique_acc_str l [] H) as [I N].
  split; [|exact N]. intros x; rewrite (I x); simpl; tauto.
Qed.

Lemma dropna_In (x : value) (l : list value) :
  In x (dropna l) <-> In x l /\ isna x = false.
Proof.
  unfold dropna; rewrite filter_In, negb_true_iff; tauto.
Qed.

Lemma dropna_str (l : list value) :
  Forall (fun v => isna v = true \/ is_str v = true) l ->
  Forall (fun v => is_str v = true) (dropna l).
Proof.
  intros H; apply Forall_forall; intros x Hx.
  apply dropna_In in Hx as [Hx Hn]. rewrite Forall_forall in H.
  destruct (H x Hx); congruence.
Qed.

Lemma insert_sorted_perm (x : value) (l : list value) :
  Permutation (x :: l) (insert_sorted x l).
Proof.
  induction l as [|y l IH]; simpl; [reflexivity|].
  destruct (value_ltb x y); [reflexivity|].
  rewrite perm_swap. now apply perm_skip.
Qed.

Lemma sort_perm (l acc : list value) :
  Permutation (l ++ acc) (fold_left (fun acc x => insert_sorted x acc) l acc).
Proof.
  revert acc; induction l as [|x l IH]; intros acc; simpl; [reflexivity|].
  rewrite <- IH. rewrite <- insert_sorted_perm.
  apply Permutation_middle.
Qed.

(** A list of texts sorts without error, into a permutation of itself. *)
Lemma sorted_str (l : list value) :
  Forall (fun v => is_str v = true) l ->
  exists l', sorted l = Ok l' /\ Permutation l l'.
Proof.
  intros H. unfold sorted.
  destruct l as [|a [|b l]]; [eexists; split; reflexivity ..|].
  set (L := a :: b :: l) in *.
  assert (C : forallb (fun a => forallb (comparable a) L) L = true).
  { apply forallb_forall; intros x Hx. apply forallb_forall; intros y Hy.
    rewrite Forall_forall in H.
    destruct (is_str_inv x (H x Hx)) as [s ->].
    destruct (is_str_inv y (H y Hy)) as [t ->]. reflexivity. }
  rewrite C. eexists; split; [reflexivity|].
  rewrite <- sort_perm. now rewrite app_nil_r.
Qed.

End PyFacts.

Import PyFacts.

(** ** Distinct values under [==] *)

Module UniqueFacts.

Lemma value_eqb_refl (v : value) : isna v = false -> value_eqb v v = true.
Proof.
  destruct v; simpl; try discriminate; intros _;
    try apply Z.eqb_refl. apply eqb_refl.
Qed.

Lemma value_eqb_sym (a b : value) : value_eqb a b = value_eqb b a.
Proof.
  destruct a, b; simpl; try reflexivity; try apply Z.eqb_sym.
  apply eqb_sym.
Qed.

Lemma value_eqb_isna (a b : value) :
  value_eqb a b = true -> isna a = isna b.
Proof. destruct a, b; simpl; try discriminate; reflexivity. Qed.

Lemma value_eqb_trans (a b c : value) :
  value_eqb a b = true -> value_eqb b c = true -> value_eqb a c = true.
Proof.
  destruct a, b; simpl; try discriminate; destruct c; simpl;
    try discriminate; intros H1 H2; try reflexivity;
    try (apply Z.eqb_eq in H1, H2; apply Z.eqb_eq; congruence).
  apply eqb_eq in H1, H2. apply eqb_eq. congruence.
Qed.

(** Equal values are equal to the same values. *)
Lemma value_eqb_congr (x y z : value) :
  value_eqb x y = true -> value_eqb x z = value_eqb y z.
Proof.
  intros H. destruct (value_eqb y z) eqn:E.
  - exact (value_eqb_trans x y z H E).
  - destruct (value_eqb x z) eqn:F; [|reflexivity].
    rewrite value_eqb_sym in H.
    rewrite (value_eqb_trans y x z H F) in E. discriminate E.
Qed.

Lemma value_mem_eqb (x y : value) (l : list value) :
  value_eqb x y = true -> value_mem x l = value_mem y l.
Proof.
  intros H. unfold value_mem. induction l as [|z l IH]; simpl; [reflexivity|].
  now rewrite (value_eqb_congr x y z H), IH.
Qed.

Lemma comparable_sym (a b : value) : comparable a b = comparable b a.
Proof. destruct a, b; reflexivity. Qed.

Lemma comparable_refl (a : value) : isna a = false -> comparable a a = true.
Proof. destruct a; simpl; try discriminate; reflexivity. Qed.

(** Equal values can be ordered with the same values. *)
Lemma comparable_eqb (a b c : value) :
  value_eqb a b = true -> comparable a c = comparable b c.
Proof. destruct a, b; simpl; try discriminate; intros _; reflexivity. Qed.

Lemma unique_acc_In (l seen : list value) (x : value) :
  In x (unique_acc seen l) -> In x l.
Proof.
  revert seen; induction l as [|a l IH]; intros seen; simpl; [tauto|].
  destruct (value_mem a seen); [eauto|].
  intros [->|H]; [now left | right; eauto].
Qed.

Lemma unique_acc_fresh (l seen : list value) (y : value) :
  In y (unique_acc seen l) -> value_mem y seen = false.
Proof.
  revert seen; induction l as [|a l IH]; intros seen; simpl; [tauto|].
  destruct (value_mem a seen) eqn:E; [apply IH|].
  intros [<-|H]; [exact E|].
  apply IH in H. simpl in H. now apply orb_false_iff in H.
Qed.

(** No value is kept twice: a later element equals no earlier one. *)
Lemma unique_acc_distinct (l seen : list value) :
  ForallOrdPairs (fun a b => value_eqb b a = false) (unique_acc seen l).
Proof.
  revert seen; induction l as [|a l IH]; intros seen; simpl; [constructor|].
  destruct (value_mem a seen); [apply IH|].
  constructor; [|apply IH].
  apply Forall_forall; intros y Hy. apply unique_acc_fresh in Hy.
  simpl in Hy. now apply orb_false_iff in Hy.
Qed.

(** Two values kept that are equal under [==] are the same element. *)
Lemma unique_acc_eqb_eq (l seen : list value) (a b : value) :
  In a (unique_acc seen l) -> In b (unique_acc seen l) ->
  value_eqb a b = true -> a = b.
Proof.
  revert seen; induction l as [|x l IH]; intros seen; simpl; [tauto|].
  destruct (value_mem x seen); [apply IH|].
  intros [<-|Ha] [<-|Hb] E.
  - reflexivity.
  - apply unique_acc_fresh in Hb. simpl in Hb.
    apply orb_false_iff in Hb as [Hb _].
    rewrite value_eqb_sym in Hb. congruence.
  - apply unique_acc_fresh in Ha. simpl in Ha.
    apply orb_false_iff in Ha as [Ha _]. congruence.
  - exact (IH _ Ha Hb E).
Qed.

Lemma value_eqb_refl_r (a b : value) :
  value_eqb a b = true -> value_eqb b b = true.
Proof.
  intros H. apply (value_eqb_trans b a b); [|exact H].
  now rewrite value_eqb_sym.
Qed.

(** Every value present that equals itself is kept, up to [==]. *)
Lemma unique_acc_covers (l seen : list value) (x : value) :
  value_eqb x x = true -> In x l ->
  value_mem x seen = true \/
  exists y, In y (unique_acc seen l) /\ value_eqb x y = true.
Proof.
  intros Hn.
  revert seen; induction l as [|a l IH]; intros seen Hx; [contradiction|].
  simpl. destruct (value_mem a seen) eqn:E.
  - destruct Hx as [<-|Hx]; [now left | now apply IH].
  - destruct Hx as [<-|Hx].
    + right; exists a; split; [now left | exact Hn].
    + destruct (IH (a :: seen) Hx) as [H|[y [Hy He]]].
      * simpl in H. apply orb_true_iff in H as [H|H]; [|now left].
        right; exists a; split; [now left | exact H].
      * right; exists y; split; [now right | exact He].
Qed.

Lemma unique_covers (l : list value) (x : value) :
  value_eqb x x = true -> In x l ->
  exists y, In y (unique l) /\ value_eqb x y = true.
Proof.
  intros Hn Hx.
  destruct (unique_acc_covers l [] x Hn Hx) as [H|H];
    [discriminate | exact H].
Qed.

Lemma unique_acc_NoDup (l seen : list value) :
  Forall (fun v => isna v = false) l -> NoDup (unique_acc seen l).
Proof.
  revert seen; induction l as [|a l IH]; intros seen Hl; simpl;
    [constructor|].
  inversion Hl as [|? ? Ha Hl']; subst.
  destruct (value_mem a seen); [now apply IH|].
  constructor; [|now apply IH].
  intros Hin. apply unique_acc_fresh in Hin. simpl in Hin.
  apply orb_false_iff in Hin as [Hin _].
  rewrite (value_eqb_refl a Ha) in Hin. discriminate Hin.
Qed.

Lemma dropna_present (l : list value) :
  Forall (fun v => isna v = false) (dropna l).
Proof.
  apply Forall_forall; intros x Hx. now apply dropna_In in Hx.
Qed.

(** [col.dropna().unique()]: the values present, once each. *)
Lemma unique_dropna (l : list value) :
  NoDup (unique (dropna l)) /\
  (forall y, In y (unique (dropna l)) -> In y l /\ isna y = false) /\
  (forall x, In x l -> isna x = false ->
     exists y, In y (unique (dropna l)) /\ value_eqb x y = true).
Proof.
  split; [apply unique_acc_NoDup, dropna_present|]. split.
  - intros y Hy. apply unique_acc_In in Hy. now apply dropna_In in Hy.
  - intros x Hx Hn. apply unique_covers; [now apply value_eqb_refl|].
    apply dropna_In. now split.
Qed.

(** Missing values and repetitions do not change what a value equals. *)
Lemma value_mem_dropna (x : value) (l : list value) :
  isna x = false -> value_mem x (dropna l) = value_mem x l.
Proof.
  intros Hn.
  unfold value_mem, dropna. induction l as [|a l IH]; simpl; [reflexivity|].
  destruct (isna a) eqn:E; simpl; rewrite IH; [|reflexivity].
  destruct (value_eqb x a) eqn:F; [|reflexivity].
  apply value_eqb_isna in F. congruence.
Qed.

Lemma value_mem_true (x : value) (l : list value) :
  value_mem x l = true <-> exists y, In y l /\ value_eqb x y = true.
Proof. unfold value_mem. apply existsb_exists. Qed.

Lemma value_mem_unique (x : value) (l : list value) :
  value_mem x (unique l) = value_mem x l.
Proof.
  destruct (value_mem x l) eqn:E.
  - apply value_mem_true in E as [y [Hy E]].
    destruct (unique_covers l y (value_eqb_refl_r _ _ E) Hy) as [z [Hz F]].
    apply value_mem_true. exists z; split; [exact Hz|].
    exact (value_eqb_trans _ _ _ E F).
  - destruct (value_mem x (unique l)) eqn:F; [|reflexivity].
    apply value_mem_true in F as [y [Hy F]]. apply unique_acc_In in Hy.
    assert (T : value_mem x l = true)
      by (apply value_mem_true; exists y; now split).
    congruence.
Qed.

(** A list whose elements can be ordered two by two sorts without error,
    into a permutation of itself. *)
Lemma sorted_comparable (l : list value) :
  (forall a b, In a l -> In b l -> comparable a b = true) ->
  exists l', sorted l = Ok l' /\ Permutation l l'.
Proof.
  intros H. unfold sorted.
  destruct l as [|a [|b l]]; [eexists; split; reflexivity ..|].
  set (L := a :: b :: l) in *.
  assert (C : forallb (fun a => forallb (comparable a) L) L = true).
  { apply forallb_forall; intros x Hx. apply forallb_forall; intros y Hy.
    now apply H. }
  rewrite C. eexists; split; [reflexivity|].
  rewrite <- sort_perm. now rewrite app_nil_r.
Qed.

(** Two elements that cannot be ordered make [sorted] raise. *)
Lemma sorted_incomparable (l : list value) (a b : value) :
  In a l -> In b l -> comparable a a = true -> comparable a b = false ->
  sorted l = Raise TypeError.
Proof.
  intros Ha Hb Haa Hab. unfold sorted.
  destruct l as [|x [|y l]].
  - contradiction.
  - destruct Ha as [<-|[]], Hb as [<-|[]]. congruence.
  - set (L := x :: y :: l) in *.
    destruct (forallb (fun a => forallb (comparable a) L) L) eqn:C;
      [|reflexivity].
    rewrite forallb_forall in C. specialize (C a Ha).
    rewrite forallb_forall in C. specialize (C b Hb). congruence.
Qed.

(** [set(a.dropna().unique()) - set(b.dropna().unique())]: the values
    present in [a] that equal no value of [b], once each. *)
Lemma set_difference_dropna (a b : list value) :
  let dif := set_difference (unique (dropna a)) (unique (dropna b)) in
  NoDup dif /\
  (forall y, In y dif ->
     In y a /\ isna y = false /\ value_mem y b = false) /\
  (forall x, In x a -> isna x = false -> value_mem x b = false ->
     exists y, In y dif /\ value_eqb x y = true) /\
  (forall x y, In x dif -> In y dif -> value_eqb x y = true -> x = y).
Proof.
  intros dif. unfold dif, set_difference.
  destruct (unique_dropna a) as [Na [Ia Ca]].
  assert (Pa : Forall (fun v => isna v = false) (unique (dropna a)))
    by (apply Forall_forall; intros y Hy; now apply Ia in Hy).
  assert (M : forall y, isna y = false ->
                        value_mem y (unique (dropna b)) = value_mem y b)
    by (intros y Hy; now rewrite value_mem_unique, value_mem_dropna).
  split; [apply NoDup_filter, unique_acc_NoDup, Pa|]. split; [|split].
  - intros y Hy. apply filter_In in Hy as [Hy Hm].
    apply unique_acc_In, Ia in Hy as [Hy Hn].
    rewrite (M y Hn) in Hm. apply negb_true_iff in Hm. now repeat split.
  - intros x Hx Hn Hm. destruct (Ca x Hx Hn) as [y [Hy E]].
    destruct (unique_covers _ y (value_eqb_refl_r _ _ E) Hy) as [z [Hz F]].
    pose proof (value_eqb_trans _ _ _ E F) as G.
    exists z; split; [|exact G]. apply filter_In. split; [exact Hz|].
    assert (Hnz : isna z = false)
      by (rewrite <- (value_eqb_isna _ _ G); exact Hn).
    rewrite (M z Hnz), <- (value_mem_eqb x z b G), Hm. reflexivity.
  - intros x y Hx Hy E. apply filter_In in Hx as [Hx _], Hy as [Hy _].
    exact (unique_acc_eqb_eq _ _ _ _ Hx Hy E).
Qed.

End UniqueFacts.

Import UniqueFacts.

(** ** [encontrar_categorias_inconsistentes] *)

Module InconsistentesFacts.

Import MapeadorCategorias.

(** The column of the transactions the function reads. *)
Definition coluna_lancamentos (manual : option str) : str :=
  match informada manual with
  | Some c => c
  | None => py "Categoria"
  end.

(** The column of the chart the function reads, when it finds one. *)
Definition coluna_plano (dados_categorias : DataFrame) (manual : option str)
  : option str :=
  match informada manual with
  | Some c => Some c
  | None => hd_error (_encontrar_coluna_categoria dados_categorias)
  end.

(** The clean name of a chart entry. *)
Definition nome_limpo (entrada : value) : value :=
  VStr (snd (_limpar_categoria entrada)).

Lemma _processar_categorias_com_codigo_nomes (cat : DataFrame) (col : str)
    (cvals : list value) :
  wf cat -> getitem col cat = Ok cvals ->
  exists proc,
    _processar_categorias_com_codigo cat col = Ok proc /\
    getitem (col ++ py "_Nome_Limpo") proc = Ok (List.map nome_limpo cvals).
Proof.
  intros Hwf Hg. unfold _processar_categorias_com_codigo.
  rewrite Hg; cbn [bind].
  pose proof (getitem_length _ _ _ Hwf Hg) as Hl.
  rewrite setitem_list_wf by (now rewrite !length_map). cbn [bind].
  rewrite setitem_list_wf by (cbn [index_len]; now rewrite !length_map).
  eexists; split; [reflexivity|].
  unfold getitem; cbn [cols]. rewrite assoc_put_same.
  now rewrite map_map.
Qed.

(** What the function does after it has read the two columns. *)
Lemma analisar_colunas (dados_lancamentos dados_categorias : DataFrame)
    (manual_lancamentos manual_plano : option str)
    (col_plano : str) (labels entradas : list value) :
  wf dados_categorias ->
  getitem (coluna_lancamentos manual_lancamentos) dados_lancamentos
    = Ok labels ->
  coluna_plano dados_categorias manual_plano = Some col_plano ->
  getitem col_plano dados_categorias = Ok entradas ->
  encontrar_categorias_inconsistentes dados_lancamentos dados_categorias
    manual_lancamentos manual_plano
  = match sorted (set_difference
                    (unique (dropna labels))
                    (unique (dropna (List.map nome_limpo entradas)))) with
    | Ok l => ([], Ok l)
    | Raise e => ([ErroAoAnalisar e], Ok [])
    end.
Proof.
  intros Hwf Hl Hp Hc.
  unfold encontrar_categorias_inconsistentes, analisar.
  fold (coluna_lancamentos manual_lancamentos).
  fold (coluna_plano dados_categorias manual_plano). rewrite Hp.
  destruct (_processar_categorias_com_codigo_nomes _ _ _ Hwf Hc)
    as [proc [Hproc Hn]].
  rewrite Hproc; cbn [bind]. rewrite Hl; cbn [bind]. rewrite Hn; cbn [bind].
  destruct (sorted _); reflexivity.
Qed.

(** The labels the function is asked for: those present in the
    transactions that equal no clean name. *)
Definition restantes (labels nomes : list value) : list value :=
  filter (fun x => negb (isna x) && negb (value_mem x nomes)) labels.

Lemma restantes_In (labels nomes : list value) (x : value) :
  In x (restantes labels nomes) <->
  In x labels /\ isna x = false /\ value_mem x nomes = false.
Proof.
  unfold restantes. rewrite filter_In, andb_true_iff, !negb_true_iff.
  tauto.
Qed.

(** C1, as the code has it.  Take a transactions table and a chart of
    accounts, both with distinct column labels, where the transactions
    have the category column the function reads (the manual one, else
    "Categoria"), the chart has the category column it reads (the manual
    one, else the first it discovers), and the chart entries are values
    that [str()] prints as modelled.  The labels asked for are those
    present in the transactions that are equal to the clean name of no
    chart entry.
    - When the labels of the transactions are texts or missing, the
      function shows no error and returns, without repetition, exactly
      the labels asked for (equality is code point for code point).
    - When the labels asked for can be ordered two by two (all texts, or
      all numbers), the function shows no error and returns them, each
      once: what it returns is asked for, whatever is asked for is equal
      to something returned, and no two values returned are equal.
    - When two of the labels asked for cannot be ordered (a text and a
      number), the function shows the error of [sorted] and returns the
      empty list.
    With the labels "Receita Vendas" and "Despesa X" and a chart whose
    only clean name is "Despesa X", it returns "Receita Vendas" alone. *)
Theorem inconsistentes_exact :
  (forall (dados_lancamentos dados_categorias : DataFrame)
          (manual_lancamentos manual_plano : option str)
          (col_plano : str) (labels entradas : list value),
     wf dados_lancamentos ->
     wf dados_categorias ->
     getitem (coluna_lancamentos manual_lancamentos) dados_lancamentos
       = Ok labels ->
     coluna_plano dados_categorias manual_plano = Some col_plano ->
     getitem col_plano dados_categorias = Ok entradas ->
     Forall (fun v => str_exact v = true) entradas ->
     let nomes := List.map nome_limpo entradas in
     let resultado :=
       encontrar_categorias_inconsistentes dados_lancamentos dados_categorias
         manual_lancamentos manual_plano in
     (Forall (fun v => isna v = true \/ is_str v = true) labels ->
      exists l,
        resultado = ([], Ok l) /\
        NoDup l /\
        forall x, In x l <->
                  In x labels /\ isna x = false /\ ~ In x nomes) /\
     ((forall a b, In a (restantes labels nomes) ->
                   In b (restantes labels nomes) ->
                   comparable a b = true) ->
      exists l,
        resultado = ([], Ok l) /\
        NoDup l /\
        (forall x, In x l -> In x (restantes labels nomes)) /\
        (forall x, In x (restantes labels nomes) ->
                   exists y, In y l /\ value_eqb x y = true) /\
        (forall x y, In x l -> In y l -> value_eqb x y = true -> x = y)) /\
     (forall a b, In a (restantes labels nomes) ->
                  In b (restantes labels nomes) ->
                  comparable a b = false ->
      resultado = ([ErroAoAnalisar TypeError], Ok []))) /\
  encontrar_categorias_inconsistentes
    (mkDF 3 [(py "Categoria", [VStr (py "Receita Vendas");
                               VStr (py "Despesa X");
                               VStr (py "Receita Vendas")])])
    (mkDF 1 [(py "Nome", [VStr (py "2.01 - Despesa X")])])
    None None
  = ([], Ok [VStr (py "Receita Vendas")]).
Proof.
  split; [|vm_compute; reflexivity].
  intros lanc cat ml mp col_p labels entradas _ Hwf Hl Hp Hc _ nomes res.
  assert (R : res = match sorted (set_difference
                                    (unique (dropna labels))
                                    (unique (dropna nomes))) with
                    | Ok l => ([], Ok l)
                    | Raise e => ([ErroAoAnalisar e], Ok [])
                    end)
    by exact (analisar_colunas lanc cat ml mp col_p labels entradas
                Hwf Hl Hp Hc).
  destruct (set_difference_dropna labels nomes) as [Nd [Id [Cd Ed]]].
  set (dif := set_difference (unique (dropna labels))
                             (unique (dropna nomes))) in *.
  assert (Ir : forall y, In y dif -> In y (restantes labels nomes))
    by (intros y Hy; apply restantes_In; now apply Id).
  assert (G : (forall a b, In a (restantes labels nomes) ->
                           In b (restantes labels nomes) ->
                           comparable a b = true) ->
              exists l,
                res = ([], Ok l) /\ NoDup l /\
                (forall x, In x l -> In x (restantes labels nomes)) /\
                (forall x, In x (restantes labels nomes) ->
                           exists y, In y l /\ value_eqb x y = true) /\
                (forall x y, In x l -> In y l ->
                             value_eqb x y = true -> x = y)).
  { intros Hcmp.
    destruct (sorted_comparable dif) as [l [Hs Hperm]];
      [intros a b Ha Hb; apply Hcmp; now apply Ir|].
    rewrite Hs in R. exists l. split; [exact R|].
    assert (B : forall x, In x l -> In x dif)
      by (intros x Hx; exact (Permutation_in _ (Permutation_sym Hperm) Hx)).
    split; [exact (Permutation_NoDup Hperm Nd)|].
    split; [intros x Hx; apply Ir, B, Hx|]. split.
    - intros x Hx. apply restantes_In in Hx as [Hx [Hn Hm]].
      destruct (Cd x Hx Hn Hm) as [y [Hy E]].
      exists y; split; [exact (Permutation_in _ Hperm Hy) | exact E].
    - intros x y Hx Hy. apply Ed; now apply B. }
  split; [|split; [exact G|]].
  - intros Hs.
    assert (Str : forall x, In x (restantes labels nomes) ->
                            exists s, x = VStr s).
    { intros x Hx. apply restantes_In in Hx as [Hx [Hn _]].
      rewrite Forall_forall in Hs.
      destruct (Hs x Hx) as [E|E]; [congruence | now apply is_str_inv]. }
    destruct G as [l [Hr [Nl [Il [Cl _]]]]].
    { intros a b Ha Hb. destruct (Str a Ha) as [s ->].
      destruct (Str b Hb) as [t ->]. reflexivity. }
    exists l. split; [exact Hr|]. split; [exact Nl|].
    intros x; split.
    + intros Hx. pose proof (Il x Hx) as Hx'.
      destruct (Str x Hx') as [s ->].
      apply restantes_In in Hx' as [H1 [H2 H3]].
      apply value_mem_str_false in H3. now repeat split.
    + intros [Hx [Hn Hnot]].
      rewrite Forall_forall in Hs.
      destruct (Hs x Hx) as [E|E]; [congruence|].
      destruct (is_str_inv x E) as [s ->].
      destruct (Cl (VStr s)) as [y [Hy F]].
      { apply restantes_In. split; [exact Hx|]. split; [exact Hn|].
        now apply value_mem_str_false. }
      apply value_eqb_str_l in F. now subst y.
  - intros a b Ha Hb Hab.
    apply restantes_In in Ha as [Ha [Hna Hma]].
    apply restantes_In in Hb as [Hb [Hnb Hmb]].
    destruct (Cd a Ha Hna Hma) as [a' [Ha' Ea]].
    destruct (Cd b Hb Hnb Hmb) as [b' [Hb' Eb]].
    assert (Hab' : comparable a' b' = false).
    { rewrite <- (comparable_eqb a a' b' Ea), comparable_sym.
      rewrite <- (comparable_eqb b b' a Eb), comparable_sym. exact Hab. }
    assert (Haa : comparable a' a' = true).
    { apply comparable_refl. rewrite <- (value_eqb_isna _ _ Ea). exact Hna. }
    rewrite (sorted_incomparable dif a' b' Ha' Hb' Haa Hab') in R. exact R.
Qed.

Definition lancamentos_rotulos : DataFrame :=
  mkDF 4 [(py "Categoria", [VStr (py "Receita Vendas"); VNaN;
                            VStr (py "Despesa X"); VStr (py "despesa x")])].

Definition plano_rotulos : DataFrame :=
  mkDF 2 [(py "Codigo", [VInt 1; VInt 2]);
          (py "Nome", [VStr (py "2.01 - Despesa X"); VStr (py "Outra")])].

(** A category column that mixes a text and a number. *)
Definition lancamentos_mistos : DataFrame :=
  mkDF 2 [(py "Categoria", [VStr (py "Receita Vendas"); VInt 2024])].

Lemma lancamentos_rotulos_wf : wf lancamentos_rotulos.
Proof.
  split; simpl.
  - repeat constructor; simpl; intuition discriminate.
  - repeat constructor.
Defined.

Lemma plano_rotulos_wf : wf plano_rotulos.
Proof.
  split; simpl.
  - repeat constructor; simpl; intuition discriminate.
  - repeat constructor.
Defined.

Lemma lancamentos_mistos_wf : wf lancamentos_mistos.
Proof.
  split; simpl.
  - repeat constructor; simpl; intuition discriminate.
  - repeat constructor.
Defined.

(** A category column of numbers. *)
Definition lancamentos_numeros : DataFrame :=
  mkDF 3 [(py "Categoria", [VInt 7; VInt 5; VInt 7])].

Lemma lancamentos_numeros_wf : wf lancamentos_numeros.
Proof.
  split; simpl.
  - repeat constructor; simpl; intuition discriminate.
  - repeat constructor.
Defined.

Lemma inconsistentes_exact_witness :
  (exists l,
     encontrar_categorias_inconsistentes lancamentos_rotulos plano_rotulos
       None None = ([], Ok l) /\
     NoDup l /\
     forall x, In x l <->
               In x [VStr (py "Receita Vendas"); VNaN;
                     VStr (py "Despesa X"); VStr (py "despesa x")] /\
               isna x = false /\
               ~ In x (List.map nome_limpo
                         [VStr (py "2.01 - Despesa X"); VStr (py "Outra")])) /\
  (exists l,
     encontrar_categorias_inconsistentes lancamentos_numeros plano_rotulos
       None None = ([], Ok l) /\
     NoDup l /\
     (forall x, In x l -> In x [VInt 7; VInt 5; VInt 7]) /\
     (forall x, In x [VInt 7; VInt 5; VInt 7] ->
                exists y, In y l /\ value_eqb x y = true)) /\
  encontrar_categorias_inconsistentes lancamentos_mistos plano_rotulos
    None None = ([ErroAoAnalisar TypeError], Ok []).
Proof.
  assert (E : Forall (fun v => str_exact v = true)
                [VStr (py "2.01 - Despesa X"); VStr (py "Outra")])
    by (repeat constructor).
  assert (P : coluna_plano plano_rotulos None = Some (py "Nome"))
    by (vm_compute; reflexivity).
  split; [|split].
  - refine (proj1 (proj1 inconsistentes_exact lancamentos_rotulos
                     plano_rotulos None None (py "Nome") _ _
                     lancamentos_rotulos_wf plano_rotulos_wf
                     eq_refl P eq_refl E) _).
    repeat (apply Forall_cons;
            [first [left; reflexivity | right; reflexivity]|]).
    apply Forall_nil.
  - assert (R : restantes [VInt 7; VInt 5; VInt 7]
                  (List.map nome_limpo
                     [VStr (py "2.01 - Despesa X"); VStr (py "Outra")])
                = [VInt 7; VInt 5; VInt 7]) by (vm_compute; reflexivity).
    pose proof (proj1 (proj2 (proj1 inconsistentes_exact lancamentos_numeros
                                plano_rotulos None None (py "Nome")
                                [VInt 7; VInt 5; VInt 7]
                                [VStr (py "2.01 - Despesa X");
                                 VStr (py "Outra")]
                                lancamentos_numeros_wf plano_rotulos_wf
                                eq_refl P eq_refl E))) as H.
    cbv zeta in H. rewrite R in H.
    destruct H as [l [Hr [Nl [Il [Cl _]]]]].
    + intros a b Ha Hb.
      repeat (destruct Ha as [<-|Ha]); try contradiction;
        repeat (destruct Hb as [<-|Hb]); try contradiction; reflexivity.
    + exists l. repeat split; assumption.
  - refine (proj2 (proj2 (proj1 inconsistentes_exact lancamentos_mistos
                            plano_rotulos None None (py "Nome") _ _
                            lancamentos_mistos_wf plano_rotulos_wf
                            eq_refl P eq_refl E))
              (VStr (py "Receita Vendas")) (VInt 2024) _ _ eq_refl).
    + apply restantes_In. split; [now left|].
      split; vm_compute; reflexivity.
    + apply restantes_In. split; [right; now left|].
      split; vm_compute; reflexivity.
Defined.

(** C1 as stated fails: with the category column in the transactions and
    a category column discovered in the chart, the labels "Receita Vendas"
    and 2024 are present and equal no clean name, and the caller gets the
    empty list. *)
Lemma inconsistentes_rotulos_mistos :
  wf lancamentos_mistos /\ wf plano_rotulos /\
  getitem (py "Categoria") lancamentos_mistos
  = Ok [VStr (py "Receita Vendas"); VInt 2024] /\
  coluna_plano plano_rotulos None = Some (py "Nome") /\
  getitem (py "Nome") plano_rotulos
  = Ok [VStr (py "2.01 - Despesa X"); VStr (py "Outra")] /\
  restantes [VStr (py "Receita Vendas"); VInt 2024]
            (List.map nome_limpo
               [VStr (py "2.01 - Despesa X"); VStr (py "Outra")])
  = [VStr (py "Receita Vendas"); VInt 2024] /\
  encontrar_categorias_inconsistentes lancamentos_mistos plano_rotulos
    None None = ([ErroAoAnalisar TypeError], Ok []).
Proof.
  split; [exact lancamentos_mistos_wf|].
  split; [exact plano_rotulos_wf|].
  repeat split; vm_compute; reflexivity.
Qed.

(** C3, as the code has it.  Whenever the transactions table lacks the
    category column the function reads, or no category column is found in
    the chart of accounts (none is discovered, or the manual one is not a
    column of the chart), the function shows one error message with
    [st.error] and returns the empty list to its caller; no exception
    leaves it. *)
Theorem inconsistentes_coluna_ausente
    (dados_lancamentos dados_categorias : DataFrame)
    (manual_lancamentos manual_plano : option str) :
  has_col (coluna_lancamentos manual_lancamentos) dados_lancamentos = false \/
  coluna_plano dados_categorias manual_plano = None \/
  (exists c, coluna_plano dados_categorias manual_plano = Some c /\
             has_col c dados_categorias = false) ->
  exists m,
    encontrar_categorias_inconsistentes dados_lancamentos dados_categorias
      manual_lancamentos manual_plano = ([m], Ok []).
Proof.
  intros H. unfold encontrar_categorias_inconsistentes, analisar.
  fold (coluna_lancamentos manual_lancamentos).
  fold (coluna_plano dados_categorias manual_plano).
  destruct (coluna_plano dados_categorias manual_plano) as [c|] eqn:Hp.
  - destruct (_processar_categorias_com_codigo dados_categorias c)
      as [proc|e] eqn:Hproc; cbn [bind]; [|eexists; reflexivity].
    destruct H as [H|[H|[c' [Hc' H]]]]; [|discriminate|].
    + rewrite (getitem_absent _ _ H); cbn [bind]. eexists; reflexivity.
    + injection Hc' as <-. exfalso.
      unfold _processar_categorias_com_codigo in Hproc.
      rewrite (getitem_absent _ _ H) in Hproc. discriminate.
  - eexists; reflexivity.
Qed.

Definition lancamentos_sem_categoria : DataFrame :=
  mkDF 1 [(py "Descricao", [VStr (py "Venda")]); (py "Valor", [VInt 10])].

Definition plano_sem_categoria : DataFrame :=
  mkDF 1 [(py "X", [VInt 1])].

Lemma inconsistentes_coluna_ausente_witness :
  (exists m,
     encontrar_categorias_inconsistentes lancamentos_sem_categoria
       plano_rotulos None None = ([m], Ok [])) /\
  (exists m,
     encontrar_categorias_inconsistentes lancamentos_rotulos
       plano_sem_categoria None None = ([m], Ok [])).
Proof.
  split.
  - apply (inconsistentes_coluna_ausente lancamentos_sem_categoria
             plano_rotulos None None).
    left; reflexivity.
  - apply (inconsistentes_coluna_ausente lancamentos_rotulos
             plano_sem_categoria None None).
    right; left; reflexivity.
Defined.

(** C3 as stated fails: without the column "Categoria" in the
    transactions, and also without a category column in the chart, the
    caller gets the empty list, not an error. *)
Lemma inconsistentes_returns_empty_list :
  has_col (py "Categoria") lancamentos_sem_categoria = false /\
  encontrar_categorias_inconsistentes lancamentos_sem_categoria plano_rotulos
    None None = ([ErroAoAnalisar (KeyError (py "Categoria"))], Ok []) /\
  _encontrar_coluna_categoria plano_sem_categoria = [] /\
  encontrar_categorias_inconsistentes lancamentos_rotulos plano_sem_categoria
    None None = ([ColunaNaoEncontrada], Ok []) /\
  ~ (exists e,
       snd (encontrar_categorias_inconsistentes lancamentos_sem_categoria
              plano_rotulos None None) = Raise e).
Proof.
  repeat split; try (vm_compute; reflexivity).
  intros [e He]. vm_compute in He. discriminate He.
Qed.

End InconsistentesFacts.

(** ** The matcher against the scanners of the specification *)

Module RegexFacts.

Import Regex.

(** The texts a pattern matches. *)
Inductive lang : re -> str -> Prop :=
| LChr (p : char -> bool) (c : char) : p c = true -> lang (Chr p) [c]
| LSeq (a b : re) (x y : str) : lang a x -> lang b y -> lang (Seq a b) (x ++ y)
| LStar0 (a : re) : lang (Star a) []
| LStarS (a : re) (x y : str) :
    x <> [] -> lang a x -> lang (Star a) y -> lang (Star a) (x ++ y).

Lemma run_Chr (fuel : nat) (p : char -> bool) (s : str) :
  run fuel (Chr p) s =
  match s with
  | c :: s' => if p c then [s'] else []
  | [] => []
  end.
Proof. destruct fuel; reflexivity. Qed.

Lemma run_Seq (fuel : nat) (a b : re) (s : str) :
  run fuel (Seq a b) s = flat_map (run fuel b) (run fuel a s).
Proof. destruct fuel; reflexivity. Qed.

Lemma run_Star_O (a : re) (s : str) : run 0 (Star a) s = [s].
Proof. reflexivity. Qed.

Lemma run_Star_S (f : nat) (a : re) (s : str) :
  run (S f) (Star a) s =
  flat_map (fun s' => if (List.length s' <? List.length s)%nat
                      then run f (Star a) s' else [])
           (run (S f) a s) ++ [s].
Proof. reflexivity. Qed.

(** Whatever the matcher leaves is the text without a matched prefix. *)
Lemma run_sound (fuel : nat) :
  forall (r : re) (s rest : str),
    In rest (run fuel r s) -> exists x, s = x ++ rest /\ lang r x.
Proof.
  induction fuel as [|f IHf].
  - induction r as [p|a IHa b IHb|a IHa]; intros s rest H.
    + rewrite run_Chr in H. destruct s as [|c s]; [contradiction|].
      destruct (p c) eqn:E; [|contradiction].
      destruct H as [<-|[]]. exists [c]; split; [reflexivity | now constructor].
    + rewrite run_Seq in H. apply in_flat_map in H as [m [Hm Hr]].
      destruct (IHa _ _ Hm) as [x [-> Hx]]. destruct (IHb _ _ Hr) as [y [-> Hy]].
      exists (x ++ y); split; [now rewrite app_assoc | now constructor].
    + rewrite run_Star_O in H. destruct H as [<-|[]].
      exists []; split; [reflexivity | constructor].
  - induction r as [p|a IHa b IHb|a IHa]; intros s rest H.
    + rewrite run_Chr in H. destruct s as [|c s]; [contradiction|].
      destruct (p c) eqn:E; [|contradiction].
      destruct H as [<-|[]]. exists [c]; split; [reflexivity | now constructor].
    + rewrite run_Seq in H. apply in_flat_map in H as [m [Hm Hr]].
      destruct (IHa _ _ Hm) as [x [-> Hx]]. destruct (IHb _ _ Hr) as [y [-> Hy]].
      exists (x ++ y); split; [now rewrite app_assoc | now constructor].
    + rewrite run_Star_S in H. apply in_app_or in H as [H|[<-|[]]].
      * apply in_flat_map in H as [m [Hm Hr]].
        destruct (List.length m <? List.length s)%nat eqn:L; [|contradiction].
        apply Nat.ltb_lt in L.
        destruct (IHa _ _ Hm) as [x [-> Hx]].
        destruct (IHf _ _ _ Hr) as [y [-> Hy]].
        exists (x ++ y); split; [now rewrite app_assoc|].
        constructor; auto. intros ->. simpl in L. lia.
      * exists []; split; [reflexivity | constructor].
Qed.

(** With enough fuel, every matched prefix is found. *)
Lemma run_complete (r : re) (x : str) :
  lang r x ->
  forall (rest : str) (fuel : nat),
    (List.length (x ++ rest) < fuel)%nat -> In rest (run fuel r (x ++ rest)).
Proof.
  induction 1 as [p c Hp|a b x y Ha IHa Hb IHb|a|a x y Hne Ha IHa Hs IHs];
    intros rest fuel Hf.
  - rewrite run_Chr. simpl. rewrite Hp. now left.
  - rewrite run_Seq. apply in_flat_map. exists (y ++ rest). split.
    + rewrite <- app_assoc. apply IHa. now rewrite app_assoc.
    + apply IHb. rewrite <- app_assoc, length_app in Hf. lia.
  - destruct fuel; [rewrite run_Star_O | rewrite run_Star_S; apply in_or_app; right];
      now left.
  - destruct fuel as [|f]; [lia|]. rewrite run_Star_S.
    apply in_or_app; left. apply in_flat_map. exists (y ++ rest). split.
    + rewrite <- app_assoc. apply IHa. now rewrite app_assoc.
    + assert (L : (List.length (y ++ rest) < List.length ((x ++ y) ++ rest))%nat).
      { rewrite <- app_assoc, (length_app x). destruct x; [congruence|simpl; lia]. }
      apply Nat.ltb_lt in L as L'. rewrite L'. apply IHs. lia.
Qed.


(** All the remainders of [s] after a run of code points of class [p], the
    longest run first. *)
Fixpoint tails (p : char -> bool) (s : str) : list str :=
  match s with
  | c :: s' => if p c then tails p s' ++ [s] else [s]
  | [] => [[]]
  end.

Lemma flat_map_single {A B : Type} (f : A -> list B) (x : A) :
  flat_map f [x] = f x.
Proof. simpl; apply app_nil_r. Qed.

Lemma run_star_class (p : char -> bool) (s : str) :
  forall fuel, (List.length s < fuel)%nat ->
               run fuel (Star (Chr p)) s = tails p s.
Proof.
  induction s as [|c s IH]; intros fuel H; (destruct fuel as [|f]; [simpl in H; lia|]);
    rewrite run_Star_S, run_Chr.
  - reflexivity.
  - simpl tails. destruct (p c); [|reflexivity].
    rewrite flat_map_single.
    assert (L : (List.length s <? List.length (c :: s))%nat = true)
      by (apply Nat.ltb_lt; simpl; lia).
    rewrite L, IH by (simpl in H; lia). reflexivity.
Qed.

Lemma exec_plus_class (p : char -> bool) (s : str) :
  exec (Plus (Chr p)) s =
  match s with
  | c :: s' => if p c then tails p s' else []
  | [] => []
  end.
Proof.
  unfold exec, Plus. rewrite run_Seq, run_Chr.
  destruct s as [|c s]; [reflexivity|].
  destruct (p c); [|reflexivity].
  rewrite flat_map_single. apply run_star_class. simpl; lia.
Qed.

Lemma tails_suffix (p : char -> bool) (s r : str) :
  In r (tails p s) -> exists x, s = x ++ r.
Proof.
  revert r; induction s as [|c s IH]; intros r H; simpl in H.
  - destruct H as [<-|[]]. now exists [].
  - destruct (p c).
    + apply in_app_or in H as [H|[<-|[]]]; [|now exists []].
      destruct (IH r H) as [x ->]. now exists (c :: x).
    + destruct H as [<-|[]]. now exists [].
Qed.

Lemma span_app (p : char -> bool) (s : str) :
  s = fst (span p s) ++ snd (span p s).
Proof.
  induction s as [|c s IH]; simpl; [reflexivity|].
  destruct (p c); [|reflexivity].
  destruct (span p s); simpl in *. now f_equal.
Qed.

Lemma span_all (p : char -> bool) (s : str) :
  forallb p (fst (span p s)) = true.
Proof.
  induction s as [|c s IH]; simpl; [reflexivity|].
  destruct (p c) eqn:E; [|reflexivity].
  destruct (span p s); simpl in *. now rewrite E.
Qed.

Lemma tails_span (p : char -> bool) (s : str) :
  exists tl, tails p s = snd (span p s) :: tl /\
             forall r, In r tl -> exists w, r = w ++ snd (span p s).
Proof.
  induction s as [|c s [tl [Ht Hw]]]; simpl.
  - exists []; split; [reflexivity | intros r []].
  - destruct (p c).
    + rewrite Ht. destruct (span p s) as [a b] eqn:E; simpl in *.
      exists (tl ++ [c :: s]); split; [reflexivity|].
      intros r H; apply in_app_or in H as [H|[<-|[]]]; [auto|].
      exists (c :: a). pose proof (span_app p s) as Hs. rewrite E in Hs.
      simpl in Hs. now rewrite Hs at 1.
    + exists []; split; [reflexivity | intros r []].
Qed.

Definition is_nil (s : str) : bool :=
  match s with
  | [] => true
  | _ => false
  end.

Lemma tails_nil {A : Type} (g : str -> A) (p : char -> bool) (s : str) :
  flat_map (fun r => if is_nil r then [g r] else []) (tails p s) =
  if forallb p s then [g []] else [].
Proof.
  induction s as [|c s IH]; simpl; [reflexivity|].
  destruct (p c); simpl; [|reflexivity].
  rewrite flat_map_app, IH. simpl. now rewrite app_nil_r.
Qed.

Lemma flat_map_ext_In {A B : Type} (f g : A -> list B) (l : list A) :
  (forall x, In x l -> f x = g x) -> flat_map f l = flat_map g l.
Proof.
  induction l as [|a l IH]; intros H; simpl; [reflexivity|].
  rewrite (H a) by now left. rewrite IH; [reflexivity|].
  intros; apply H; now right.
Qed.

Lemma flat_map_nil {A B : Type} (f : A -> list B) (l : list A) :
  (forall x, In x l -> f x = []) -> flat_map f l = [].
Proof.
  induction l as [|a l IH]; intros H; simpl; [reflexivity|].
  rewrite (H a) by now left. apply IH; intros; apply H; now right.
Qed.

(** When one element alone contributes, the first result is its first. *)
Lemma hd_flat_map_unique {B : Type} (f : str -> list B) (x : str)
    (l : list str) :
  (forall y, In y l -> y <> x -> f y = []) -> In x l ->
  hd_error (flat_map f l) = hd_error (f x).
Proof.
  induction l as [|y l IH]; intros H Hin; [contradiction|]. simpl.
  destruct (list_eq_dec N.eq_dec y x) as [->|Hne].
  - destruct (f x) as [|b t] eqn:E; [|reflexivity]. simpl.
    rewrite flat_map_nil; [reflexivity|].
    intros z Hz. destruct (list_eq_dec N.eq_dec z x) as [->|Hz'];
      [exact E | apply H; [now right | exact Hz']].
  - rewrite (H y) by (auto; now left). simpl. apply IH.
    + intros z Hz; apply H; now right.
    + destruct Hin; [congruence | assumption].
Qed.

(** The text does not end in white space. *)
Definition no_trailing_space (s : str) : Prop :=
  forall x c, s = x ++ [c] -> isspace c = false.

Lemma no_trailing_space_suffix (a b : str) :
  no_trailing_space (a ++ b) -> no_trailing_space b.
Proof.
  intros H x c ->. apply (H (a ++ x) c). now rewrite app_assoc.
Qed.

Lemma lstrip_head (s : str) (c : char) (r : str) :
  lstrip s = c :: r -> isspace c = false.
Proof.
  induction s as [|a s IH]; simpl; [discriminate|].
  destruct (isspace a) eqn:E; [exact IH|]. now intros [= <- _].
Qed.

Lemma strip_no_trailing_space (s : str) : no_trailing_space (strip s).
Proof.
  unfold strip, rstrip. intros x c H.
  apply (f_equal (@rev char)) in H. rewrite rev_involutive, rev_app_distr in H.
  simpl in H. now apply lstrip_head in H.
Qed.


Lemma consumed_all (s : str) : consumed s [] = s.
Proof. unfold consumed; simpl. rewrite Nat.sub_0_r. apply firstn_all. Qed.

Lemma consumed_app (x r : str) : consumed (x ++ r) r = x.
Proof.
  unfold consumed. rewrite length_app, Nat.add_sub.
  rewrite firstn_app, Nat.sub_diag, firstn_all. simpl. apply app_nil_r.
Qed.

(** [(.+)$] on a text that does not end in white space: the whole text,
    when it is not empty and holds no line feed. *)
Lemma exec_any_to_end {A : Type} (g : str -> A) (r2 : str) :
  no_trailing_space r2 ->
  flat_map (fun r3 => if at_end r3 then [g r3] else [])
           (exec (Plus (Chr any)) r2)
  = match r2 with
    | [] => []
    | _ :: _ => if forallb any r2 then [g []] else []
    end.
Proof.
  intros NT. rewrite exec_plus_class. destruct r2 as [|c s]; [reflexivity|].
  simpl forallb. destruct (any c); [|reflexivity]. simpl andb.
  rewrite <- tails_nil. apply flat_map_ext_In. intros r3 H.
  destruct r3 as [|a [|b r]]; try reflexivity.
  simpl. destruct (a =? 10)%N eqn:E; [|reflexivity].
  apply N.eqb_eq in E; subst. apply tails_suffix in H as [x ->].
  pose proof (NT (c :: x) 10%N eq_refl) as C. discriminate C.
Qed.

Lemma forallb_last_space (w : str) (c : char) :
  forallb isspace (c :: w) = true ->
  exists x l, c :: w = x ++ [l] /\ isspace l = true.
Proof.
  intros H. destruct (exists_last (l := c :: w)) as [x [l E]]; [discriminate|].
  exists x, l; split; [exact E|].
  rewrite E, forallb_app in H. apply andb_true_iff in H as [_ H].
  simpl in H. now rewrite andb_true_r in H.
Qed.

(** [\s+(.+)$] after the code: the text that follows the white space. *)
Lemma exec_space_then_text {A : Type} (g : str -> A) (r1 : str) :
  no_trailing_space r1 ->
  hd_error
    (flat_map
       (fun r2 => flat_map (fun r3 => if at_end r3
                                      then [g (consumed r2 r3)] else [])
                           (exec (Plus (Chr any)) r2))
       (exec (Plus (Chr isspace)) r1))
  = match span isspace r1 with
    | (_ :: _, (_ :: _) as text) =>
      if forallb any text then Some (g text) else None
    | _ => None
    end.
Proof.
  intros NT.
  rewrite (flat_map_ext_In _
             (fun r2 => match r2 with
                        | [] => []
                        | _ :: _ => if forallb any r2 then [g r2] else []
                        end)).
  2:{ intros r2 H. rewrite exec_plus_class in H.
      destruct r1 as [|c s]; [contradiction|].
      destruct (isspace c); [|contradiction].
      apply tails_suffix in H as [x Hx].
      rewrite (exec_any_to_end (fun r3 => g (consumed r2 r3))).
      - now rewrite consumed_all.
      - apply (no_trailing_space_suffix (c :: x)). simpl. now rewrite <- Hx. }
  rewrite exec_plus_class. destruct r1 as [|c s]; [reflexivity|].
  simpl span. destruct (isspace c) eqn:Ec; [|reflexivity].
  destruct (tails_span isspace s) as [tl [Ht Hw]]. rewrite Ht.
  pose proof (span_app isspace s) as Hs. pose proof (span_all isspace s) as Ha.
  destruct (span isspace s) as [a b]; simpl in *.
  destruct b as [|n b].
  - exfalso. rewrite app_nil_r in Hs; subst a.
    destruct (forallb_last_space s c) as [x [l [E Hl]]];
      [simpl; now rewrite Ec, Ha|].
    now rewrite (NT x l E) in Hl.
  - destruct (forallb any (n :: b)) eqn:F; [reflexivity|].
    simpl. rewrite flat_map_nil; [reflexivity|].
    intros r Hr. destruct (Hw r Hr) as [w ->].
    destruct (w ++ n :: b) eqn:E; [reflexivity|]. rewrite <- E.
    now rewrite forallb_app, F, andb_false_r.
Qed.

Section LeadingCode.

Variable code : re.
Variable prefix : str -> option (str * str).

Hypothesis prefix_lang :
  forall s x r, prefix s = Some (x, r) -> s = x ++ r /\ lang code x.
Hypothesis lang_prefix :
  forall x c r, lang code x -> isspace c = true ->
                prefix (x ++ c :: r) = Some (x, c :: r).

Lemma no_space_no_match {A : Type} (f : str -> list A) (r1 : str) :
  match r1 with
  | c :: _ => isspace c = false
  | [] => True
  end ->
  flat_map f (exec (Plus (Chr isspace)) r1) = [].
Proof.
  intros H. rewrite exec_plus_class. destruct r1 as [|c s]; [reflexivity|].
  now rewrite H.
Qed.

Lemma match_code_name_leading (s : str) :
  no_trailing_space s ->
  match_code_name code s = leading_code prefix s.
Proof.
  intros NT. unfold match_code_name, leading_code.
  set (K := fun r1 =>
     flat_map
       (fun r2 => flat_map (fun r3 => if at_end r3
                                      then [(consumed s r1, consumed r2 r3)]
                                      else [])
                           (exec (Plus (Chr any)) r2))
       (exec (Plus (Chr isspace)) r1)).
  assert (Hdead : forall r1 x, s = x ++ r1 -> lang code x ->
                    K r1 <> [] -> prefix s = Some (x, r1)).
  { intros r1 x Hs Hx Hk. destruct r1 as [|c r].
    - exfalso; apply Hk. unfold K. now apply no_space_no_match.
    - destruct (isspace c) eqn:E.
      + subst s. now apply lang_prefix.
      + exfalso; apply Hk. unfold K. now apply no_space_no_match. }
  destruct (prefix s) as [[x r]|] eqn:P.
  - destruct (prefix_lang _ _ _ P) as [Hs Hx].
    rewrite (hd_flat_map_unique K r).
    + assert (Hc : consumed s r = x) by (rewrite Hs; apply consumed_app).
      unfold K. rewrite Hc.
      apply (exec_space_then_text (fun t => (x, t))).
      apply (no_trailing_space_suffix x). now rewrite <- Hs.
    + intros y Hy Hne. destruct (K y) eqn:E; [reflexivity|]. exfalso.
      apply run_sound in Hy as [x' [Hs' Hx']].
      assert (Hk : K y <> []) by (rewrite E; discriminate).
      pose proof (Hdead y x' Hs' Hx' Hk) as P'. congruence.
    + unfold exec. rewrite Hs at 2. apply run_complete; [exact Hx|].
      rewrite <- Hs. lia.
  - rewrite flat_map_nil; [reflexivity|].
    intros y Hy. destruct (K y) eqn:E; [reflexivity|]. exfalso.
    apply run_sound in Hy as [x' [Hs' Hx']].
    assert (Hk : K y <> []) by (rewrite E; discriminate).
    pose proof (Hdead y x' Hs' Hx' Hk) as P'. congruence.
Qed.

End LeadingCode.


(** *** The two code patterns against their scanners *)

Lemma lang_star_class (p : char -> bool) (x : str) :
  lang (Star (Chr p)) x <-> forallb p x = true.
Proof.
  split.
  - intros H. remember (Star (Chr p)) as R eqn:ER.
    induction H as [| | |a x y Hne Ha _ Hs IHs]; try discriminate.
    + reflexivity.
    + injection ER as ->. inversion Ha as [p0 c0 Hp| | |]; subst. simpl.
      rewrite Hp. simpl. now apply IHs.
  - induction x as [|c x IH]; simpl; intros H; [constructor|].
    apply andb_true_iff in H as [Hc Hx].
    change (c :: x) with ([c] ++ x).
    constructor; [discriminate | now constructor | now apply IH].
Qed.

Lemma lang_plus_class (p : char -> bool) (x : str) :
  lang (Plus (Chr p)) x <->
  exists c x', x = c :: x' /\ p c = true /\ forallb p x' = true.
Proof.
  split.
  - intros H. inversion H as [|a b u v Hu Hv| |]; subst.
    inversion Hu; subst. apply lang_star_class in Hv.
    simpl. eauto.
  - intros [c [x' [-> [Hc Hx]]]]. change (c :: x') with ([c] ++ x').
    constructor; [now constructor | now apply lang_star_class].
Qed.

(** [\.\d+] *)
Definition group : re := Seq (Chr dot) (Plus (Chr digit)).

Lemma lang_group (x : str) :
  lang group x <->
  exists c d ds, x = c :: d :: ds /\ dot c = true /\ digit d = true /\
                 forallb digit ds = true.
Proof.
  split.
  - intros H. inversion H as [|a b u v Hu Hv| |]; subst.
    inversion Hu; subst. apply lang_plus_class in Hv as [d [ds [-> [Hd Hds]]]].
    simpl. eauto 10.
  - intros [c [d [ds [-> [Hc [Hd Hds]]]]]].
    change (c :: d :: ds) with ([c] ++ d :: ds).
    constructor; [now constructor|]. apply lang_plus_class; eauto.
Qed.

Lemma digit_not_dot (c : char) : digit c = true -> dot c = false.
Proof.
  unfold dot. intros H. destruct (c =? 46)%N eqn:E; [|reflexivity].
  apply N.eqb_eq in E; subst c. vm_compute in H. discriminate H.
Qed.

(** The code points of white space, one by one. *)
Lemma isspace_cases (c : char) :
  isspace c = true ->
  In c [9; 10; 11; 12; 13; 28; 29; 30; 31; 32; 133; 160; 5760;
        8192; 8193; 8194; 8195; 8196; 8197; 8198; 8199; 8200; 8201; 8202;
        8232; 8233; 8239; 8287; 12288]%N.
Proof.
  unfold isspace. intros H.
  repeat (apply orb_true_iff in H as [H|H]);
    repeat (apply andb_true_iff in H as [? H]);
    repeat match goal with
           | X : (_ <=? _)%N = true |- _ => apply N.leb_le in X
           | X : (_ =? _)%N = true |- _ => apply N.eqb_eq in X
           end;
    simpl; lia.
Qed.

Lemma space_not_digit (c : char) : isspace c = true -> digit c = false.
Proof.
  intros H. apply isspace_cases in H. simpl in H.
  repeat (destruct H as [<-|H]; [vm_compute; reflexivity|]).
  contradiction.
Qed.

Lemma space_not_dot (c : char) : isspace c = true -> dot c = false.
Proof.
  unfold isspace, dot. intros H.
  destruct (c =? 46)%N eqn:D; [|reflexivity]. apply N.eqb_eq in D.
  repeat (apply orb_true_iff in H as [H|H]);
    repeat (apply andb_true_iff in H as [? H]);
    repeat match goal with
           | E : (_ <=? _)%N = true |- _ => apply N.leb_le in E
           | E : (_ =? _)%N = true |- _ => apply N.eqb_eq in E
           end; lia.
Qed.

Lemma numeric_tail_digits (ds r : str) :
  forallb digit ds = true ->
  numeric_tail (ds ++ r) =
  (ds ++ fst (numeric_tail r), snd (numeric_tail r)).
Proof.
  induction ds as [|d ds IH]; simpl; intros H.
  - now destruct (numeric_tail r).
  - apply andb_true_iff in H as [Hd Hds]. rewrite Hd, (IH Hds). reflexivity.
Qed.

Lemma numeric_tail_groups (gs : str) :
  lang (Star group) gs ->
  forall c r, digit c = false -> dot c = false ->
              numeric_tail (gs ++ c :: r) = (gs, c :: r).
Proof.
  intros H. remember (Star group) as R eqn:ER.
  induction H as [| | |a x y Hne Ha _ Hs IHs]; try discriminate;
    intros c r Hc1 Hc2.
  - simpl. now rewrite Hc1, Hc2.
  - injection ER as ->.
    apply lang_group in Ha as [c0 [d [ds [-> [H0 [Hd Hds]]]]]].
    simpl app. simpl numeric_tail.
    destruct (digit c0) eqn:E0;
      [apply digit_not_dot in E0; congruence|].
    rewrite H0, Hd.
    rewrite <- app_assoc. rewrite numeric_tail_digits by exact Hds.
    rewrite (IHs eq_refl c r Hc1 Hc2). simpl. rewrite <- ?app_assoc. reflexivity.
Qed.

(** What [numeric_tail] reads is digits and then groups. *)
Lemma numeric_tail_lang (n : nat) :
  forall s, (List.length s <= n)%nat ->
    s = fst (numeric_tail s) ++ snd (numeric_tail s) /\
    exists ds gs, fst (numeric_tail s) = ds ++ gs /\
                  forallb digit ds = true /\ lang (Star group) gs.
Proof.
  induction n as [|n IH]; intros s Hn.
  - destruct s; [|simpl in Hn; lia]. simpl. split; [reflexivity|].
    exists [], []; repeat split; constructor.
  - destruct s as [|c s]; [simpl; split; [reflexivity|];
                           exists [], []; repeat split; constructor|].
    simpl in Hn. simpl numeric_tail.
    destruct (digit c) eqn:Dc.
    + destruct (IH s) as [Hs [ds [gs [Ha [Hds Hgs]]]]]; [lia|].
      destruct (numeric_tail s) as [a r]; simpl in *. split; [now f_equal|].
      exists (c :: ds), gs. subst a. simpl. rewrite Dc. auto.
    + destruct (dot c) eqn:Tc.
      * destruct s as [|d s']; [simpl; split; [reflexivity|];
                                exists [], []; repeat split; constructor|].
        destruct (digit d) eqn:Dd.
        -- destruct (IH s') as [Hs [ds [gs [Ha [Hds Hgs]]]]];
             [simpl in Hn; lia|].
           simpl numeric_tail. rewrite Dd.
           destruct (numeric_tail s') as [a r]; simpl in *.
           split; [now do 2 f_equal|].
           exists [], (c :: d :: ds ++ gs). split; [now subst a|].
           split; [reflexivity|].
           change (c :: d :: ds ++ gs) with ((c :: d :: ds) ++ gs).
           constructor; [discriminate | | exact Hgs].
           apply lang_group. eauto 10.
        -- simpl. split; [reflexivity|].
           exists [], []; repeat split; constructor.
      * simpl. split; [reflexivity|].
        exists [], []; repeat split; constructor.
Qed.

Lemma numeric_prefix_lang (s x r : str) :
  numeric_prefix s = Some (x, r) -> s = x ++ r /\ lang numeric_code x.
Proof.
  unfold numeric_prefix. destruct s as [|c s]; [discriminate|].
  destruct (digit c) eqn:Dc; [|discriminate].
  destruct (numeric_tail_lang (List.length s) s (le_n _))
    as [Hs [ds [gs [Ha [Hds Hgs]]]]].
  destruct (numeric_tail s) as [a r']; simpl in *. intros [= <- <-].
  split; [simpl; now f_equal|]. subst a.
  change (c :: ds ++ gs) with ((c :: ds) ++ gs).
  constructor; [|exact Hgs]. apply lang_plus_class. eauto.
Qed.

Lemma lang_numeric_prefix (x : str) (c : char) (r : str) :
  lang numeric_code x -> isspace c = true ->
  numeric_prefix (x ++ c :: r) = Some (x, c :: r).
Proof.
  intros H Hc. inversion H as [|a b u v Hu Hv| |]; subst.
  apply lang_plus_class in Hu as [d [ds [-> [Hd Hds]]]].
  simpl. rewrite Hd. rewrite <- app_assoc.
  rewrite numeric_tail_digits by exact Hds.
  rewrite (numeric_tail_groups v Hv c r (space_not_digit c Hc)
             (space_not_dot c Hc)).
  simpl. rewrite <- ?app_assoc. reflexivity.
Qed.

Lemma letter_prefix_lang (s x r : str) :
  letter_prefix s = Some (x, r) -> s = x ++ r /\ lang letter_code x.
Proof.
  unfold letter_prefix. destruct s as [|c s]; [discriminate|].
  destruct (letter c) eqn:Lc; [|discriminate].
  destruct (numeric_prefix s) as [[a r']|] eqn:P; [|discriminate].
  intros [= <- <-]. destruct (numeric_prefix_lang _ _ _ P) as [Hs Ha].
  split; [simpl; now f_equal|].
  change (c :: a) with ([c] ++ a). constructor; [now constructor | exact Ha].
Qed.

Lemma lang_letter_prefix (x : str) (c : char) (r : str) :
  lang letter_code x -> isspace c = true ->
  letter_prefix (x ++ c :: r) = Some (x, c :: r).
Proof.
  intros H Hc. inversion H as [|a b u v Hu Hv| |]; subst.
  inversion Hu as [p0 c0 Hl| | |]; subst. simpl. rewrite Hl.
  now rewrite (lang_numeric_prefix v c r Hv Hc).
Qed.

(** *** The separators *)

Lemma cut_split1 (sep t : str) :
  contains sep t = true ->
  exists a b, split1 sep t = [a; b] /\ cut sep t = Some (a, b).
Proof.
  induction t as [|c t IH]; intros H.
  - cbn [contains] in H. rewrite orb_false_r in H.
    cbn [split1 cut]. rewrite H. eauto.
  - cbn [split1 cut]. cbn [contains] in H.
    destruct (startswith sep (c :: t)) eqn:E; [eauto|].
    simpl in H. destruct (IH H) as [a [b [Hs Hc]]]. rewrite Hs, Hc. eauto.
Qed.

Lemma tentar_separadores_first (seps : list str) (t : str) :
  MapeadorCategorias.tentar_separadores seps t =
  match find (fun sep => contains sep t) seps with
  | Some sep =>
    match cut sep t with
    | Some (a, b) => Some (strip a, strip b)
    | None => None
    end
  | None => None
  end.
Proof.
  induction seps as [|sep seps IH]; simpl; [reflexivity|].
  destruct (contains sep t) eqn:E; [|exact IH].
  destruct (cut_split1 sep t E) as [a [b [Hs Hc]]]. now rewrite Hs, Hc.
Qed.

End RegexFacts.

(** ** [_limpar_categoria] *)

Module LimparFacts.

Import MapeadorCategorias RegexFacts.

Lemma _limpar_categoria_coerce (v : value) :
  _limpar_categoria v = _limpar_categoria (VStr (coerce v)).
Proof.
  unfold _limpar_categoria. cbv beta iota zeta.
  replace (match v with
           | VNone => []
           | VStr s => s
           | _ => py_str v
           end) with (coerce v) by (destruct v; reflexivity).
  reflexivity.
Qed.

Lemma _limpar_categoria_decompose (v : value) :
  _limpar_categoria v = decompose v.
Proof.
  rewrite _limpar_categoria_coerce. unfold _limpar_categoria, decompose.
  set (t := strip (coerce v)).
  assert (NT : no_trailing_space t) by apply strip_no_trailing_space.
  rewrite tentar_separadores_first. unfold first_separator.
  destruct (find (fun sep => contains sep t) separadores) as [sep|] eqn:F.
  - apply find_some in F as [_ F].
    destruct (cut_split1 sep t F) as [a [b [_ Hc]]]. now rewrite Hc.
  - rewrite (match_code_name_leading Regex.numeric_code numeric_prefix
               numeric_prefix_lang lang_numeric_prefix t NT).
    rewrite (match_code_name_leading Regex.letter_code letter_prefix
               letter_prefix_lang lang_letter_prefix t NT).
    destruct (leading_code numeric_prefix t) as [[c n]|]; [reflexivity|].
    now destruct (leading_code letter_prefix t) as [[c n]|].
Qed.

(** Without a line feed in the text, the cases as stated and the cases
    with the condition on line feeds give the same. *)
Lemma lstrip_In (s : str) (c : char) : In c (lstrip s) -> In c s.
Proof.
  induction s as [|a s IH]; simpl; [tauto|].
  destruct (isspace a); [auto|]. simpl; tauto.
Qed.

Lemma strip_In (s : str) (c : char) : In c (strip s) -> In c s.
Proof.
  unfold strip, rstrip. intros H. apply in_rev, lstrip_In in H.
  apply in_rev in H. now apply lstrip_In.
Qed.

Lemma leading_code_stated_any (prefix : str -> option (str * str)) (t : str) :
  (forall x r, prefix t = Some (x, r) -> t = x ++ r) ->
  forallb Regex.any t = true ->
  leading_code_stated prefix t = leading_code prefix t.
Proof.
  intros Hp Ht. unfold leading_code_stated, leading_code.
  destruct (prefix t) as [[x r]|] eqn:P; [|reflexivity].
  pose proof (span_app isspace r) as Hs.
  destruct (span isspace r) as [ws text]; simpl in Hs.
  destruct ws as [|w ws]; [reflexivity|].
  destruct text as [|c text]; [reflexivity|].
  replace (forallb Regex.any (c :: text)) with true; [reflexivity|].
  symmetry. apply forallb_forall. intros y Hy.
  rewrite forallb_forall in Ht. apply Ht.
  rewrite (Hp x r eq_refl), Hs. apply in_or_app; right.
  apply in_or_app; right. exact Hy.
Qed.

Lemma decompose_stated_sem_quebra (v : value) :
  forallb Regex.any (coerce v) = true -> decompose_stated v = decompose v.
Proof.
  intros H. unfold decompose_stated, decompose.
  set (t := strip (coerce v)).
  assert (Ht : forallb Regex.any t = true).
  { apply forallb_forall. intros c Hc. rewrite forallb_forall in H.
    apply H. now apply strip_In. }
  rewrite (leading_code_stated_any numeric_prefix t)
    by (first [exact Ht | intros x r P; now apply numeric_prefix_lang in P]).
  rewrite (leading_code_stated_any letter_prefix t)
    by (first [exact Ht | intros x r P; now apply letter_prefix_lang in P]).
  reflexivity.
Qed.

(** C2, as the code has it.  [_limpar_categoria] has a result for every
    cell value, and nothing in it raises where [str()] does not: [None]
    becomes "", a text is taken as it is, any other value goes through
    [str()] (a missing cell [NaN] is not [None]: it becomes the text
    "nan"), and on the trimmed text the function does what [decompose]
    says.  The first separator of the list " - ", " – ", " — ", " | ",
    ": ", " :: " that occurs in the text cuts it at its first occurrence
    into a trimmed code and a trimmed name; else a leading dotted number
    (of decimal digits of any script) followed by white space and a text
    that holds no line feed gives the number and the text; else a leading
    letter and dotted number followed by white space and a text that holds
    no line feed gives that code and the text; else the code is "" and the
    name is the trimmed text.  "2.2.1 - ÁGUA" gives ("2.2.1", "ÁGUA") and
    "ÁGUA" gives ("", "ÁGUA"). *)
Theorem limpar_categoria_total_ordered :
  (forall v, str_exact v = true -> _limpar_categoria v = decompose v) /\
  (forall v, str_exact v = true ->
     _limpar_categoria v = _limpar_categoria (VStr (coerce v))) /\
  (forall v, forallb Regex.any (coerce v) = true ->
     decompose v = decompose_stated v) /\
  coerce VNone = [] /\
  coerce VNaN = py "nan" /\
  (forall s, coerce (VStr s) = s) /\
  (forall z, coerce (VInt z) = of_Z z) /\
  (forall z, coerce (VFloat z) = of_Z z ++ py ".0") /\
  separadores = [py " - "; py " – "; py " — "; py " | "; py ": "; py " :: "] /\
  _limpar_categoria VNone = ([], []) /\
  _limpar_categoria VNaN = ([], py "nan") /\
  _limpar_categoria (VInt 2024) = ([], py "2024") /\
  _limpar_categoria (VStr (py "٣ ÁGUA")) = (py "٣", py "ÁGUA") /\
  _limpar_categoria (VStr (py "2.2.1 - ÁGUA")) = (py "2.2.1", py "ÁGUA") /\
  _limpar_categoria (VStr (py "ÁGUA")) = ([], py "ÁGUA").
Proof.
  split; [intros v _; apply _limpar_categoria_decompose|].
  split; [intros v _; apply _limpar_categoria_coerce|].
  split; [intros v H; symmetry; now apply decompose_stated_sem_quebra|].
  repeat split; vm_compute; reflexivity.
Qed.

Lemma limpar_categoria_total_ordered_witness :
  str_exact (VFloat 2024) = true /\
  _limpar_categoria (VFloat 2024) = decompose (VFloat 2024) /\
  _limpar_categoria (VFloat 2024)
  = _limpar_categoria (VStr (coerce (VFloat 2024))) /\
  decompose (VStr (py "2.2.1 ÁGUA")) = decompose_stated (VStr (py "2.2.1 ÁGUA")).
Proof.
  assert (H : str_exact (VFloat 2024) = true) by (vm_compute; reflexivity).
  assert (A : forallb Regex.any (coerce (VStr (py "2.2.1 ÁGUA"))) = true)
    by (vm_compute; reflexivity).
  split; [exact H|].
  split; [exact (proj1 limpar_categoria_total_ordered (VFloat 2024) H)|].
  split;
    [exact (proj1 (proj2 limpar_categoria_total_ordered) (VFloat 2024) H)|].
  exact (proj1 (proj2 (proj2 limpar_categoria_total_ordered))
           (VStr (py "2.2.1 ÁGUA")) A).
Defined.

(** C2 as stated fails.  In "1 a", line feed, "b" a dotted number leads,
    white space and text follow, and the stated cases give the code "1";
    the function gives no code, since [.+$] does not run over a line feed.
    And a missing cell is [NaN], which is not [None]: its name is "nan",
    not "". *)
Lemma limpar_categoria_quebra_de_linha :
  decompose_stated (VStr (py "1 a" ++ [10%N] ++ py "b"))
  = (py "1", py "a" ++ [10%N] ++ py "b") /\
  _limpar_categoria (VStr (py "1 a" ++ [10%N] ++ py "b"))
  = ([], py "1 a" ++ [10%N] ++ py "b") /\
  isna VNaN = true /\
  _limpar_categoria VNaN = ([], py "nan").
Proof. repeat split; vm_compute; reflexivity. Qed.

(** The cases after the separators, on examples. *)
Example limpar_categoria_codigo_numerico :
  _limpar_categoria (VStr (py "  2.2.1   ÁGUA E ESGOTO "))
  = (py "2.2.1", py "ÁGUA E ESGOTO").
Proof. vm_compute; reflexivity. Qed.

Example limpar_categoria_codigo_letra :
  _limpar_categoria (VStr (py "A1.2 ÁGUA")) = (py "A1.2", py "ÁGUA").
Proof. vm_compute; reflexivity. Qed.

(** Every text that holds " :: " holds ": " too, and ": " comes first in
    the list. *)
Example limpar_categoria_dois_pontos :
  _limpar_categoria (VStr (py "1 :: ÁGUA")) = (py "1 :", py "ÁGUA").
Proof. vm_compute; reflexivity. Qed.

End LimparFacts.

(** ** Cost centres and contacts *)

Module ExtracaoFacts.

Import ProcessadorDados.

(** The column [_processar_centros_custo] reads, when there is one. *)
Definition coluna_centro_custo (dados : DataFrame) : option str :=
  hd_error (filter (fun col => contains (py "centro") (lower col)
                               && contains (py "custo") (lower col))
                   (columns dados)).

Lemma hd_filter_In {A : Type} (f : A -> bool) (l : list A) (x : A) :
  hd_error (filter f l) = Some x -> In x l /\ f x = true.
Proof.
  intros H. apply filter_In. destruct (filter f l); [discriminate|].
  injection H as ->. now left.
Qed.

Lemma getitem_found (f : str -> bool) (c : str) (dados : DataFrame) :
  hd_error (filter f (columns dados)) = Some c ->
  exists v, getitem c dados = Ok v.
Proof.
  intros H. apply hd_filter_In in H as [H _].
  apply getitem_present. now apply has_col_In.
Qed.

(** X1.  On a table with distinct column labels,
    [_processar_centros_custo] does not raise and returns the columns
    Codigo, Nome, Ativo.  Without a column whose name holds both "centro"
    and "custo" the table has no row.  Otherwise Nome holds the values
    present in the first such column, each once (no missing value, no
    value twice, every value present equal to one of them), Codigo counts
    them from 1 and Ativo is "Sim" in every row. *)
Theorem centros_custo_distintos (dados : DataFrame) :
  wf dados ->
  exists out,
    _processar_centros_custo dados = Ok out /\
    columns out = [py "Codigo"; py "Nome"; py "Ativo"] /\
    (coluna_centro_custo dados = None -> index_len out = 0%nat) /\
    (forall c, coluna_centro_custo dados = Some c ->
       exists vals nomes,
         getitem c dados = Ok vals /\
         getitem (py "Nome") out = Ok nomes /\
         index_len out = List.length nomes /\
         getitem (py "Codigo") out = Ok (range1 (List.length nomes)) /\
         getitem (py "Ativo") out
           = Ok (repeat (VStr (py "Sim")) (List.length nomes)) /\
         NoDup nomes /\
         (forall y, In y nomes -> In y vals /\ isna y = false) /\
         (forall x, In x vals -> isna x = false ->
            exists y, In y nomes /\ value_eqb x y = true)).
Proof.
  intros _. unfold _processar_centros_custo, coluna_centro_custo.
  destruct (filter _ (columns dados)) as [|c rest] eqn:F.
  - eexists; split; [reflexivity|]. split; [reflexivity|].
    split; [reflexivity | discriminate].
  - destruct (getitem_found _ c dados (f_equal (@hd_error str) F)) as [vals Hv].
    rewrite Hv; cbn [bind].
    eexists; split; [reflexivity|]. split; [reflexivity|].
    split; [discriminate|]. intros c' [= <-].
    exists vals, (unique (dropna vals)).
    destruct (unique_dropna vals) as [N [I C]].
    split; [exact Hv|]. split; [reflexivity|]. split; [reflexivity|].
    split; [reflexivity|]. split; [reflexivity|]. auto.
Qed.

Definition lancamentos_centros : DataFrame :=
  mkDF 3 [(py "Centro de Custo",
           [VStr (py "Vendas"); VNaN; VStr (py "Vendas")])].

Lemma lancamentos_centros_wf : wf lancamentos_centros.
Proof.
  split; simpl.
  - repeat constructor; simpl; intuition discriminate.
  - repeat constructor.
Defined.

Lemma centros_custo_distintos_witness :
  exists out,
    _processar_centros_custo lancamentos_centros = Ok out /\
    getitem (py "Nome") out = Ok [VStr (py "Vendas")].
Proof.
  destruct (centros_custo_distintos lancamentos_centros
              lancamentos_centros_wf) as [out [Ho [_ [_ H]]]].
  exists out; split; [exact Ho|].
  vm_compute in Ho. injection Ho as <-. reflexivity.
Defined.


(** The column [_processar_contatos] reads, when there is one. *)
Definition coluna_contato (dados : DataFrame) : option str :=
  let por_nome :=
    filter
      (fun col =>
         existsb (fun palavra => contains palavra (lower col))
                 [py "contato"; py "cliente"; py "fornecedor";
                  py "pessoa"; py "empresa"])
      (columns dados) in
  hd_error
    match por_nome with
    | [] => if has_col (py "Contato") dados then [py "Contato"] else []
    | _ => por_nome
    end.

(** X2.  On a table with distinct column labels, [_processar_contatos]
    does not raise.  Without a contact column it returns the empty table
    with the eleven contact columns.  With a contact column of texts and
    missing values, the names are the trimmed texts of the column that are
    not blank (each name is one of them, and each of them is a name), and
    Tipo is 0 in every row; but when no name is left (all values missing
    or blank) the table returned has no column at all. *)
Theorem contatos_nomes (dados : DataFrame) :
  wf dados ->
  exists out,
    _processar_contatos dados = Ok out /\
    (coluna_contato dados = None -> out = empty_frame colunas_contatos) /\
    (forall c, coluna_contato dados = Some c ->
       exists vals nomes,
         getitem c dados = Ok vals /\
         index_len out = List.length nomes /\
         (nomes = [] -> out = mkDF 0 []) /\
         (nomes <> [] ->
          columns out = colunas_contatos /\
          getitem (py "Nome") out = Ok nomes /\
          getitem (py "Tipo") out = Ok (repeat (VInt 0) (List.length nomes))) /\
         (Forall (fun v => isna v = true \/ is_str v = true) vals ->
          (forall y, In y nomes ->
             exists s, In (VStr s) vals /\ y = VStr (strip s) /\
                       strip s <> []) /\
          (forall s, In (VStr s) vals -> strip s <> [] ->
                     In (VStr (strip s)) nomes))).
Proof.
  intros _. unfold _processar_contatos, coluna_contato. cbv zeta.
  set (por_nome := filter _ (columns dados)).
  set (colunas := match por_nome with
                  | [] => if has_col (py "Contato") dados
                          then [py "Contato"] else []
                  | _ :: _ => por_nome
                  end).
  destruct colunas as [|c rest] eqn:Ec.
  - eexists; split; [reflexivity|]. split; [reflexivity | simpl; discriminate].
  - assert (Hc : has_col c dados = true).
    { unfold colunas in Ec. destruct por_nome as [|p ps] eqn:Ep.
      - destruct (has_col (py "Contato") dados) eqn:E; [|discriminate].
        now injection Ec as <- _.
      - injection Ec as <- _. apply has_col_In.
        assert (H : In p por_nome) by (rewrite Ep; now left).
        unfold por_nome in H. now apply filter_In in H. }
    destruct (getitem_present _ _ Hc) as [vals Hv]. rewrite Hv; cbn [bind].
    set (serie := filter (fun x => negb (value_eqb x (VStr []))) (dropna vals)).
    set (fica := fun c0 => negb (isna c0)
                           && negb (PyStr.eqb (strip (py_str c0)) [])).
    set (nomes := List.map (fun c0 => VStr (strip (py_str c0)))
                           (filter fica (unique serie))).
    assert (Hy : forall y, In y nomes ->
              exists v, In v vals /\ isna v = false /\
                        y = VStr (strip (py_str v)) /\ strip (py_str v) <> []).
    { intros y H. apply in_map_iff in H as [v [<- H]].
      apply filter_In in H as [H K]. apply unique_acc_In in H.
      apply filter_In in H as [H _]. apply dropna_In in H as [H Hn].
      exists v. repeat split; auto.
      unfold fica in K. apply andb_true_iff in K as [_ K].
      now apply negb_true_iff, eqb_neq in K. }
    assert (Hs : forall s, In (VStr s) vals -> strip s <> [] ->
                           In (VStr (strip s)) nomes).
    { intros s Hin Hne.
      assert (Hser : In (VStr s) serie).
      { apply filter_In; split; [apply dropna_In; now split|].
        apply negb_true_iff. simpl. apply eqb_neq. intros ->. now apply Hne. }
      destruct (unique_acc_covers serie [] (VStr s) (eqb_refl s) Hser)
        as [H|[y [Hy' He]]]; [discriminate|].
      apply value_eqb_str_l in He; subst y.
      apply (in_map (fun c0 => VStr (strip (py_str c0)))
                    (filter fica (unique serie)) (VStr s)).
      apply filter_In; split; [exact Hy'|].
      unfold fica; simpl. apply negb_true_iff. now apply eqb_neq. }
    destruct nomes as [|n ns] eqn:En.
    + eexists; split; [reflexivity|]. split; [simpl; discriminate|].
      simpl hd_error. intros c' [= <-]. exists vals, [].
      split; [exact Hv|]. split; [reflexivity|]. split; [reflexivity|].
      split; [intros H; now elim H|]. intros Ht. split; [|exact Hs].
      intros y Hin. destruct (Hy y Hin) as [v [Hv1 [Hv2 [Hv3 Hv4]]]].
      rewrite Forall_forall in Ht.
      destruct (Ht v Hv1) as [E|E]; [congruence|].
      destruct (is_str_inv v E) as [s ->]. exists s. now repeat split.
    + eexists; split; [reflexivity|]. split; [simpl; discriminate|].
      simpl hd_error. intros c' [= <-]. exists vals, (n :: ns).
      split; [exact Hv|]. split; [reflexivity|]. split; [discriminate|].
      split; [intros _; repeat split; reflexivity|].
      intros Ht. split; [|exact Hs].
      intros y Hin. destruct (Hy y Hin) as [v [Hv1 [Hv2 [Hv3 Hv4]]]].
      rewrite Forall_forall in Ht.
      destruct (Ht v Hv1) as [E|E]; [congruence|].
      destruct (is_str_inv v E) as [s ->]. exists s. now repeat split.
Qed.

Definition lancamentos_contatos : DataFrame :=
  mkDF 3 [(py "Contato", [VStr (py " Cliente X "); VNaN; VStr (py "  ")])].

Lemma lancamentos_contatos_wf : wf lancamentos_contatos.
Proof.
  split; simpl.
  - repeat constructor; simpl; intuition discriminate.
  - repeat constructor.
Defined.

Lemma contatos_nomes_witness :
  exists out,
    _processar_contatos lancamentos_contatos = Ok out /\
    getitem (py "Nome") out = Ok [VStr (py "Cliente X")].
Proof.
  destruct (contatos_nomes lancamentos_contatos lancamentos_contatos_wf)
    as [out [Ho _]].
  exists out; split; [exact Ho|].
  vm_compute in Ho. injection Ho as <-. reflexivity.
Defined.

End ExtracaoFacts.

(** ** Transfers, and the transactions after the mapping *)

Module ConversaoFacts.

Import ProcessadorDados MapeamentoFacts TransferenciasFacts.

(** The transfers table [_processar_transferencias] completes: the input,
    with the two account columns in place of [Movimentação] when there is
    one. *)
Definition contas_da_movimentacao (dados : DataFrame) : DataFrame :=
  match assoc (py "Movimentação") (cols dados) with
  | Some movs =>
    let pares := List.map separar_movimentacao movs in
    drop (py "Movimentação")
      (mkDF (index_len dados)
         (put (py "Conta Crédito") (List.map snd pares)
            (put (py "Conta Débito") (List.map fst pares) (cols dados))))
  | None => dados
  end.

Lemma contas_da_movimentacao_spec (hoje : Z) (dados : DataFrame) :
  wf dados ->
  _processar_transferencias hoje dados =
  (if empty dados then Ok (empty_frame colunas_obrigatorias)
   else select colunas_obrigatorias
          (preencher_obrigatorias hoje (contas_da_movimentacao dados))) /\
  wf (contas_da_movimentacao dados) /\
  index_len (contas_da_movimentacao dados) = index_len dados.
Proof.
  intros Hwf. unfold _processar_transferencias, contas_da_movimentacao.
  destruct (has_col (py "Movimentação") dados) eqn:Hm.
  - destruct (getitem_present _ _ Hm) as [movs Hv]. rewrite Hv; cbn [bind].
    pose proof (getitem_length _ _ _ Hwf Hv) as Hl.
    unfold getitem in Hv.
    destruct (assoc (py "Movimentação") (cols dados)) as [m0|]; [|discriminate].
    injection Hv as ->. cbv zeta.
    rewrite setitem_list_wf by (now rewrite !length_map). cbn [bind].
    rewrite setitem_list_wf by (cbn [index_len]; now rewrite !length_map).
    cbn [bind index_len cols].
    split; [reflexivity|]. split; [|reflexivity].
    apply drop_wf.
    apply (wf_put _ _ (mkDF (index_len dados)
                         (put (py "Conta Débito")
                              (List.map fst (List.map separar_movimentacao movs))
                              (cols dados)))).
    + apply wf_put; [exact Hwf | now rewrite !length_map].
    + cbn [index_len]. now rewrite !length_map.
  - apply mem_false, assoc_None in Hm. rewrite Hm. cbn [bind]. auto.
Qed.

(** What [_processar_transferencias] returns, column by column. *)
Lemma _processar_transferencias_closed (hoje : Z) (dados : DataFrame) :
  wf dados ->
  exists out,
    _processar_transferencias hoje dados = Ok out /\
    columns out = colunas_obrigatorias /\
    index_len out = (if empty dados then 0%nat else index_len dados) /\
    (empty dados = false ->
     forall c, In c colunas_obrigatorias ->
       getitem c out =
       Ok (match assoc c (cols (contas_da_movimentacao dados)) with
           | Some v => v
           | None => repeat (padrao_obrigatoria hoje c) (index_len dados)
           end)).
Proof.
  intros Hwf.
  destruct (contas_da_movimentacao_spec hoje dados Hwf) as [E [W I]].
  rewrite E. destruct (empty dados) eqn:He.
  - eexists; split; [reflexivity|]. split; [reflexivity|].
    split; [reflexivity | discriminate].
  - destruct (finalizar_transferencias hoje _ W) as [out [Ho [Hi [Hc Hg]]]].
    exists out. split; [exact Ho|]. split; [exact Hc|].
    split; [congruence|]. intros _ c Hin. rewrite (Hg c Hin). now rewrite I.
Qed.

(** X3.  For a transfers table with distinct column labels,
    [_processar_transferencias] does not raise and returns the five required
    columns, and no other, with the rows of the input (none when the
    input is empty).  Data, Valor and Descrição keep the cells of the
    input; a column the input lacks holds its default in every row: the
    day of the run for Data, 0.0 for Valor, "" for the others.  Without a
    column [Movimentação] the two account columns are kept in the same
    way. *)
Theorem transferencias_colunas (hoje : Z) (dados : DataFrame) :
  wf dados ->
  exists out,
    _processar_transferencias hoje dados = Ok out /\
    columns out = colunas_obrigatorias /\
    index_len out = (if empty dados then 0%nat else index_len dados) /\
    (empty dados = false ->
     forall c,
       In c [py "Data"; py "Valor"; py "Descrição"] \/
       (has_col (py "Movimentação") dados = false /\
        In c [py "Conta Débito"; py "Conta Crédito"]) ->
       getitem c out =
       Ok (match assoc c (cols dados) with
           | Some v => v
           | None =>
             repeat (if PyStr.eqb c (py "Data")
                     then VStr (Date.strftime_dmy hoje)
                     else if PyStr.eqb c (py "Valor") then VFloat 0
                     else VStr [])
                    (index_len dados)
           end)).
Proof.
  intros Hwf.
  destruct (_processar_transferencias_closed hoje dados Hwf)
    as [out [Ho [Hc [Hi Hg]]]].
  exists out. split; [exact Ho|]. split; [exact Hc|]. split; [exact Hi|].
  intros He c Hin. fold (padrao_obrigatoria hoje c).
  assert (Hob : In c colunas_obrigatorias).
  { destruct Hin as [H|[_ H]]; simpl in H; simpl; tauto. }
  rewrite (Hg He c Hob). do 2 f_equal.
  unfold contas_da_movimentacao.
  destruct (assoc (py "Movimentação") (cols dados)) as [movs|] eqn:Em;
    [|reflexivity].
  destruct Hin as [H|[H _]].
  - cbn [drop cols]. rewrite assoc_drop.
    assert (N1 : py "Movimentação" <> c)
      by (intros <-; simpl in H; intuition discriminate).
    assert (N2 : py "Conta Crédito" <> c)
      by (intros <-; simpl in H; intuition discriminate).
    assert (N3 : py "Conta Débito" <> c)
      by (intros <-; simpl in H; intuition discriminate).
    apply eqb_neq in N1. rewrite N1.
    rewrite assoc_put_other by exact N2.
    now rewrite assoc_put_other by exact N3.
  - apply mem_false, assoc_None in H. congruence.
Qed.

Definition transferencias_sem_movimentacao : DataFrame :=
  mkDF 2 [(py "Valor", [VInt 500; VInt 750]);
          (py "Conta Débito", [VStr (py "Banco A"); VStr (py "Caixa")]);
          (py "Observação", [VStr (py "x"); VStr (py "y")])].

Lemma transferencias_sem_movimentacao_wf : wf transferencias_sem_movimentacao.
Proof.
  split; simpl.
  - repeat constructor; simpl; intuition discriminate.
  - repeat constructor.
Defined.

Lemma transferencias_colunas_witness :
  exists out,
    _processar_transferencias 19723 transferencias_sem_movimentacao = Ok out /\
    columns out = colunas_obrigatorias /\
    getitem (py "Conta Débito") out
    = Ok [VStr (py "Banco A"); VStr (py "Caixa")] /\
    getitem (py "Data") out
    = Ok [VStr (py "01/01/2024"); VStr (py "01/01/2024")].
Proof.
  destruct (transferencias_colunas 19723 transferencias_sem_movimentacao
              transferencias_sem_movimentacao_wf)
    as [out [Ho [Hc _]]].
  exists out; split; [exact Ho|]. split; [exact Hc|].
  vm_compute in Ho. injection Ho as <-. split; reflexivity.
Defined.

(** The transactions after [_aplicar_mapeamento_categorias]. *)
Definition mapeados (dados : DataFrame) (mapeamento : list (str * str))
  : DataFrame :=
  match coluna_categoria dados with
  | Some c =>
    mkDF (index_len dados)
         (List.map
            (fun p => if PyStr.eqb (fst p) c
                      then (fst p, List.map (substituir mapeamento) (snd p))
                      else p)
            (cols dados))
  | None => dados
  end.

Lemma _aplicar_mapeamento_categorias_mapeados (dados : DataFrame)
    (mapeamento : list (str * str)) :
  wf dados ->
  _aplicar_mapeamento_categorias dados mapeamento
  = Ok (mapeados dados mapeamento) /\
  wf (mapeados dados mapeamento).
Proof.
  intros Hwf. pose proof Hwf as [Hnd Hlen].
  unfold _aplicar_mapeamento_categorias, mapeados, coluna_categoria.
  destruct (filter e_coluna_categoria (columns dados)) as [|cat rest] eqn:F.
  - split; [reflexivity | exact Hwf].
  - assert (Hin : In cat (columns dados)).
    { assert (H : In cat (filter e_coluna_categoria (columns dados)))
        by (rewrite F; now left).
      now apply filter_In in H. }
    rewrite (aplicar_mapeamento_closed _ _ _ Hnd Hin). cbn [hd_error].
    split; [reflexivity|]. split; cbn [cols index_len].
    + rewrite map_map. erewrite map_ext; [exact Hnd|].
      intros [x w]; simpl; now destruct (PyStr.eqb x cat).
    + apply Forall_map. eapply Forall_impl; [|exact Hlen].
      intros [x w] H; simpl in *. destruct (PyStr.eqb x cat); simpl; [|exact H].
      now rewrite length_map.
Qed.

End ConversaoFacts.

(** ** The order of the labels returned *)

Module OrdemFacts.

Import MapeadorCategorias InconsistentesFacts.

Lemma str_ltb_irrefl (a : str) : str_ltb a a = false.
Proof.
  induction a as [|x a IH]; simpl; [reflexivity|].
  now rewrite N.ltb_irrefl, N.eqb_refl, IH.
Qed.

Lemma str_ltb_trans (a b c : str) :
  str_ltb a b = true -> str_ltb b c = true -> str_ltb a c = true.
Proof.
  revert b c; induction a as [|x a IH]; intros [|y b] [|z c]; simpl;
    try discriminate; try reflexivity.
  intros H1 H2.
  apply orb_true_iff in H1 as [H1|H1]; apply orb_true_iff in H2 as [H2|H2];
    apply orb_true_iff.
  - left. apply N.ltb_lt in H1, H2. apply N.ltb_lt. lia.
  - apply andb_true_iff in H2 as [E _]. apply N.eqb_eq in E; subst.
    now left.
  - apply andb_true_iff in H1 as [E _]. apply N.eqb_eq in E; subst.
    now left.
  - apply andb_true_iff in H1 as [E1 H1]. apply andb_true_iff in H2 as [E2 H2].
    apply N.eqb_eq in E1, E2; subst. right.
    rewrite N.eqb_refl. simpl. now apply (IH b c).
Qed.

Lemma str_ltb_total (a b : str) :
  str_ltb a b = true \/ a = b \/ str_ltb b a = true.
Proof.
  revert b; induction a as [|x a IH]; intros [|y b]; simpl; auto.
  destruct (N.lt_trichotomy x y) as [H|[H|H]].
  - left. apply N.ltb_lt in H. now rewrite H.
  - subst y. rewrite N.ltb_irrefl, N.eqb_refl. simpl.
    destruct (IH b) as [H|[H|H]]; [now left | right; left; congruence
                                   | now right; right].
  - right; right. apply N.ltb_lt in H. now rewrite H.
Qed.

Lemma str_ltb_asym (a b : str) : str_ltb a b = true -> str_ltb b a = false.
Proof.
  intros H. destruct (str_ltb b a) eqn:E; [|reflexivity].
  pose proof (str_ltb_trans _ _ _ H E) as C.
  now rewrite str_ltb_irrefl in C.
Qed.

(** [a <= b] on texts: [b < a] does not hold. *)
Definition nao_depois (a b : value) : Prop := value_ltb b a = false.

Lemma nao_depois_trans (a b c : value) :
  is_str a = true -> is_str b = true -> is_str c = true ->
  nao_depois a b -> nao_depois b c -> nao_depois a c.
Proof.
  intros Ha Hb Hc. destruct (is_str_inv a Ha) as [s ->].
  destruct (is_str_inv b Hb) as [t ->]. destruct (is_str_inv c Hc) as [u ->].
  unfold nao_depois; simpl. intros H1 H2.
  destruct (str_ltb u s) eqn:E; [|reflexivity].
  destruct (str_ltb_total s t) as [H|[H|H]].
  - pose proof (str_ltb_trans _ _ _ E H) as C. congruence.
  - subst t. congruence.
  - congruence.
Qed.

Lemma insert_sorted_sorted (x : value) (l : list value) :
  is_str x = true -> Forall (fun v => is_str v = true) l ->
  StronglySorted nao_depois l -> StronglySorted nao_depois (insert_sorted x l).
Proof.
  intros Hx Hs Hl. induction Hl as [|y l Hl IH Hy]; simpl.
  - repeat constructor.
  - inversion Hs as [|? ? Sy Sl]; subst.
    destruct (value_ltb x y) eqn:E.
    + assert (Hxy : nao_depois x y).
      { destruct (is_str_inv x Hx) as [s ->].
        destruct (is_str_inv y Sy) as [t ->].
        unfold nao_depois; simpl in *. now apply str_ltb_asym. }
      constructor; [now constructor|].
      constructor; [exact Hxy|].
      rewrite Forall_forall in *. intros z Hz.
      apply (nao_depois_trans x y z); auto.
    + constructor; [now apply IH|].
      apply Forall_forall. intros z Hz.
      apply (Permutation_in _ (Permutation_sym (insert_sorted_perm x l))) in Hz.
      destruct Hz as [<-|Hz]; [exact E|].
      rewrite Forall_forall in Hy; auto.
Qed.

Lemma insert_sorted_str (x : value) (l : list value) :
  is_str x = true -> Forall (fun v => is_str v = true) l ->
  Forall (fun v => is_str v = true) (insert_sorted x l).
Proof.
  intros Hx Hl. apply Forall_forall. intros z Hz.
  apply (Permutation_in _ (Permutation_sym (insert_sorted_perm x l))) in Hz.
  destruct Hz as [<-|Hz]; [exact Hx|]. rewrite Forall_forall in Hl; auto.
Qed.

Lemma sort_sorted (l acc : list value) :
  Forall (fun v => is_str v = true) l ->
  Forall (fun v => is_str v = true) acc ->
  StronglySorted nao_depois acc ->
  StronglySorted nao_depois (fold_left (fun acc x => insert_sorted x acc) l acc).
Proof.
  revert acc; induction l as [|x l IH]; intros acc Hl Ha Hs; simpl;
    [exact Hs|].
  inversion Hl; subst. apply IH; auto.
  - now apply insert_sorted_str.
  - now apply insert_sorted_sorted.
Qed.

(** [sorted] on texts gives an ascending list. *)
Lemma sorted_str_sorted (l l' : list value) :
  Forall (fun v => is_str v = true) l -> sorted l = Ok l' ->
  StronglySorted nao_depois l'.
Proof.
  intros H. unfold sorted.
  destruct l as [|a [|b l]];
    [intros [= <-]; constructor
    |intros [= <-]; repeat constructor|].
  destruct (forallb _ _); [|discriminate].
  intros [= <-].
  apply (sort_sorted (a :: b :: l) []); [exact H | constructor | constructor].
Qed.

(** Without repetition, ascending is strictly ascending. *)
Lemma strictly_sorted (l : list value) :
  Forall (fun v => is_str v = true) l -> NoDup l ->
  StronglySorted nao_depois l ->
  StronglySorted (fun a b => value_ltb a b = true) l.
Proof.
  intros Hs Hn Hl. induction Hl as [|y l Hl IH Hy]; [constructor|].
  inversion Hs as [|? ? Sy Sl]; subst.
  inversion Hn as [|? ? Ny Nl]; subst.
  constructor; [now apply IH|].
  apply Forall_forall. intros z Hz.
  rewrite Forall_forall in Hy, Sl.
  pose proof (Hy z Hz) as H. pose proof (Sl z Hz) as Sz.
  destruct (is_str_inv y Sy) as [s ->]. destruct (is_str_inv z Sz) as [t ->].
  unfold nao_depois in H; simpl in *.
  destruct (str_ltb_total s t) as [K|[K|K]]; [exact K | | congruence].
  subst t. contradiction.
Qed.

(** The analysis of [encontrar_categorias_inconsistentes] on labels that
    are texts or missing: the labels found, before and after sorting. *)
Lemma analisar_textos
    (dados_lancamentos dados_categorias : DataFrame)
    (manual_lancamentos manual_plano : option str)
    (col_plano : str) (labels entradas : list value) :
  wf dados_categorias ->
  getitem (coluna_lancamentos manual_lancamentos) dados_lancamentos
    = Ok labels ->
  coluna_plano dados_categorias manual_plano = Some col_plano ->
  getitem col_plano dados_categorias = Ok entradas ->
  Forall (fun v => isna v = true \/ is_str v = true) labels ->
  exists dif l,
    encontrar_categorias_inconsistentes dados_lancamentos dados_categorias
      manual_lancamentos manual_plano = ([], Ok l) /\
    sorted dif = Ok l /\ Permutation dif l /\
    Forall (fun v => is_str v = true) dif /\ NoDup dif /\
    forall x, In x dif <->
              In x labels /\ isna x = false /\
              ~ In x (List.map nome_limpo entradas).
Proof.
  intros Hwf Hl Hp Hc Hs.
  rewrite (analisar_colunas _ _ _ _ _ _ _ Hwf Hl Hp Hc).
  set (nomes := List.map nome_limpo entradas).
  destruct (set_difference_dropna labels nomes) as [Nd [Id [Cd _]]].
  set (dif := set_difference (unique (dropna labels))
                             (unique (dropna nomes))) in *.
  assert (Tx : forall x, In x labels -> isna x = false ->
                         exists s, x = VStr s).
  { intros x Hx Hn. rewrite Forall_forall in Hs.
    destruct (Hs x Hx) as [E|E]; [congruence | now apply is_str_inv]. }
  assert (Sd : Forall (fun v => is_str v = true) dif).
  { apply Forall_forall; intros x Hx.
    destruct (Id x Hx) as [H1 [H2 _]]. now destruct (Tx x H1 H2) as [s ->]. }
  destruct (sorted_str dif Sd) as [l [Hsort Hperm]].
  rewrite Hsort. exists dif, l.
  split; [reflexivity|]. split; [exact Hsort|]. split; [exact Hperm|].
  split; [exact Sd|]. split; [exact Nd|].
  intros x. split.
  - intros Hx. destruct (Id x Hx) as [H1 [H2 H3]].
    destruct (Tx x H1 H2) as [s ->].
    apply value_mem_str_false in H3. now repeat split.
  - intros [H1 [H2 H3]]. destruct (Tx x H1 H2) as [s ->].
    destruct (Cd (VStr s) H1 H2) as [y [Hy E]];
      [now apply value_mem_str_false|].
    apply value_eqb_str_l in E. now subst y.
Qed.

(** X4.  When the two tables have distinct column labels, the two
    category columns exist, the chart entries are values that [str()]
    prints as modelled and the labels of the transactions are texts or
    missing, the list [encontrar_categorias_inconsistentes] returns is in
    strictly ascending order of code points: every label comes before all
    the labels after it. *)
Theorem inconsistentes_em_ordem
    (dados_lancamentos dados_categorias : DataFrame)
    (manual_lancamentos manual_plano : option str)
    (col_plano : str) (labels entradas : list value) :
  wf dados_lancamentos ->
  wf dados_categorias ->
  getitem (coluna_lancamentos manual_lancamentos) dados_lancamentos
    = Ok labels ->
  coluna_plano dados_categorias manual_plano = Some col_plano ->
  getitem col_plano dados_categorias = Ok entradas ->
  Forall (fun v => str_exact v = true) entradas ->
  Forall (fun v => isna v = true \/ is_str v = true) labels ->
  exists textos,
    encontrar_categorias_inconsistentes dados_lancamentos dados_categorias
      manual_lancamentos manual_plano = ([], Ok (List.map VStr textos)) /\
    StronglySorted (fun a b => str_ltb a b = true) textos.
Proof.
  intros _ Hwf Hl Hp Hc _ Hs.
  destruct (analisar_textos _ _ _ _ _ _ _ Hwf Hl Hp Hc Hs)
    as [dif [l [He [Hsort [Hperm [Sd [Nd _]]]]]]].
  assert (Sl : Forall (fun v => is_str v = true) l).
  { apply Forall_forall; intros x Hx.
    apply (Permutation_in _ (Permutation_sym Hperm)) in Hx.
    rewrite Forall_forall in Sd; auto. }
  pose proof (strictly_sorted l Sl (Permutation_NoDup Hperm Nd)
                (sorted_str_sorted dif l Sd Hsort)) as St.
  rewrite He. clear He Hsort Hperm.
  induction l as [|x l IH].
  - exists []; split; [reflexivity | constructor].
  - inversion Sl as [|? ? Sx Sl']; subst.
    inversion St as [|? ? St' Hx]; subst.
    destruct (IH Sl' St') as [ts [E T]].
    destruct (is_str_inv x Sx) as [s ->].
    exists (s :: ts). injection E as E. split; [simpl; now rewrite E|].
    constructor; [exact T|].
    apply Forall_forall. intros t Ht.
    rewrite Forall_forall in Hx. apply (Hx (VStr t)).
    rewrite E. now apply in_map.
Qed.

Definition lancamentos_fora_de_ordem : DataFrame :=
  mkDF 3 [(py "Categoria", [VStr (py "Receita Vendas");
                            VStr (py "Agua"); VStr (py "Despesa X")])].

Lemma lancamentos_fora_de_ordem_wf : wf lancamentos_fora_de_ordem.
Proof.
  split; simpl.
  - repeat constructor; simpl; intuition discriminate.
  - repeat constructor.
Defined.

Lemma inconsistentes_em_ordem_witness :
  exists textos,
    encontrar_categorias_inconsistentes lancamentos_fora_de_ordem
      plano_rotulos None None = ([], Ok (List.map VStr textos)) /\
    StronglySorted (fun a b => str_ltb a b = true) textos.
Proof.
  assert (P : coluna_plano plano_rotulos None = Some (py "Nome"))
    by (vm_compute; reflexivity).
  assert (E : Forall (fun v => str_exact v = true)
                [VStr (py "2.01 - Despesa X"); VStr (py "Outra")])
    by (repeat constructor).
  assert (T : Forall (fun v => isna v = true \/ is_str v = true)
                [VStr (py "Receita Vendas"); VStr (py "Agua");
                 VStr (py "Despesa X")])
    by (repeat (apply Forall_cons; [right; reflexivity|]); apply Forall_nil).
  exact (inconsistentes_em_ordem lancamentos_fora_de_ordem plano_rotulos
           None None (py "Nome") _ _
           lancamentos_fora_de_ordem_wf plano_rotulos_wf
           eq_refl P eq_refl E T).
Defined.

End OrdemFacts.

(** ** Valid categories, validation and the second analysis *)

Module ValidacaoFacts.

Import MapeadorCategorias MapeadorValidacao InconsistentesFacts OrdemFacts.
Import ProcessadorDados MapeamentoFacts ConversaoFacts.

Lemma nao_vazias_str (l : list value) :
  Forall (fun v => is_str v = true) l ->
  nao_vazias l =
  Some (filter (fun v => negb (PyStr.eqb (strip (py_str v)) [])) l).
Proof.
  induction 1 as [|v l Hv Hl IH]; [reflexivity|].
  destruct (is_str_inv v Hv) as [s ->]. simpl. rewrite IH.
  now destruct (PyStr.eqb (strip s) []).
Qed.

(** What [obter_categorias_validas] returns for a chart whose category
    column is found, before and after sorting. *)
Lemma obter_categorias_validas_textos (dados_categorias : DataFrame)
    (manual : option str) (col : str) (entradas : list value) :
  wf dados_categorias ->
  coluna_plano dados_categorias manual = Some col ->
  getitem col dados_categorias = Ok entradas ->
  exists vs l,
    obter_categorias_validas dados_categorias manual = ([], l) /\
    sorted vs = Ok l /\ Permutation vs l /\
    Forall (fun v => is_str v = true) vs /\ NoDup vs /\
    forall x, In x vs <->
              In x (List.map nome_limpo entradas) /\
              strip (py_str x) <> [].
Proof.
  intros Hwf Hp Hc. unfold obter_categorias_validas.
  fold (coluna_plano dados_categorias manual). rewrite Hp.
  destruct (_processar_categorias_com_codigo_nomes dados_categorias col
              entradas Hwf Hc) as [proc [Hproc Hn]].
  rewrite Hproc; cbn [bind]. rewrite Hn.
  set (nomes := List.map nome_limpo entradas).
  assert (Sn : Forall (fun v => is_str v = true) nomes)
    by (apply Forall_forall; intros x Hx; apply in_map_iff in Hx
          as [c [<- _]]; reflexivity).
  assert (Sdn : Forall (fun v => is_str v = true) (dropna nomes)).
  { apply dropna_str. apply Forall_forall; intros x Hx. right.
    rewrite Forall_forall in Sn; auto. }
  destruct (unique_str (dropna nomes) Sdn) as [In_ Nn].
  assert (Su : Forall (fun v => is_str v = true) (unique (dropna nomes)))
    by (apply Forall_forall; intros x Hx; apply In_ in Hx;
        rewrite Forall_forall in Sdn; auto).
  rewrite (nao_vazias_str _ Su).
  set (vs := filter _ (unique (dropna nomes))).
  assert (Sv : Forall (fun v => is_str v = true) vs).
  { apply Forall_forall; intros x Hx. apply filter_In in Hx as [Hx _].
    rewrite Forall_forall in Su; auto. }
  destruct (sorted_str vs Sv) as [l [Hsort Hperm]]. rewrite Hsort.
  exists vs, l. split; [reflexivity|]. split; [exact Hsort|].
  split; [exact Hperm|]. split; [exact Sv|].
  split; [now apply NoDup_filter|].
  intros x. unfold vs. rewrite filter_In, In_, dropna_In, negb_true_iff, eqb_neq.
  split; [tauto|]. intros [H1 H2]. split; [|exact H2]. split; [exact H1|].
  rewrite Forall_forall in Sn. destruct (is_str_inv x (Sn x H1)) as [s ->].
  reflexivity.
Qed.

(** X5.  For a chart with distinct column labels whose category column is
    found and holds values that [str()] prints as modelled,
    [obter_categorias_validas] shows no error and returns, in strictly
    ascending order of code points and so without repetition, exactly the
    clean names of the chart entries that are not blank. *)
Theorem categorias_validas_exatas (dados_categorias : DataFrame)
    (manual : option str) (col : str) (entradas : list value) :
  wf dados_categorias ->
  coluna_plano dados_categorias manual = Some col ->
  getitem col dados_categorias = Ok entradas ->
  Forall (fun v => str_exact v = true) entradas ->
  exists textos,
    obter_categorias_validas dados_categorias manual
      = ([], List.map VStr textos) /\
    StronglySorted (fun a b => str_ltb a b = true) textos /\
    forall s, In s textos <->
              (exists entrada, In entrada entradas /\
                               snd (_limpar_categoria entrada) = s) /\
              strip s <> [].
Proof.
  intros Hwf Hp Hc _.
  destruct (obter_categorias_validas_textos _ _ _ _ Hwf Hp Hc)
    as [vs [l [He [Hsort [Hperm [Sv [Nv Hin]]]]]]].
  assert (Sl : Forall (fun v => is_str v = true) l).
  { apply Forall_forall; intros x Hx.
    apply (Permutation_in _ (Permutation_sym Hperm)) in Hx.
    rewrite Forall_forall in Sv; auto. }
  pose proof (strictly_sorted l Sl (Permutation_NoDup Hperm Nv)
                (sorted_str_sorted vs l Sv Hsort)) as St.
  assert (Hl : forall x, In x l <->
                 In x (List.map nome_limpo entradas) /\ strip (py_str x) <> []).
  { intros x. rewrite <- Hin. split; apply Permutation_in;
      [now apply Permutation_sym | exact Hperm]. }
  rewrite He. clear He Hsort Hperm Hin.
  assert (Ht : exists ts, l = List.map VStr ts /\
                          StronglySorted (fun a b => str_ltb a b = true) ts).
  { clear Hl. induction l as [|x l IH].
    - exists []; split; [reflexivity | constructor].
    - inversion Sl as [|? ? Sx Sl']; subst.
      inversion St as [|? ? St' Hx]; subst.
      destruct (IH Sl' St') as [ts [E T]].
      destruct (is_str_inv x Sx) as [s ->].
      exists (s :: ts). split; [simpl; now rewrite E|].
      constructor; [exact T|].
      apply Forall_forall. intros t Ht.
      rewrite Forall_forall in Hx. apply (Hx (VStr t)).
      rewrite E. now apply in_map. }
  destruct Ht as [ts [-> T]]. exists ts.
  split; [reflexivity|]. split; [exact T|].
  intros s. split.
  - intros Hs. apply (in_map VStr) in Hs. apply Hl in Hs as [H1 H2].
    split; [|exact H2]. apply in_map_iff in H1 as [e [E1 E2]].
    exists e. split; [exact E2|]. unfold nome_limpo in E1. congruence.
  - intros [[e [E1 E2]] H2].
    assert (H : In (VStr s) (List.map VStr ts)).
    { apply Hl. split; [|exact H2]. apply in_map_iff. exists e.
      split; [|exact E1]. unfold nome_limpo. now rewrite E2. }
    apply in_map_iff in H as [t [[= ->] Ht]]. exact Ht.
Qed.

Lemma categorias_validas_exatas_witness :
  exists textos,
    obter_categorias_validas plano_rotulos None
      = ([], List.map VStr textos) /\
    textos = [py "Despesa X"; py "Outra"].
Proof.
  assert (P : coluna_plano plano_rotulos None = Some (py "Nome"))
    by (vm_compute; reflexivity).
  assert (E : Forall (fun v => str_exact v = true)
                [VStr (py "2.01 - Despesa X"); VStr (py "Outra")])
    by (repeat constructor).
  destruct (categorias_validas_exatas plano_rotulos None (py "Nome")
              [VStr (py "2.01 - Despesa X"); VStr (py "Outra")]
              plano_rotulos_wf P eq_refl E)
    as [textos [H _]].
  exists textos. split; [exact H|].
  vm_compute in H. injection H as H.
  assert (I : forall a b : list str, List.map VStr a = List.map VStr b -> a = b).
  { induction a as [|x a IH]; intros [|y b]; simpl; try discriminate;
      [reflexivity|]. intros [= -> H']. f_equal. now apply IH. }
  symmetry. apply I. exact H.
Defined.

(** *** Validation *)

Lemma unique_acc_cobre (l seen : list value) (x : value) :
  In x l ->
  value_mem x seen = true \/
  exists y, In y (unique_acc seen l) /\ (y = x \/ value_eqb x y = true).
Proof.
  revert seen; induction l as [|a l IH]; intros seen H; [contradiction|].
  simpl. destruct H as [<-|H].
  - destruct (value_mem a seen) eqn:E; [now left|].
    right. exists a. split; [now left | now left].
  - destruct (value_mem a seen) eqn:E; [now apply IH|].
    destruct (IH (a :: seen) H) as [K|[y [K1 K2]]].
    + simpl in K. apply orb_true_iff in K as [K|K]; [|now left].
      right. exists a. split; [now left | now right].
    + right. exists y. split; [now right | exact K2].
Qed.

Lemma mem_chaves (x : value) (mapeamento : list (str * str)) :
  value_mem x (List.map (fun p => VStr (fst p)) mapeamento) = true <->
  exists k, x = VStr k /\ In k (List.map fst mapeamento).
Proof.
  unfold value_mem. rewrite existsb_exists. split.
  - intros [y [Hy E]]. apply in_map_iff in Hy as [[k v] [<- Hp]].
    apply value_eqb_str in E. exists k. split; [exact E|].
    now apply (in_map fst) in Hp.
  - intros [k [-> Hk]]. exists (VStr k). split.
    + apply in_map_iff in Hk as [[k' v] [E Hp]]. simpl in E; subst k'.
      apply in_map_iff. now exists (k, v).
    + now apply value_eqb_str.
Qed.

Lemma faltantes_nil (mapeamento : list (str * str)) (incons : list value) :
  set_difference incons (List.map (fun p => VStr (fst p)) mapeamento) = [] <->
  forall x, In x incons ->
            exists k, x = VStr k /\ In k (List.map fst mapeamento).
Proof.
  unfold set_difference. split.
  - intros H x Hx.
    assert (Hall : forall y, In y (unique incons) ->
              value_mem y (List.map (fun p => VStr (fst p)) mapeamento) = true).
    { intros y Hy.
      destruct (value_mem y _) eqn:E; [reflexivity|].
      assert (K : In y (filter
                          (fun x => negb (value_mem x
                             (List.map (fun p => VStr (fst p)) mapeamento)))
                          (unique incons)))
        by (apply filter_In; split; [exact Hy | now rewrite E]).
      rewrite H in K. contradiction. }
    destruct (unique_acc_cobre incons [] x Hx) as [K|[y [K1 [->|K2]]]];
      [discriminate | now apply mem_chaves, Hall |].
    apply Hall, mem_chaves in K1 as [k [-> Hk]].
    apply value_eqb_str in K2. now exists k.
  - intros H.
    destruct (filter _ (unique incons)) as [|y r] eqn:F; [reflexivity|].
    assert (K : In y (filter
                        (fun x => negb (value_mem x
                           (List.map (fun p => VStr (fst p)) mapeamento)))
                        (unique incons)))
      by (rewrite F; now left).
    apply filter_In in K as [K1 K2]. apply unique_acc_In in K1.
    apply H, mem_chaves in K1. now rewrite K1 in K2.
Qed.

Lemma validar_completo_chaves (mapeamento : list (str * str))
    (incons : list value) (a : aviso) :
  validar_mapeamento_completo mapeamento incons = Ok (a, true) ->
  forall x, In x incons ->
            exists k, x = VStr k /\ In k (List.map fst mapeamento).
Proof.
  unfold validar_mapeamento_completo. intros H. apply faltantes_nil.
  destruct (set_difference _ _) as [|f fs]; [reflexivity|].
  destruct (forallb is_str (f :: fs)); discriminate.
Qed.

(** X6.  [validar_mapeamento_completo] answers True exactly when every
    label to be mapped is a key of the mapping and no value of the mapping
    is blank; the blank value of a key that was not to be mapped makes it
    answer False all the same. *)
Theorem validar_completo_sse (mapeamento : list (str * str))
    (categorias_inconsistentes : list value) :
  (exists a, validar_mapeamento_completo mapeamento categorias_inconsistentes
             = Ok (a, true)) <->
  (forall x, In x categorias_inconsistentes ->
             exists k, x = VStr k /\ In k (List.map fst mapeamento)) /\
  (forall k v, In (k, v) mapeamento -> v <> []).
Proof.
  unfold validar_mapeamento_completo.
  rewrite <- faltantes_nil.
  destruct (set_difference _ _) as [|f fs].
  - destruct (List.map fst (filter _ mapeamento)) as [|k ks] eqn:F.
    + split; [|intros _; eexists; reflexivity].
      intros _. split; [reflexivity|]. intros k v Hin ->.
      assert (K : In k (List.map fst
                          (filter (fun p => PyStr.eqb (snd p) []) mapeamento))).
      { apply in_map_iff. exists (k, []). split; [reflexivity|].
        apply filter_In. split; [exact Hin | reflexivity]. }
      rewrite F in K. contradiction.
    + split; [intros [a H]; discriminate|].
      intros [_ H]. exfalso.
      assert (K : In k (List.map fst
                          (filter (fun p => PyStr.eqb (snd p) []) mapeamento)))
        by (rewrite F; now left).
      apply in_map_iff in K as [[k' v] [_ K]].
      apply filter_In in K as [K1 K2]. simpl in K2. apply eqb_eq in K2.
      now apply (H k' v).
  - split; [|intros [H _]; discriminate].
    intros [a H]. destruct (forallb is_str (f :: fs)); discriminate.
Qed.

(** *** The second analysis *)

Lemma substituir_casos (mapeamento : list (str * str)) (v : value) :
  (substituir mapeamento v = v /\
   forall k, In k (List.map fst mapeamento) -> v <> VStr k) \/
  (exists w, In w (List.map snd mapeamento) /\
             substituir mapeamento v = VStr w).
Proof.
  revert v; induction mapeamento as [|[a n] m IH]; intros v.
  - left; split; [reflexivity | intros k []].
  - unfold substituir; simpl. fold (substituir m).
    destruct (value_eqb v (VStr a)) eqn:E.
    + right. destruct (IH (VStr n)) as [[H _]|[w [Hw H]]].
      * exists n. split; [now left | exact H].
      * exists w. split; [now right | exact H].
    + destruct (IH v) as [[H K]|[w [Hw H]]].
      * left. split; [exact H|]. intros k [<-|Hk]; [|now apply K].
        intros ->. simpl in E. now rewrite eqb_refl in E.
      * right. exists w. split; [now right | exact H].
Qed.

(** X7.  The reconciliation closes.  On tables with distinct column
    labels, with labels that are texts or missing and chart entries that
    [str()] prints as modelled, take the labels
    [encontrar_categorias_inconsistentes] reports, a mapping that
    [validar_mapeamento_completo] accepts for them and whose values are
    among the categories [obter_categorias_validas] offers, and apply it
    with [_aplicar_mapeamento_categorias]: when the column the mapping is
    applied to is the column that was analysed, the analysis of the mapped
    transactions shows no error and reports no label at all. *)
Theorem reconciliacao_completa
    (lanc cat : DataFrame) (manual_lancamentos manual_plano : option str)
    (col_plano : str) (labels entradas incons validas : list value)
    (mapeamento : list (str * str)) (a : aviso) :
  wf lanc -> wf cat ->
  coluna_categoria lanc = Some (coluna_lancamentos manual_lancamentos) ->
  getitem (coluna_lancamentos manual_lancamentos) lanc = Ok labels ->
  Forall (fun v => isna v = true \/ is_str v = true) labels ->
  coluna_plano cat manual_plano = Some col_plano ->
  getitem col_plano cat = Ok entradas ->
  Forall (fun v => str_exact v = true) entradas ->
  encontrar_categorias_inconsistentes lanc cat manual_lancamentos manual_plano
    = ([], Ok incons) ->
  obter_categorias_validas cat manual_plano = ([], validas) ->
  validar_mapeamento_completo mapeamento incons = Ok (a, true) ->
  (forall k v, In (k, v) mapeamento -> In (VStr v) validas) ->
  exists lanc_mapeados,
    _aplicar_mapeamento_categorias lanc mapeamento = Ok lanc_mapeados /\
    encontrar_categorias_inconsistentes lanc_mapeados cat
      manual_lancamentos manual_plano = ([], Ok []).
Proof.
  intros Wl Wc Hcol Hg Hs Hp Hc _ He Ho Hv Hvals.
  destruct (_aplicar_mapeamento_categorias_mapeados lanc mapeamento Wl)
    as [Em Wm].
  exists (mapeados lanc mapeamento). split; [exact Em|].
  (* the first analysis *)
  destruct (analisar_textos _ _ _ _ _ _ _ Wc Hg Hp Hc Hs)
    as [dif [l [He' [_ [Hperm [_ [_ Hdif]]]]]]].
  rewrite He in He'. injection He' as <-.
  (* the valid categories *)
  destruct (obter_categorias_validas_textos _ _ _ _ Wc Hp Hc)
    as [vs [l' [Ho' [_ [Hperm' [_ [_ Hvs]]]]]]].
  rewrite Ho in Ho'. injection Ho' as <-.
  (* the mapping *)
  assert (Hkeys : forall x, In x incons ->
            exists k, x = VStr k /\ In k (List.map fst mapeamento)).
  { apply (validar_completo_chaves mapeamento incons a Hv). }
  (* the second analysis *)
  assert (Hg' : getitem (coluna_lancamentos manual_lancamentos)
                  (mapeados lanc mapeamento)
                = Ok (List.map (substituir mapeamento) labels)).
  { unfold getitem, mapeados. rewrite Hcol. cbn [cols].
    rewrite assoc_map_column, eqb_refl. unfold getitem in Hg.
    destruct (assoc _ (cols lanc)); [now injection Hg as -> | discriminate]. }
  assert (Hs' : Forall (fun v => isna v = true \/ is_str v = true)
                       (List.map (substituir mapeamento) labels)).
  { apply Forall_map. eapply Forall_impl; [|exact Hs]. intros v Hv0.
    destruct (substituir_casos mapeamento v) as [[-> _]|[w [_ ->]]];
      [exact Hv0 | now right]. }
  destruct (analisar_textos _ _ _ _ _ _ _ Wc Hg' Hp Hc Hs')
    as [dif2 [l2 [He2 [_ [Hperm2 [_ [_ Hdif2]]]]]]].
  rewrite He2. do 2 f_equal.
  assert (Hnil : dif2 = []).
  { destruct dif2 as [|x r]; [reflexivity|]. exfalso.
    destruct (proj1 (Hdif2 x) (or_introl eq_refl)) as [Hx [Hna Hnot]].
    apply in_map_iff in Hx as [v [<- Hin]].
    destruct (substituir_casos mapeamento v) as [[E K]|[w [Hw E]]].
    - rewrite E in *.
      assert (Hd : In v dif) by (apply Hdif; tauto).
      apply (Permutation_in _ Hperm) in Hd.
      destruct (Hkeys v Hd) as [k [-> Hk]]. now apply (K k Hk).
    - rewrite E in *. apply Hnot.
      apply in_map_iff in Hw as [[k w'] [Ew Hkw]]. simpl in Ew; subst w'.
      pose proof (Hvals k w Hkw) as Hval.
      apply (Permutation_in _ (Permutation_sym Hperm')) in Hval.
      now apply Hvs in Hval. }
  subst dif2. now apply Permutation_nil in Hperm2.
Qed.

Definition lancamentos_a_mapear : DataFrame :=
  mkDF 3 [(py "Categoria", [VStr (py "Receita Vendas"); VNaN;
                            VStr (py "Despesa X")])].

Lemma lancamentos_a_mapear_wf : wf lancamentos_a_mapear.
Proof.
  split; simpl.
  - repeat constructor; simpl; intuition discriminate.
  - repeat constructor.
Defined.

Lemma reconciliacao_completa_witness :
  exists lanc_mapeados,
    _aplicar_mapeamento_categorias lancamentos_a_mapear
      [(py "Receita Vendas", py "Outra")] = Ok lanc_mapeados /\
    encontrar_categorias_inconsistentes lanc_mapeados plano_rotulos None None
    = ([], Ok []).
Proof.
  assert (H1 : coluna_categoria lancamentos_a_mapear
               = Some (coluna_lancamentos None)) by (vm_compute; reflexivity).
  assert (H2 : getitem (coluna_lancamentos None) lancamentos_a_mapear
               = Ok [VStr (py "Receita Vendas"); VNaN; VStr (py "Despesa X")])
    by (vm_compute; reflexivity).
  assert (H3 : Forall (fun v => isna v = true \/ is_str v = true)
                 [VStr (py "Receita Vendas"); VNaN; VStr (py "Despesa X")]).
  { repeat (apply Forall_cons;
            [first [left; reflexivity | right; reflexivity]|]).
    apply Forall_nil. }
  assert (H4 : coluna_plano plano_rotulos None = Some (py "Nome"))
    by (vm_compute; reflexivity).
  assert (H5 : getitem (py "Nome") plano_rotulos
               = Ok [VStr (py "2.01 - Despesa X"); VStr (py "Outra")])
    by (vm_compute; reflexivity).
  assert (H5' : Forall (fun v => str_exact v = true)
                  [VStr (py "2.01 - Despesa X"); VStr (py "Outra")])
    by (repeat constructor).
  assert (H6 : encontrar_categorias_inconsistentes lancamentos_a_mapear
                 plano_rotulos None None
               = ([], Ok [VStr (py "Receita Vendas")]))
    by (vm_compute; reflexivity).
  assert (H7 : obter_categorias_validas plano_rotulos None
               = ([], [VStr (py "Despesa X"); VStr (py "Outra")]))
    by (vm_compute; reflexivity).
  assert (H8 : validar_mapeamento_completo [(py "Receita Vendas", py "Outra")]
                 [VStr (py "Receita Vendas")]
               = Ok (MapeamentoCompleto, true))
    by (vm_compute; reflexivity).
  assert (H9 : forall k v, In (k, v) [(py "Receita Vendas", py "Outra")] ->
                 In (VStr v) [VStr (py "Despesa X"); VStr (py "Outra")]).
  { intros k v [[= <- <-]|[]]. right; left; reflexivity. }
  exact (reconciliacao_completa lancamentos_a_mapear plano_rotulos None None
           (py "Nome") _ _ _ _ _ _
           lancamentos_a_mapear_wf plano_rotulos_wf H1 H2 H3 H4 H5 H5' H6 H7
           H8 H9).
Defined.

End ValidacaoFacts.

(** ** Suggestions *)

Module SugestaoFacts.

Import MapeadorValidacao.

Lemma find_first {A : Type} (f : A -> bool) (l : list A) (x : A) :
  find f l = Some x ->
  exists pre pos, l = pre ++ x :: pos /\ f x = true /\
                  forall y, In y pre -> f y = false.
Proof.
  induction l as [|a l IH]; simpl; [discriminate|].
  destruct (f a) eqn:E.
  - intros [= <-]. exists [], l. repeat split; [exact E | intros y []].
  - intros H. destruct (IH H) as [pre [pos [-> [Hx Hp]]]].
    exists (a :: pre), pos. repeat split; [exact Hx|].
    intros y [<-|Hy]; auto.
Qed.

Lemma find_none_iff {A : Type} (f : A -> bool) (l : list A) :
  find f l = None <-> forall y, In y l -> f y = false.
Proof.
  split; [apply find_none|].
  induction l as [|a l IH]; intros H; simpl; [reflexivity|].
  rewrite (H a) by now left. apply IH. intros; apply H; now right.
Qed.

(** The texts of Basic Latin and the Latin-1 Supplement; on them [lower]
    is [str.lower]. *)
Definition latin1 (s : str) : bool := forallb (fun c => (c <? 256)%N) s.

(** X8.  On texts of Basic Latin and the Latin-1 Supplement,
    [_sugerir_categoria_similar] suggests only categories of the list it
    is given, or nothing ("").  A category equal to the old label
    when both are in lower case wins: the first such in the list is
    returned.  Without one, something is suggested whenever a word of
    the old label longer than three characters is part of a word of some
    category, or has one as a part (both in lower case, words being
    separated by white space); and nothing is suggested when every word of
    the old label has at most three characters. *)
Theorem sugestao_similar (categoria_antiga : str) (categorias_validas : list str) :
  latin1 categoria_antiga = true ->
  Forall (fun c => latin1 c = true) categorias_validas ->
  let sugestao := _sugerir_categoria_similar categoria_antiga categorias_validas in
  (sugestao = [] \/ In sugestao categorias_validas) /\
  ((exists c, In c categorias_validas /\ lower c = lower categoria_antiga) ->
   exists pre pos,
     categorias_validas = pre ++ sugestao :: pos /\
     lower sugestao = lower categoria_antiga /\
     forall c, In c pre -> lower c <> lower categoria_antiga) /\
  ((exists c w w', In c categorias_validas /\
                   In w (split (lower categoria_antiga)) /\
                   (3 < List.length w)%nat /\
                   In w' (split (lower c)) /\
                   (contains w w' = true \/ contains w' w = true)) ->
   sugestao <> []) /\
  ((forall c, In c categorias_validas -> lower c <> lower categoria_antiga) ->
   (forall w, In w (split (lower categoria_antiga)) ->
              (List.length w <= 3)%nat) ->
   sugestao = []).
Proof.
  intros _ _. unfold _sugerir_categoria_similar. cbv zeta.
  set (alvo := lower categoria_antiga).
  destruct (find (fun categoria => PyStr.eqb (lower categoria) alvo)
                 categorias_validas) as [c0|] eqn:F1.
  - destruct (find_first _ _ _ F1) as [pre [pos [E [Hc Hp]]]].
    apply eqb_eq in Hc.
    split; [right; rewrite E; apply in_or_app; right; now left|].
    split; [|split].
    + intros _. exists pre, pos. split; [exact E|]. split; [exact Hc|].
      intros c Hin. now apply eqb_neq, Hp.
    + intros [c [w [w' [_ [Hw _]]]]] ->. simpl in Hc. rewrite <- Hc in Hw.
      exact Hw.
    + intros H _. exfalso. apply (H c0); [|exact Hc].
      rewrite E; apply in_or_app; right; now left.
  - pose proof (proj1 (find_none_iff _ _) F1) as N1.
    destruct (find (palavra_em_comum alvo) categorias_validas) as [c1|] eqn:F2.
    + destruct (find_first _ _ _ F2) as [pre [pos [E [Hc Hp]]]].
      assert (Hne : c1 <> []).
      { intros ->. unfold palavra_em_comum in Hc. simpl in Hc.
        apply existsb_exists in Hc as [w [_ Hc]].
        now rewrite andb_false_r in Hc. }
      split; [right; rewrite E; apply in_or_app; right; now left|].
      split; [|split].
      * intros [c [Hin Hc']]. apply N1 in Hin. apply eqb_neq in Hin.
        contradiction.
      * intros _. exact Hne.
      * intros _ Hw. exfalso. unfold palavra_em_comum in Hc.
        apply existsb_exists in Hc as [w [Hin Hc]].
        apply andb_true_iff in Hc as [Hc _]. apply Nat.ltb_lt in Hc.
        specialize (Hw w Hin). lia.
    + pose proof (proj1 (find_none_iff _ _) F2) as N2.
      split; [now left|]. split; [|split].
      * intros [c [Hin Hc']]. apply N1 in Hin. apply eqb_neq in Hin.
        contradiction.
      * intros [c [w [w' [Hin [Hw1 [Hl [Hw2 Hc]]]]]]]. exfalso.
        apply N2 in Hin. unfold palavra_em_comum in Hin.
        assert (K : existsb
                      (fun palavra_antiga =>
                         (3 <? List.length palavra_antiga)%nat
                         && existsb
                              (fun palavra_nova =>
                                 contains palavra_antiga palavra_nova
                                 || contains palavra_nova palavra_antiga)
                              (split (lower c)))
                      (split alvo) = true).
        { apply existsb_exists. exists w. split; [exact Hw1|].
          apply andb_true_iff. split; [now apply Nat.ltb_lt|].
          apply existsb_exists. exists w'. split; [exact Hw2|].
          apply orb_true_iff. exact Hc. }
        cbv zeta in Hin. congruence.
      * reflexivity.
Qed.

Lemma sugestao_similar_witness :
  _sugerir_categoria_similar (py "receita de vendas")
    [py "Despesas Gerais"; py "Vendas"; py "Receita de Vendas"]
  = py "Receita de Vendas" /\
  _sugerir_categoria_similar (py "Venda balcão")
    [py "Despesas Gerais"; py "Vendas"] <> [].
Proof.
  assert (L1 : latin1 (py "receita de vendas") = true)
    by (vm_compute; reflexivity).
  assert (L2 : Forall (fun c => latin1 c = true)
                 [py "Despesas Gerais"; py "Vendas"; py "Receita de Vendas"])
    by (repeat (apply Forall_cons; [vm_compute; reflexivity|]);
        apply Forall_nil).
  assert (L3 : latin1 (py "Venda balcão") = true) by (vm_compute; reflexivity).
  assert (L4 : Forall (fun c => latin1 c = true)
                 [py "Despesas Gerais"; py "Vendas"])
    by (repeat (apply Forall_cons; [vm_compute; reflexivity|]);
        apply Forall_nil).
  split.
  - destruct (sugestao_similar (py "receita de vendas")
                [py "Despesas Gerais"; py "Vendas"; py "Receita de Vendas"]
                L1 L2)
      as [_ [H _]].
    vm_compute. reflexivity.
  - destruct (sugestao_similar (py "Venda balcão")
                [py "Despesas Gerais"; py "Vendas"] L3 L4) as [_ [_ [H _]]].
    apply H. exists (py "Vendas"), (py "venda"), (py "vendas").
    split; [right; left; reflexivity|].
    split; [left; reflexivity|].
    split; [vm_compute; lia|].
    split; [left; reflexivity | left; reflexivity].
Defined.

End SugestaoFacts.

(** ** Parent codes *)

Module CodigoPaiFacts.

Import GeradorExcelCodigoPai.

Lemma split_on_cons (sep : char) (s : str) :
  exists parte resto, split_on sep s = parte :: resto.
Proof.
  induction s as [|c s [p [r IH]]]; simpl; [now exists [], []|].
  destruct (c =? sep)%N; [now eexists; eexists|].
  rewrite IH. now eexists; eexists.
Qed.

(** Joining what was split gives the text back. *)
Lemma join_split_on (sep : char) (s : str) :
  join [sep] (split_on sep s) = s.
Proof.
  induction s as [|c s IH]; simpl; [reflexivity|].
  destruct (split_on_cons sep s) as [p [r E]]. rewrite E in *.
  destruct (c =? sep)%N eqn:C.
  - apply N.eqb_eq in C; subst c.
    change (join [sep] ([] :: p :: r)) with ([sep] ++ join [sep] (p :: r)).
    now rewrite IH.
  - destruct r as [|q r].
    + simpl in *. now rewrite IH.
    + change (join [sep] ((c :: p) :: q :: r))
        with (c :: (p ++ [sep] ++ join [sep] (q :: r))).
      change (join [sep] (p :: q :: r))
        with (p ++ [sep] ++ join [sep] (q :: r)) in IH.
      now rewrite IH.
Qed.

Lemma split_on_app (sep : char) (a b : str) :
  split_on sep (a ++ sep :: b) = split_on sep a ++ split_on sep b.
Proof.
  induction a as [|c a IH]; simpl.
  - now rewrite N.eqb_refl.
  - destruct (c =? sep)%N; [now rewrite IH|].
    rewrite IH. destruct (split_on_cons sep a) as [p [r E]]. now rewrite E.
Qed.

Lemma split_on_absent (sep : char) (s : str) :
  ~ In sep s -> split_on sep s = [s].
Proof.
  induction s as [|c s IH]; simpl; [reflexivity|].
  intros H. destruct (c =? sep)%N eqn:C.
  - apply N.eqb_eq in C. tauto.
  - rewrite IH by tauto. reflexivity.
Qed.

Lemma contains_char (c : char) (s : str) :
  contains [c] s = true <-> In c s.
Proof.
  induction s as [|x s IH]; simpl; [split; [discriminate | tauto]|].
  rewrite andb_true_r. rewrite orb_true_iff, IH, N.eqb_eq.
  split; intros [H|H]; auto.
Qed.

(** X9.  For a code that [str()] prints as modelled,
    [_calcular_codigo_pai] gives "" when the code, turned into a text and
    trimmed, holds no dot; and for a code that reads [a.b] with no dot in
    [b], it gives [a]: what stands before the last dot.  So "2.1.1" has
    the parent "2.1", and "2" has none. *)
Theorem codigo_pai_ultimo_ponto (codigo : value) :
  str_exact codigo = true ->
  (contains (py ".") (strip (py_str codigo)) = false ->
   _calcular_codigo_pai codigo = []) /\
  (forall a b,
     strip (py_str codigo) = a ++ py "." ++ b ->
     contains (py ".") b = false ->
     _calcular_codigo_pai codigo = a).
Proof.
  intros _.
  assert (E : forall v, match v with VStr s => s | _ => py_str v end = py_str v)
    by (intros []; reflexivity).
  unfold _calcular_codigo_pai. cbv zeta. rewrite E. split.
  - intros H. now rewrite H.
  - intros a b Hs Hb. rewrite Hs.
    change (py ".") with [46%N] in *.
    match goal with
    | |- context [contains ?x ?y] =>
      replace (contains x y) with true
        by (symmetry; apply contains_char, in_or_app; right; now left)
    end.
    cbn [negb].
    assert (Hn : ~ In 46%N b).
    { intros H. apply contains_char in H.
      pose proof (eq_trans (eq_sym H) Hb) as C. discriminate C. }
    simpl app. rewrite !split_on_app, !(split_on_absent _ b Hn).
    destruct (split_on_cons 46%N a) as [p [r Ea]].
    rewrite length_app. simpl List.length at 2.
    replace (1 <? List.length (split_on 46%N a) + 1)%nat with true
      by (symmetry; apply Nat.ltb_lt; rewrite Ea; simpl; lia).
    rewrite removelast_last. apply join_split_on.
Qed.

Lemma codigo_pai_ultimo_ponto_witness :
  _calcular_codigo_pai (VStr (py " 2.1.1 ")) = py "2.1" /\
  _calcular_codigo_pai (VInt 2) = [].
Proof.
  assert (E1 : str_exact (VStr (py " 2.1.1 ")) = true) by reflexivity.
  assert (E2 : str_exact (VInt 2) = true) by (vm_compute; reflexivity).
  split.
  - apply (proj2 (codigo_pai_ultimo_ponto (VStr (py " 2.1.1 ")) E1)
             (py "2.1") (py "1")); vm_compute; reflexivity.
  - apply (proj1 (codigo_pai_ultimo_ponto (VInt 2) E2)).
    vm_compute. reflexivity.
Defined.

End CodigoPaiFacts.
